(** * Flatland: rail environment step engine and observation builders

    A shallow embedding of [flatland/envs/rail_env.py] (class [RailEnv]:
    [get_agent_handles], [get_num_agents], [add_agent_static], [step],
    [_check_action_on_agent], [check_action]) and of
    [flatland/core/env_observation_builder.py] (class [TreeObsForRailEnv]:
    [reset], [_distance_map_walker], [_get_and_update_neighbors], [get],
    [_explore_branch], [util_print_obs_subtree]), followed by the
    properties of the specification that were checked against them and by
    further properties read off the code.

    Conventions.  Python integers are [Z]; Python floats are the kernel's
    binary64 floats ([PrimFloat]); a Python exception is a [Raise] in the
    [result] monad; a [while] loop whose termination is not structural
    takes fuel and reports [OutOfFuel]. *)

From Stdlib Require Import ZArith Lia Floats Uint63.
From stdpp Require Import base option list gmap strings.

Open Scope Z_scope.

(** * Part I: the model *)

(** ** Exceptions and results *)

Inductive exn := IndexError | KeyError | ValueError | TypeError.

Inductive result (A : Type) :=
  | Ok (a : A)
  | Raise (e : exn)
  | OutOfFuel.
Arguments Ok {A} a.
Arguments Raise {A} e.
Arguments OutOfFuel {A}.

#[global] Instance result_ret : MRet result := fun A a => Ok a.
#[global] Instance result_bind : MBind result := fun A B f m =>
  match m with
  | Ok a => f a
  | Raise e => Raise e
  | OutOfFuel => OutOfFuel
  end.

Definition of_option {A} (e : exn) (o : option A) : result A :=
  match o with Some a => Ok a | None => Raise e end.

(** [for x in xs: s = body(x, s)], stopping at the first exception. *)
Fixpoint for_each {A S} (body : A -> S -> result S) (xs : list A) (s : S) : result S :=
  match xs with
  | [] => Ok s
  | x :: xs' => s' ← body x s; for_each body xs' s'
  end.

(** ** Python numbers: [int] and [float] *)

Inductive pynum := PyInt (z : Z) | PyFloat (f : float).

(** [float(z)], exact for the small constants the engine uses. *)
Definition float_of_Z (z : Z) : float :=
  match z with
  | Z0 => PrimFloat.zero
  | Zpos _ => PrimFloat.of_uint63 (Uint63.of_Z z)
  | Zneg _ => PrimFloat.opp (PrimFloat.of_uint63 (Uint63.of_Z (- z)))
  end.

Definition py_add (a b : pynum) : pynum :=
  match a, b with
  | PyInt x, PyInt y => PyInt (x + y)
  | PyInt x, PyFloat g => PyFloat (PrimFloat.add (float_of_Z x) g)
  | PyFloat f, PyInt y => PyFloat (PrimFloat.add f (float_of_Z y))
  | PyFloat f, PyFloat g => PyFloat (PrimFloat.add f g)
  end.

Definition py_mul (a b : pynum) : pynum :=
  match a, b with
  | PyInt x, PyInt y => PyInt (x * y)
  | PyInt x, PyFloat g => PyFloat (PrimFloat.mul (float_of_Z x) g)
  | PyFloat f, PyInt y => PyFloat (PrimFloat.mul f (float_of_Z y))
  | PyFloat f, PyFloat g => PyFloat (PrimFloat.mul f g)
  end.

(** ** Grid positions and the four compass directions *)

Definition pos := (Z * Z)%type.

Definition pos_eqb (p q : pos) : bool := (p.1 =? q.1) && (p.2 =? q.2).

(** Modelled from the spec: [flatland.core.grid.grid4_utils.get_new_position]
    is imported by [rail_env.py] but is not among the sources.  The data model
    fixes the deltas: N: row-1, E: col+1, S: row+1, W: col-1.  The engine only
    calls it with a direction that was reduced modulo 4 or produced by
    [argmax] over four entries. *)
Definition get_new_position (position : pos) (movement : Z) : pos :=
  if movement =? 0 then (position.1 - 1, position.2)
  else if movement =? 1 then (position.1, position.2 + 1)
  else if movement =? 2 then (position.1 + 1, position.2)
  else if movement =? 3 then (position.1, position.2 - 1)
  else position.

(** ** Transition map *)

(** Modelled from the spec: class [GridTransitionMap]
    ([flatland.core.transition_map]) is used through [self.rail] and
    [self.env.rail] but is not among the sources.  Each cell holds a 16-bit
    mask in which bit [entryDir*4 + exitDir] is set iff an agent facing
    [entryDir] may exit toward [exitDir]; a query outside the grid answers
    with the empty mask. *)
Record GridTransitionMap := {
  grid : list (list Z)
}.

(** Modelled from the spec: [rail.get_transitions((r, c))], the cell's whole
    mask ([getTransitions]); empty outside the grid. *)
Definition get_cell_transitions (rail : GridTransitionMap) (p : pos) : Z :=
  if (0 <=? p.1) && (0 <=? p.2)
  then default 0 (row ← grid rail !! Z.to_nat p.1; row !! Z.to_nat p.2)
  else 0.

(** Modelled from the spec: [rail.get_transition((r, c, o), d)]
    ([isTransitionAllowed]), bit [o*4 + d] of the mask. *)
Definition get_transition (rail : GridTransitionMap) (p : pos) (o d : Z) : bool :=
  (0 <=? o) && (o <? 4) && (0 <=? d) && (d <? 4)
  && Z.testbit (get_cell_transitions rail p) (o * 4 + d).

(** Modelled from the spec: [rail.get_transitions((r, c, o))]
    ([getTransitionsForEntry]), the four exits of entry direction [o],
    indexed by exit direction as the sources index it. *)
Definition get_transitions (rail : GridTransitionMap) (p : pos) (o : Z) : list bool :=
  map (get_transition rail p o) [0; 1; 2; 3].

(** [np.count_nonzero] and [np.argmax] over such a 4-tuple. *)
Fixpoint count_nonzero (l : list bool) : Z :=
  match l with
  | [] => 0
  | b :: l' => (if b then 1 else 0) + count_nonzero l'
  end.

Fixpoint argmax (l : list bool) : Z :=
  match l with
  | [] => 0
  | true :: _ => 0
  | false :: l' => if existsb id l' then 1 + argmax l' else 0
  end.

(** The loop [nbits = 0; while tmp > 0: nbits += tmp & 1; tmp = tmp >> 1]:
    it consumes the binary digits of a positive [tmp] and does not run at all
    for [tmp <= 0]. *)
Fixpoint nbits_pos (p : positive) : Z :=
  match p with
  | xH => 1
  | xO p' => nbits_pos p'
  | xI p' => 1 + nbits_pos p'
  end.

Definition nbits (tmp : Z) : Z :=
  match tmp with
  | Zpos p => nbits_pos p
  | _ => 0
  end.

(** ** Agents *)

(** [RailEnvActions]. *)
Definition DO_NOTHING : Z := 0.
Definition MOVE_LEFT : Z := 1.
Definition MOVE_FORWARD : Z := 2.
Definition MOVE_RIGHT : Z := 3.
Definition STOP_MOVING : Z := 4.
(** [len(RailEnvActions)] *)
Definition len_RailEnvActions : Z := 5.

(** Modelled from the spec: class [EnvAgent] ([flatland.envs.agent_utils])
    is not among the sources.  These are the attributes that [step] reads
    or writes, the dynamic agent state of the data model; [speed_data] is
    flattened into its three keys. *)
Record EnvAgent := {
  position : pos;
  direction : Z;
  target : pos;
  moving : bool;
  position_fraction : float;
  speed : float;
  transition_action_on_cellexit : Z;
  old_direction : Z;
  old_position : pos
}.

Definition set_position (p : pos) (a : EnvAgent) : EnvAgent :=
  {| position := p; direction := direction a; target := target a;
     moving := moving a; position_fraction := position_fraction a;
     speed := speed a;
     transition_action_on_cellexit := transition_action_on_cellexit a;
     old_direction := old_direction a; old_position := old_position a |}.

Definition set_direction (d : Z) (a : EnvAgent) : EnvAgent :=
  {| position := position a; direction := d; target := target a;
     moving := moving a; position_fraction := position_fraction a;
     speed := speed a;
     transition_action_on_cellexit := transition_action_on_cellexit a;
     old_direction := old_direction a; old_position := old_position a |}.

Definition set_moving (m : bool) (a : EnvAgent) : EnvAgent :=
  {| position := position a; direction := direction a; target := target a;
     moving := m; position_fraction := position_fraction a;
     speed := speed a;
     transition_action_on_cellexit := transition_action_on_cellexit a;
     old_direction := old_direction a; old_position := old_position a |}.

Definition set_position_fraction (f : float) (a : EnvAgent) : EnvAgent :=
  {| position := position a; direction := direction a; target := target a;
     moving := moving a; position_fraction := f;
     speed := speed a;
     transition_action_on_cellexit := transition_action_on_cellexit a;
     old_direction := old_direction a; old_position := old_position a |}.

Definition set_transition_action_on_cellexit (x : Z) (a : EnvAgent) : EnvAgent :=
  {| position := position a; direction := direction a; target := target a;
     moving := moving a; position_fraction := position_fraction a;
     speed := speed a;
     transition_action_on_cellexit := x;
     old_direction := old_direction a; old_position := old_position a |}.

(** [agent.old_direction = agent.direction; agent.old_position = agent.position] *)
Definition set_old (a : EnvAgent) : EnvAgent :=
  {| position := position a; direction := direction a; target := target a;
     moving := moving a; position_fraction := position_fraction a;
     speed := speed a;
     transition_action_on_cellexit := transition_action_on_cellexit a;
     old_direction := direction a; old_position := position a |}.

(** ** The rail environment ([rail_env.py]) *)

(** Modelled from the spec: class [EnvAgentStatic]
    ([flatland.envs.agent_utils]) is not among the sources.  Only the number
    of static agents matters to [step] ([get_num_agents] counts them). *)
Record EnvAgentStatic := {
  static_position : pos;
  static_direction : Z;
  static_target : pos;
  static_moving : bool
}.

(** [dones] is the dictionary of per-agent flags; its key ["__all__"] is
    kept apart as [dones_all]. *)
Record RailEnv := {
  width : Z;
  height : Z;
  rail : GridTransitionMap;
  agents : list EnvAgent;
  agents_static : list EnvAgentStatic;
  dones : gmap nat bool;
  dones_all : bool;
  rewards_dict : gmap nat pynum
}.

Definition set_agents (l : list EnvAgent) (e : RailEnv) : RailEnv :=
  {| width := width e; height := height e; rail := rail e; agents := l;
     agents_static := agents_static e; dones := dones e;
     dones_all := dones_all e; rewards_dict := rewards_dict e |}.

Definition set_dones (d : gmap nat bool) (e : RailEnv) : RailEnv :=
  {| width := width e; height := height e; rail := rail e; agents := agents e;
     agents_static := agents_static e; dones := d;
     dones_all := dones_all e; rewards_dict := rewards_dict e |}.

Definition set_dones_all (b : bool) (e : RailEnv) : RailEnv :=
  {| width := width e; height := height e; rail := rail e; agents := agents e;
     agents_static := agents_static e; dones := dones e;
     dones_all := b; rewards_dict := rewards_dict e |}.

Definition set_rewards_dict (r : gmap nat pynum) (e : RailEnv) : RailEnv :=
  {| width := width e; height := height e; rail := rail e; agents := agents e;
     agents_static := agents_static e; dones := dones e;
     dones_all := dones_all e; rewards_dict := r |}.

(** [get_num_agents(static=True)] *)
Definition get_num_agents (e : RailEnv) : nat := length (agents_static e).

(** *** [check_action] *)

Definition check_action (e : RailEnv) (agent : EnvAgent) (action : Z)
  : Z * option bool :=
  let transition_isValid : option bool := None in
  let possible_transitions :=
    get_transitions (rail e) (position agent) (direction agent) in
  let num_transitions := count_nonzero possible_transitions in
  let new_direction := direction agent in
  let '(new_direction, transition_isValid) :=
    if action =? MOVE_LEFT then
      (direction agent - 1,
       if num_transitions <=? 1 then Some false else transition_isValid)
    else if action =? MOVE_RIGHT then
      (direction agent + 1,
       if num_transitions <=? 1 then Some false else transition_isValid)
    else (new_direction, transition_isValid) in
  let new_direction := new_direction mod 4 in
  if (action =? MOVE_FORWARD) && (num_transitions =? 1)
  then (argmax possible_transitions, Some true)
  else (new_direction, transition_isValid).

(** *** [_check_action_on_agent] *)

(** [np.clip(x, lo, hi)] on one coordinate. *)
Definition clip (x lo hi : Z) : Z := Z.min (Z.max x lo) hi.

Record action_check := {
  cell_isFree : bool;
  new_cell_isValid : bool;
  new_direction : Z;
  new_position : pos;
  transition_isValid : bool
}.

Definition _check_action_on_agent (e : RailEnv) (action : Z) (agent : EnvAgent)
  : action_check :=
  let '(new_direction, transition_isValid) := check_action e agent action in
  let new_position := get_new_position (position agent) new_direction in
  let new_cell_isValid :=
    pos_eqb new_position
            (clip new_position.1 0 (height e - 1),
             clip new_position.2 0 (width e - 1))
    && (0 <? get_cell_transitions (rail e) new_position) in
  let transition_isValid :=
    match transition_isValid with
    | None => get_transition (rail e) (position agent) (direction agent) new_direction
    | Some b => b
    end in
  let cell_isFree :=
    negb (existsb (fun agent2 => pos_eqb new_position (position agent2)) (agents e)) in
  {| cell_isFree := cell_isFree; new_cell_isValid := new_cell_isValid;
     new_direction := new_direction; new_position := new_position;
     transition_isValid := transition_isValid |}.

(** *** [step] *)

Definition alpha : float := 1%float.
Definition beta : float := 1%float.
Definition invalid_action_penalty : pynum := PyInt 0.
Definition step_penalty : pynum := py_mul (PyInt (-1)) (PyFloat alpha).
Definition global_reward : pynum := py_mul (PyInt 1) (PyFloat beta).
Definition stop_penalty : pynum := PyInt 0.
Definition start_penalty : pynum := PyInt 0.

(** The action executed for agent [iAgent]: a missing entry and an entry
    with [a < 0 or a > len(RailEnvActions)] become [DO_NOTHING].  The copy
    [action_dict] is local to [step] and iteration [iAgent] reads and writes
    its key [iAgent] only, so the copy is not threaded through the loop. *)
Definition supplied_action (action_dict : gmap nat Z) (iAgent : nat) : Z :=
  let a := default DO_NOTHING (action_dict !! iAgent) in
  if (a <? 0) || (a >? len_RailEnvActions) then DO_NOTHING else a.

(** Lines 224-226: do-nothing keeps a moving agent moving. *)
Definition effective_action (action : Z) (agent : EnvAgent) : Z :=
  if (action =? DO_NOTHING) && moving agent then MOVE_FORWARD else action.

(** Lines 228-236: halting on entering a cell, and starting to move. *)
Definition stop_or_start (action : Z) (agent : EnvAgent) (reward : pynum)
  : EnvAgent * pynum :=
  let '(agent, reward) :=
    if (action =? STOP_MOVING) && moving agent
       && PrimFloat.eqb (position_fraction agent) 0%float
    then (set_moving false agent, py_add reward stop_penalty)
    else (agent, reward) in
  if negb (moving agent) && negb ((action =? DO_NOTHING) || (action =? STOP_MOVING))
  then (set_moving true agent, py_add reward start_penalty)
  else (agent, reward).

(** Lines 249-283: the choice of the exit action at a cell boundary.
    [None] is the [continue] of an invalid action; otherwise the agent and
    [action_selected].  [action_is_valid] is the test
    [all([new_cell_isValid, transition_isValid])] on the tuple that
    [_check_action_on_agent] returns. *)
Definition action_is_valid (e : RailEnv) (action : Z) (agent : EnvAgent) : bool :=
  let chk := _check_action_on_agent e action agent in
  new_cell_isValid chk && transition_isValid chk.

Definition select_action (e : RailEnv) (action : Z) (agent : EnvAgent)
  : option (EnvAgent * bool) :=
  let action_selected := false in
  if PrimFloat.eqb (position_fraction agent) 0%float then
    if negb (action =? DO_NOTHING) && negb (action =? STOP_MOVING) then
      if action_is_valid e action agent then
        Some (set_transition_action_on_cellexit action agent, true)
      else if ((action =? MOVE_LEFT) || (action =? MOVE_RIGHT)) && moving agent then
        if action_is_valid e MOVE_FORWARD agent then
          Some (set_transition_action_on_cellexit MOVE_FORWARD agent, true)
        else None
      else None
    else Some (agent, action_selected)
  else Some (agent, action_selected).

(** Lines 288-300: at [position_fraction >= 1.0] the stored action is
    performed if the new cell is valid, the transition legal and the cell
    free. *)
Definition exit_cell (e : RailEnv) (agent : EnvAgent) : EnvAgent :=
  if PrimFloat.leb 1%float (position_fraction agent) then
    let chk := _check_action_on_agent e (transition_action_on_cellexit agent) agent in
    if new_cell_isValid chk && transition_isValid chk && cell_isFree chk then
      set_position_fraction 0%float
        (set_direction (new_direction chk) (set_position (new_position chk) agent))
    else agent
  else agent.

(** The body of the agent loop for an agent that is not done, lines 213-305:
    from the agent, its reward so far and the action read for it, to the
    agent, its reward, and whether [self.dones[iAgent] = True] was executed.
    [e] is the environment as the iteration finds it; [e.agents] is read for
    the positions of all agents, and the agent's own position is written
    only after the last such read. *)
Definition agent_tick (e : RailEnv) (action : Z) (agent : EnvAgent) (reward : pynum)
  : EnvAgent * pynum * bool :=
  let action := effective_action action agent in
  let '(agent, reward) := stop_or_start action agent reward in
  match select_action e action agent with
  | None =>
      (set_moving false agent,
       py_add (py_add reward invalid_action_penalty) stop_penalty,
       false)
  | Some (agent, action_selected) =>
      let agent :=
        if moving agent
           && (action_selected || PrimFloat.ltb 0%float (position_fraction agent))
        then set_position_fraction
               (PrimFloat.add (position_fraction agent) (speed agent)) agent
        else agent in
      let agent := exit_cell e agent in
      if pos_eqb (position agent) (target agent)
      then (agent, reward, true)
      else (agent, py_add reward (py_mul step_penalty (PyFloat (speed agent))), false)
  end.

(** One iteration of [for iAgent in range(self.get_num_agents())]. *)
Definition step_agent (action_dict : gmap nat Z) (iAgent : nat) (e : RailEnv)
  : result RailEnv :=
  agent ← of_option IndexError (agents e !! iAgent);
  let agent := set_old agent in
  let e := set_agents (<[iAgent := agent]> (agents e)) e in
  done ← of_option KeyError (dones e !! iAgent);
  if done : bool then Ok e
  else
    reward ← of_option KeyError (rewards_dict e !! iAgent);
    let '(agent, reward, reached) :=
      agent_tick e (supplied_action action_dict iAgent) agent reward in
    let e := set_agents (<[iAgent := agent]> (agents e)) e in
    let e := set_rewards_dict (<[iAgent := reward]> (rewards_dict e)) e in
    Ok (if reached then set_dones (<[iAgent := true]> (dones e)) e else e).

(** [np.all([np.array_equal(agent2.position, agent2.target) for agent2 in self.agents])] *)
Definition all_at_target (e : RailEnv) : bool :=
  forallb (fun agent2 => pos_eqb (position agent2) (target agent2)) (agents e).

(** [self.rewards_dict = dict(); for iAgent in range(n): self.rewards_dict[iAgent] = 0] *)
Definition reset_rewards (n : nat) : gmap nat pynum :=
  foldl (fun d iAgent => <[iAgent := PyInt 0]> d) ∅ (seq 0 n).

(** [step] returns [(observations, self.rewards_dict, self.dones, {})]; the
    rewards and the flags are fields of the environment returned here, and
    the observations are built from it by the observation builder. *)
Definition step (e : RailEnv) (action_dict_ : gmap nat Z) : result RailEnv :=
  let action_dict := action_dict_ in
  let e := set_rewards_dict (reset_rewards (get_num_agents e)) e in
  if dones_all e then
    Ok (set_rewards_dict ((fun r => py_add r global_reward) <$> rewards_dict e) e)
  else
    e ← for_each (step_agent action_dict) (seq 0 (get_num_agents e)) e;
    Ok (if all_at_target e
        then set_rewards_dict
               ((fun r => py_add (py_mul (PyInt 0) r) global_reward) <$> rewards_dict e)
               (set_dones_all true e)
        else e).

(** An episode after a reset: one [step] call per action dictionary. *)
Definition run_steps (actions : list (gmap nat Z)) (e : RailEnv) : result RailEnv :=
  for_each (fun action_dict e => step e action_dict) actions e.

(** ** Handles and static agents ([rail_env.py], lines 140-152) *)

(** [get_num_agents(static)]: the static agents are counted by default, the
    agents otherwise. *)
Definition get_num_agents_of (static : bool) (e : RailEnv) : nat :=
  if static then length (agents_static e) else length (agents e).

(** [get_agent_handles]: [range(self.get_num_agents())]. *)
Definition get_agent_handles (e : RailEnv) : list nat := seq 0 (get_num_agents e).

Definition set_agents_static (l : list EnvAgentStatic) (e : RailEnv) : RailEnv :=
  {| width := width e; height := height e; rail := rail e; agents := agents e;
     agents_static := l; dones := dones e;
     dones_all := dones_all e; rewards_dict := rewards_dict e |}.

(** [add_agent_static]: appends to [agents_static] and returns the index of
    the new entry; [agents] is left alone until [restart_agents]. *)
Definition add_agent_static (agent_static : EnvAgentStatic) (e : RailEnv)
  : RailEnv * nat :=
  let e := set_agents_static (agents_static e ++ [agent_static]) e in
  (e, (length (agents_static e) - 1)%nat).

(** ** The tree observation builder ([env_observation_builder.py]) *)

(** The numbers of the distance map and of the observations: the builder
    only produces integers, [np.inf] and [-np.inf]. *)
Inductive xnum := NegInf | Fin (z : Z) | PosInf.

(** [a < b] *)
Definition xlt (a b : xnum) : bool :=
  match a, b with
  | NegInf, NegInf => false
  | NegInf, _ => true
  | Fin _, NegInf => false
  | Fin x, Fin y => x <? y
  | Fin _, PosInf => true
  | PosInf, _ => false
  end.

(** Python's [min(a, b)] and [max(a, b)] on two numbers: the first argument
    unless the second is smaller (larger). *)
Definition xmin (a b : xnum) : xnum := if xlt b a then b else a.
Definition xmax (a b : xnum) : xnum := if xlt a b then b else a.

(** [a + 1] *)
Definition xsucc (a : xnum) : xnum :=
  match a with
  | Fin z => Fin (z + 1)
  | _ => a
  end.

(** Indexing a sequence of length [n] with a Python integer: negative
    indices count from the end, anything else out of range raises. *)
Definition index (n : nat) (i : Z) : result nat :=
  if (0 <=? i) && (i <? Z.of_nat n) then Ok (Z.to_nat i)
  else if (- Z.of_nat n <=? i) && (i <? 0) then Ok (Z.to_nat (Z.of_nat n + i))
  else Raise IndexError.

Definition getitem {A} (l : list A) (i : Z) : result A :=
  k ← index (length l) i; of_option IndexError (l !! k).

Definition setitem {A} (l : list A) (i : Z) (x : A) : result (list A) :=
  k ← index (length l) i; Ok (<[k := x]> l).

(** [moves[direction]] on the 4-tuple of a cell, for [direction] in [range(4)]. *)
Definition tuple_item (moves : list bool) (i : Z) : bool :=
  default false (moves !! Z.to_nat i).

(** An array of shape [(number_of_agents, height, width, 4)]. *)
Definition ndarray4 := list (list (list (list xnum))).

Module TreeObsForRailEnv.

(** What the builder reads of [self.env]: the attributes named in
    [env_observation_builder.py]. *)
Record Env := {
  number_of_agents : nat;
  height : Z;
  width : Z;
  rail : GridTransitionMap;
  agents_position : list pos;
  agents_direction : list Z;
  agents_target : list pos
}.

(** The builder's own attributes.  The two lookup tables are dictionaries
    whose values are all 1; only their keys are read. *)
Record TreeObs := {
  max_depth : nat;
  distance_map : ndarray4;
  max_dist : list xnum;
  location_has_target : gset pos;
  location_has_agent : gset pos
}.

Definition set_distance_map (dm : ndarray4) (self : TreeObs) : TreeObs :=
  {| max_depth := max_depth self; distance_map := dm; max_dist := max_dist self;
     location_has_target := location_has_target self;
     location_has_agent := location_has_agent self |}.

Definition set_max_dist (m : list xnum) (self : TreeObs) : TreeObs :=
  {| max_depth := max_depth self; distance_map := distance_map self; max_dist := m;
     location_has_target := location_has_target self;
     location_has_agent := location_has_agent self |}.

Definition set_location_has_target (s : gset pos) (self : TreeObs) : TreeObs :=
  {| max_depth := max_depth self; distance_map := distance_map self;
     max_dist := max_dist self;
     location_has_target := s;
     location_has_agent := location_has_agent self |}.

Definition set_location_has_agent (s : gset pos) (self : TreeObs) : TreeObs :=
  {| max_depth := max_depth self; distance_map := distance_map self;
     max_dist := max_dist self;
     location_has_target := location_has_target self;
     location_has_agent := s |}.

(** [self.distance_map[a, r, c]], [self.distance_map[a, r, c, o]] and the
    assignments to them. *)
Definition dm_row (dm : ndarray4) (a r c : Z) : result (list xnum) :=
  plane ← getitem dm a; line ← getitem plane r; getitem line c.

Definition dm_get (dm : ndarray4) (a r c o : Z) : result xnum :=
  row ← dm_row dm a r c; getitem row o.

Definition dm_set_row (dm : ndarray4) (a r c : Z) (row : list xnum) : result ndarray4 :=
  plane ← getitem dm a; line ← getitem plane r;
  line' ← setitem line c row; plane' ← setitem plane r line'; setitem dm a plane'.

Definition dm_set (dm : ndarray4) (a r c o : Z) (v : xnum) : result ndarray4 :=
  row ← dm_row dm a r c; row' ← setitem row o v; dm_set_row dm a r c row'.

(** [min(row, x)] where [row] is an array: Python's [min] evaluates
    [x < row], an array of truth values, as a condition, which is a
    ValueError for an array of more than one element.  The rows of the
    distance map have four. *)
Definition builtin_min_array (row : list xnum) (x : xnum) : result xnum :=
  match row with
  | [] => Ok x
  | [y] => Ok (xmin y x)
  | _ :: _ :: _ => Raise ValueError
  end.

(** [_new_position]: [None] for a movement that is not one of the four. *)
Definition _new_position (position : pos) (movement : Z) : option pos :=
  if movement =? 0 then Some (position.1 - 1, position.2)
  else if movement =? 1 then Some (position.1, position.2 + 1)
  else if movement =? 2 then Some (position.1 + 1, position.2)
  else if movement =? 3 then Some (position.1, position.2 - 1)
  else None.

Definition in_grid (env : Env) (cell : pos) : bool :=
  (0 <=? cell.1) && (cell.1 <? height env) && (0 <=? cell.2) && (cell.2 <? width env).

(** A queue node [(row, col, direction, distance)]. *)
Definition node := (Z * Z * Z * xnum)%type.

(** *** [_get_and_update_neighbors] *)

(** The body of the first loop, [for direction in range(4)]. *)
Definition neighbors_by_direction
  (env : Env) (position : pos) (target_nr : Z) (current_distance : xnum)
  (enforce_target_direction : Z)
  (direction : Z) (acc : ndarray4 * list node) : result (ndarray4 * list node) :=
  let '(dm, neighbors) := acc in
  new_cell ← of_option TypeError (_new_position position ((direction + 2) mod 4));
  if in_grid env new_cell then
    let transitionValid :=
      existsb (fun orientation =>
                 tuple_item (get_transitions (rail env) new_cell orientation) direction)
              [0; 1; 2; 3] in
    if negb transitionValid then Ok acc
    else
      let directionMatch :=
        if 0 <=? enforce_target_direction
        then get_transition (rail env) new_cell direction enforce_target_direction
        else true in
      let directionMatch :=
        if negb directionMatch then
          if nbits (get_cell_transitions (rail env) new_cell) =? 1
          then directionMatch
               || get_transition (rail env) new_cell ((direction + 2) mod 4) direction
          else directionMatch
        else directionMatch in
      if transitionValid && directionMatch then
        row ← dm_row dm target_nr new_cell.1 new_cell.2;
        new_distance ← builtin_min_array row (xsucc current_distance);
        let neighbors := neighbors ++ [(new_cell.1, new_cell.2, direction, new_distance)] in
        dm ← dm_set_row dm target_nr new_cell.1 new_cell.2
               (replicate (length row) new_distance);
        Ok (dm, neighbors)
      else Ok acc
  else Ok acc.

(** The body of [for agent_orientation in range(4)] in the second loop. *)
Definition neighbors_by_orientation
  (env : Env) (new_cell : pos) (target_nr : Z) (current_distance : xnum)
  (desired_movement_from_new_cell : Z)
  (agent_orientation : Z) (acc : ndarray4 * list node) : result (ndarray4 * list node) :=
  let '(dm, neighbors) := acc in
  let isValid :=
    get_transition (rail env) new_cell agent_orientation desired_movement_from_new_cell in
  if isValid then
    d ← dm_get dm target_nr new_cell.1 new_cell.2 agent_orientation;
    let new_distance := xmin d (xsucc current_distance) in
    let neighbors :=
      neighbors ++ [(new_cell.1, new_cell.2, agent_orientation, new_distance)] in
    dm ← dm_set dm target_nr new_cell.1 new_cell.2 agent_orientation new_distance;
    Ok (dm, neighbors)
  else Ok acc.

(** The body of the second loop, [for neigh_direction in possible_directions]. *)
Definition neighbors_from
  (env : Env) (position : pos) (target_nr : Z) (current_distance : xnum)
  (neigh_direction : Z) (acc : ndarray4 * list node) : result (ndarray4 * list node) :=
  new_cell ← of_option TypeError (_new_position position neigh_direction);
  if in_grid env new_cell then
    let desired_movement_from_new_cell := (neigh_direction + 2) mod 4 in
    for_each (neighbors_by_orientation env new_cell target_nr current_distance
                                       desired_movement_from_new_cell)
             [0; 1; 2; 3] acc
  else Ok acc.

Definition _get_and_update_neighbors
  (self : TreeObs) (env : Env) (position : pos) (target_nr : Z)
  (current_distance : xnum) (enforce_target_direction : Z)
  : result (TreeObs * list node) :=
  let neighbors : list node := [] in
  acc ← for_each (neighbors_by_direction env position target_nr current_distance
                                          enforce_target_direction)
                 [0; 1; 2; 3] (distance_map self, neighbors);
  let possible_directions :=
    if 0 <=? enforce_target_direction
    then [(enforce_target_direction + 2) mod 4]
    else [0; 1; 2; 3] in
  '(dm, neighbors) ← for_each (neighbors_from env position target_nr current_distance)
                              possible_directions acc;
  Ok (set_distance_map dm self, neighbors).

(** *** [_distance_map_walker] *)

(** [while nodes_queue: ...], one unit of fuel per node taken off the queue. *)
Fixpoint walk_queue (fuel : nat) (self : TreeObs) (env : Env) (target_nr : Z)
  (nodes_queue : list node) (visited : gset (Z * Z * Z)) (max_distance : xnum)
  : result (TreeObs * xnum) :=
  match nodes_queue with
  | [] => Ok (self, max_distance)
  | n :: nodes_queue =>
      match fuel with
      | O => OutOfFuel
      | S fuel =>
          let '(n0, n1, n2, n3) := n in
          let node_id := (n0, n1, n2) in
          if bool_decide (node_id ∈ visited)
          then walk_queue fuel self env target_nr nodes_queue visited max_distance
          else
            let visited := {[node_id]} ∪ visited in
            '(self, valid_neighbors) ←
              _get_and_update_neighbors self env (n0, n1) target_nr n3 n2;
            let nodes_queue := nodes_queue ++ valid_neighbors in
            let max_distance :=
              if (0 <? length valid_neighbors)%nat
              then xmax max_distance (xsucc n3)
              else max_distance in
            walk_queue fuel self env target_nr nodes_queue visited max_distance
      end
  end.

Definition _distance_map_walker (fuel : nat) (self : TreeObs) (env : Env)
  (position : pos) (target_nr : Z) : result (TreeObs * xnum) :=
  dm ← for_each (fun ori dm => dm_set dm target_nr position.1 position.2 ori (Fin 0))
                [0; 1; 2; 3] (distance_map self);
  let self := set_distance_map dm self in
  '(self, nodes_queue) ←
    _get_and_update_neighbors self env position target_nr (Fin 0) (-1);
  let visited : gset (Z * Z * Z) :=
    {[ (position.1, position.2, 0); (position.1, position.2, 1);
       (position.1, position.2, 2); (position.1, position.2, 3) ]} in
  let max_distance := Fin 0 in
  walk_queue fuel self env target_nr nodes_queue visited max_distance.

(** *** [reset] *)

Definition reset (fuel : nat) (self : TreeObs) (env : Env) : result TreeObs :=
  let self :=
    set_distance_map
      (replicate (number_of_agents env)
         (replicate (Z.to_nat (height env))
            (replicate (Z.to_nat (width env)) (replicate 4 PosInf))))
      self in
  let self := set_max_dist (replicate (number_of_agents env) (Fin 0)) self in
  self ← for_each
           (fun i self =>
              target ← getitem (agents_target env) (Z.of_nat i);
              '(self, d) ← _distance_map_walker fuel self env target (Z.of_nat i);
              m ← setitem (max_dist self) (Z.of_nat i) d;
              Ok (set_max_dist m self))
           (seq 0 (number_of_agents env)) self;
  Ok (set_location_has_target (list_to_set (agents_target env)) self).

(** *** [_explore_branch] *)

(** What the [while exploring] loop leaves behind. *)
Record walk_end := {
  end_position : pos;
  end_direction : Z;
  last_isSwitch : bool;
  last_isDeadEnd : bool;
  last_isTarget : bool;
  other_agent_encountered : bool;
  other_target_encountered : bool
}.

(** [for i in range(4): if cell_transitions[i]: ...; break]: the first exit. *)
Fixpoint first_exit (cell_transitions : list bool) (i : Z) : option Z :=
  match cell_transitions with
  | [] => None
  | true :: _ => Some i
  | false :: l => first_exit l (i + 1)
  end.

(** The loop [while exploring], one unit of fuel per cell visited. *)
Fixpoint walk (fuel : nat) (self : TreeObs) (env : Env) (handle : Z)
  (position : pos) (direction : Z)
  (other_agent_encountered other_target_encountered : bool) : result walk_end :=
  match fuel with
  | O => OutOfFuel
  | S fuel =>
      let other_agent_encountered :=
        if bool_decide (position ∈ location_has_agent self)
        then true else other_agent_encountered in
      let other_target_encountered :=
        if bool_decide (position ∈ location_has_target self)
        then true else other_target_encountered in
      target ← getitem (agents_target env) handle;
      if (position.1 =? target.1) && (position.2 =? target.2) then
        Ok {| end_position := position; end_direction := direction;
              last_isSwitch := false; last_isDeadEnd := false; last_isTarget := true;
              other_agent_encountered := other_agent_encountered;
              other_target_encountered := other_target_encountered |}
      else
        let cell_transitions := get_transitions (rail env) position direction in
        let num_transitions := count_nonzero cell_transitions in
        if num_transitions =? 1 then
          if nbits (get_cell_transitions (rail env) position) =? 1 then
            Ok {| end_position := position; end_direction := direction;
                  last_isSwitch := false; last_isDeadEnd := true; last_isTarget := false;
                  other_agent_encountered := other_agent_encountered;
                  other_target_encountered := other_target_encountered |}
          else
            match first_exit cell_transitions 0 with
            | Some i =>
                position ← of_option TypeError (_new_position position i);
                walk fuel self env handle position i
                     other_agent_encountered other_target_encountered
            | None =>
                walk fuel self env handle position direction
                     other_agent_encountered other_target_encountered
            end
        else if 0 <? num_transitions then
          Ok {| end_position := position; end_direction := direction;
                last_isSwitch := true; last_isDeadEnd := false; last_isTarget := false;
                other_agent_encountered := other_agent_encountered;
                other_target_encountered := other_target_encountered |}
        else
          Ok {| end_position := position; end_direction := direction;
                last_isSwitch := false; last_isDeadEnd := false; last_isTarget := false;
                other_agent_encountered := other_agent_encountered;
                other_target_encountered := other_target_encountered |}
  end.

(** [num_cells_to_fill_in = 0; pow4 = 1;
     for i in range(k): num_cells_to_fill_in += pow4; pow4 *= 4] *)
Definition num_cells_to_fill_in (k : nat) : nat :=
  (Nat.iter k (fun '(num, pow4) => (num + pow4, pow4 * 4)%nat) (0, 1)%nat).1.

(** [[-np.inf, -np.inf, -np.inf, -np.inf, -np.inf] * n] *)
Definition padding (n : nat) : list xnum :=
  mjoin (replicate n [NegInf; NegInf; NegInf; NegInf; NegInf]).

(** [[(direction + 4 + i) % 4 for i in range(-1, 3)]] *)
Definition branch_directions (direction : Z) : list Z :=
  (fun i => (direction + 4 + i) mod 4) <$> [-1; 0; 1; 2].

(** [_explore_branch].  The recursion goes one level deeper per call and
    stops at [depth >= max_depth + 1]; [levels] counts the calls that may
    still be nested, and [get] starts it at [max_depth + 1]. *)
Fixpoint _explore_branch (levels fuel : nat) (self : TreeObs) (env : Env)
  (handle : Z) (position : pos) (direction : Z) (depth : nat) : result (list xnum) :=
  if (max_depth self + 1 <=? depth)%nat then Ok []
  else
    match levels with
    | O => OutOfFuel
    | S levels =>
        w ← walk fuel self env handle position direction false false;
        let position := end_position w in
        let direction := end_direction w in
        observation ←
          (if last_isTarget w then
             Ok [Fin 0;
                 if other_target_encountered w then Fin 1 else Fin 0;
                 if other_agent_encountered w then Fin 1 else Fin 0;
                 Fin 0;
                 Fin 0]
           else
             d ← dm_get (distance_map self) handle position.1 position.2 direction;
             Ok [Fin 0;
                 if other_target_encountered w then Fin 1 else Fin 0;
                 if other_agent_encountered w then Fin 1 else Fin 0;
                 Fin 0;
                 d]);
        for_each
          (fun branch_direction observation =>
             if last_isDeadEnd w
                && get_transition (rail env) position direction
                                  ((branch_direction + 2) mod 4)
             then
               new_cell ← of_option TypeError
                            (_new_position position ((branch_direction + 2) mod 4));
               branch_observation ←
                 _explore_branch levels fuel self env handle new_cell
                                 ((branch_direction + 2) mod 4) (depth + 1);
               Ok (observation ++ branch_observation)
             else if last_isSwitch w
                     && get_transition (rail env) position direction branch_direction
             then
               new_cell ← of_option TypeError (_new_position position branch_direction);
               branch_observation ←
                 _explore_branch levels fuel self env handle new_cell
                                 branch_direction (depth + 1);
               Ok (observation ++ branch_observation)
             else
               Ok (observation
                     ++ padding (num_cells_to_fill_in (max_depth self - depth))))
          (branch_directions direction) observation
    end.

(** *** [get] *)

(** [get] rebuilds [location_has_agent] and returns the observation; the
    builder is returned with it. *)
Definition get (fuel : nat) (self : TreeObs) (env : Env) (handle : Z)
  : result (TreeObs * list xnum) :=
  let self := set_location_has_agent (list_to_set (agents_position env)) self in
  position ← getitem (agents_position env) handle;
  orientation ← getitem (agents_direction env) handle;
  d ← dm_get (distance_map self) handle position.1 position.2 orientation;
  let observation := [Fin 0; Fin 0; Fin 0; Fin 0; d] in
  observation ←
    for_each
      (fun branch_direction observation =>
         if get_transition (rail env) position orientation branch_direction then
           new_cell ← of_option TypeError (_new_position position branch_direction);
           branch_observation ←
             _explore_branch (max_depth self + 1) fuel self env handle new_cell
                             branch_direction 1;
           Ok (observation ++ branch_observation)
         else
           Ok (observation ++ padding (num_cells_to_fill_in (max_depth self))))
      (branch_directions orientation) observation;
  Ok (self, observation).

(** *** [util_print_obs_subtree] *)

(** One call of [print]: the text ["  " * current_depth + prompt] and the
    slice [tree[0:num_features_per_node]] printed after it. *)
Record printed := {
  printed_text : string;
  printed_features : list xnum
}.

(** What a call leaves on the output, or how it ends otherwise.  The
    division by [num_features_per_node] is the only operation of the
    function that can raise. *)
Inductive print_result :=
  | Printed (lines : list printed)
  | ZeroDivisionError
  | PrintOutOfFuel.

(** ["  " * n] *)
Fixpoint indent (n : nat) : string :=
  match n with
  | O => ""
  | S n => "  " +:+ indent n
  end.

(** [tree[a:b]] for [0 <= a] and [0 <= b]. *)
Definition slice {A} (tree : list A) (a b : nat) : list A :=
  take (b - a) (drop a tree).

(** [util_print_obs_subtree], with [num_features_per_node] and
    [current_depth] natural numbers.  The local [depth], which the loop
    [while tmp > 0] computes from [len(tree)/num_features_per_node - 1], is
    never read and is left out; that loop ends, since [pow4] grows.  Every
    nested call gets a strictly shorter slice and takes one unit of fuel. *)
Fixpoint util_print_obs_subtree (fuel : nat) (tree : list xnum)
  (num_features_per_node : nat) (prompt : string) (current_depth : nat)
  : print_result :=
  if (length tree <? num_features_per_node)%nat then Printed []
  else if (num_features_per_node =? 0)%nat then ZeroDivisionError
  else
    match fuel with
    | O => PrintOutOfFuel
    | S fuel =>
        let prompt_ := ["L:"; "F:"; "R:"; "B:"] in
        let out :=
          [{| printed_text := indent current_depth +:+ prompt;
              printed_features := slice tree 0 num_features_per_node |}] in
        let child_size := ((length tree - num_features_per_node) / 4)%nat in
        foldl
          (fun acc children =>
             match acc with
             | Printed out =>
                 let child_tree :=
                   slice tree
                         (num_features_per_node + children * child_size)%nat
                         (num_features_per_node + (children + 1) * child_size)%nat in
                 match util_print_obs_subtree fuel child_tree num_features_per_node
                         (default "" (prompt_ !! children)) (current_depth + 1) with
                 | Printed lines => Printed (out ++ lines)
                 | r => r
                 end
             | r => r
             end)
          (Printed out) [0; 1; 2; 3]%nat
    end.

(** The output of a call followed by that of the next call. *)
Definition then_print (acc r : print_result) : print_result :=
  match acc with
  | Printed out =>
      match r with
      | Printed lines => Printed (out ++ lines)
      | ZeroDivisionError => ZeroDivisionError
      | PrintOutOfFuel => PrintOutOfFuel
      end
  | _ => acc
  end.

(** *** Conditions under which [get] returns *)

(** The builder as [get] leaves it: [location_has_agent] rebuilt. *)
Definition refreshed (self : TreeObs) (env : Env) : TreeObs :=
  set_location_has_agent (list_to_set (agents_position env)) self.

(** No transition of a cell of the grid leads off the grid. *)
Definition rail_stays_in_grid (env : Env) : Prop :=
  forall p o d q,
    in_grid env p = true -> get_transition (rail env) p o d = true ->
    _new_position p d = Some q -> in_grid env q = true.

(** The distance map has an entry for every state of the grid. *)
Definition distance_map_covers (self : TreeObs) (env : Env) (handle : Z) : Prop :=
  forall p o, in_grid env p = true -> 0 <= o < 4 ->
    exists d, dm_get (distance_map self) handle p.1 p.2 o = Ok d.

(** The agent [handle] exists and stands on the grid with one of the four
    headings. *)
Definition agent_on_grid (env : Env) (handle : Z) : Prop :=
  exists p o t,
    getitem (agents_position env) handle = Ok p /\
    getitem (agents_direction env) handle = Ok o /\
    getitem (agents_target env) handle = Ok t /\
    in_grid env p = true /\ 0 <= o < 4.

(** Every corridor walk started on the grid ends within [fuel] cells: at
    the agent's target, a dead end, a switch or a cell without exit. *)
Definition corridors_end (fuel : nat) (self : TreeObs) (env : Env) (handle : Z) : Prop :=
  forall p d, in_grid env p = true -> 0 <= d < 4 ->
    walk fuel (refreshed self env) env handle p d false false <> OutOfFuel.

(** *** Conditions under which the walker raises *)

(** [position] has, against [direction], a neighbour on the grid with a
    transition toward it: the test of the first loop. *)
Definition has_predecessor (env : Env) (position : pos) (direction : Z) : bool :=
  match _new_position position ((direction + 2) mod 4) with
  | Some new_cell =>
      in_grid env new_cell
      && existsb (fun orientation =>
                    tuple_item (get_transitions (rail env) new_cell orientation) direction)
                 [0; 1; 2; 3]
  | None => false
  end.

(** The distance map has a row of at least two entries for every cell of
    the grid (it has four, by its shape). *)
Definition rows_over_grid (dm : ndarray4) (env : Env) (target_nr : Z) : Prop :=
  forall cell, in_grid env cell = true ->
    exists x y l, dm_row dm target_nr cell.1 cell.2 = Ok (x :: y :: l).

(** *** Conditions under which the walker returns *)

(** The distance map has a row of four entries for each of the first [n]
    agents and every cell of the grid, as [reset] allocates it. *)
Definition rows_of_four (dm : ndarray4) (env : Env) (n : nat) : Prop :=
  forall a cell, 0 <= a < Z.of_nat n -> in_grid env cell = true ->
    exists row, dm_row dm a cell.1 cell.2 = Ok row /\ length row = 4%nat.

(** The row of agent [a] at a cell with non-negative coordinates. *)
Definition row_at (dm : list (list (list (list xnum)))) (a r c : Z)
  : option (list xnum) :=
  plane ← dm !! Z.to_nat a; line ← plane !! Z.to_nat r; line !! Z.to_nat c.

(** The body of the loop of [reset]. *)
Definition reset_agent (fuel : nat) (env : Env) (i : nat) (self : TreeObs)
  : result TreeObs :=
  target ← getitem (agents_target env) (Z.of_nat i);
  '(self, d) ← _distance_map_walker fuel self env target (Z.of_nat i);
  m ← setitem (max_dist self) (Z.of_nat i) d;
  Ok (set_max_dist m self).

(** Some cell of the grid next to [position] has a transition into it. *)
Definition target_reachable (env : Env) (position : pos) : bool :=
  existsb (has_predecessor env position) [0; 1; 2; 3].

(** Every agent's target is a cell of the grid. *)
Definition targets_on_grid (env : Env) : Prop :=
  forall i, (i < number_of_agents env)%nat ->
    exists t, agents_target env !! i = Some t /\ in_grid env t = true.

(** One subtree of the observation [get] returns, for the branch direction
    [bd] of an agent at [p] heading [o]. *)
Definition subtree_of (fuel : nat) (self : TreeObs) (env : Env) (handle : Z)
  (p : pos) (o : Z) (bd : Z) (b : list xnum) : Prop :=
  if get_transition (rail env) p o bd
  then exists q, _new_position p bd = Some q /\
         _explore_branch (max_depth self + 1) fuel self env handle q bd 1 = Ok b
  else b = padding (num_cells_to_fill_in (max_depth self)).

(** *** Conditions under which the corridor walk ends *)

(** The step the loop [while exploring] takes from a cell that is neither
    the agent's target, nor a dead end, nor a switch: along the single exit
    of the cell for the heading. *)
Definition corridor_next (env : Env) (target : pos) (position : pos) (direction : Z)
  : option (pos * Z) :=
  if (position.1 =? target.1) && (position.2 =? target.2) then None
  else
    let cell_transitions := get_transitions (rail env) position direction in
    if count_nonzero cell_transitions =? 1 then
      if nbits (get_cell_transitions (rail env) position) =? 1 then None
      else
        match first_exit cell_transitions 0 with
        | Some i => q ← _new_position position i; Some (q, i)
        | None => Some (position, direction)
        end
    else None.

(** No corridor of the rail is closed: [rank] decreases along every step
    of a corridor walk toward the target of agent [handle]. *)
Definition corridors_descend (env : Env) (handle : Z) (rank : pos -> Z -> nat) : Prop :=
  forall t p d q i,
    getitem (agents_target env) handle = Ok t ->
    in_grid env p = true -> 0 <= d < 4 ->
    corridor_next env t p d = Some (q, i) -> (rank q i < rank p d)%nat.

End TreeObsForRailEnv.

(** The builder's view of a [RailEnv]: the lists [agents_position],
    [agents_direction] and [agents_target] hold the attributes of its
    agents. *)
Definition env_of (e : RailEnv) : TreeObsForRailEnv.Env :=
  {| TreeObsForRailEnv.number_of_agents := length (agents e);
     TreeObsForRailEnv.height := height e;
     TreeObsForRailEnv.width := width e;
     TreeObsForRailEnv.rail := rail e;
     TreeObsForRailEnv.agents_position := position <$> agents e;
     TreeObsForRailEnv.agents_direction := direction <$> agents e;
     TreeObsForRailEnv.agents_target := target <$> agents e |}.

(** * Part II: vocabulary of the properties *)

(** ** One iteration of the agent loop *)

(** What one iteration does, read off [step_agent]. *)
Definition after_tick (iAgent : nat) (e0 : RailEnv) (t : EnvAgent * pynum * bool) : RailEnv :=
  let '(agent, reward, reached) := t in
  let e1 := set_agents (<[iAgent := agent]> (agents e0)) e0 in
  let e2 := set_rewards_dict (<[iAgent := reward]> (rewards_dict e1)) e1 in
  if reached then set_dones (<[iAgent := true]> (dones e2)) e2 else e2.

(** The agent either keeps its cell and heading, or it moves to the
    neighbour in its new heading along a legal transition into a cell that
    no agent of [e] occupies, and starts that cell at fraction 0. *)
Definition stays (a a' : EnvAgent) : Prop :=
  position a' = position a /\ direction a' = direction a.

Definition moves (e : RailEnv) (a a' : EnvAgent) : Prop :=
  position a' = get_new_position (position a) (direction a') /\
  0 <= direction a' < 4 /\
  position_fraction a' = 0%float /\
  get_transition (rail e) (position a) (direction a) (direction a') = true /\
  position a' ∉ position <$> agents e.

Definition tick_rel (e : RailEnv) (a a' : EnvAgent) : Prop :=
  target a' = target a /\ speed a' = speed a /\ (stays a a' \/ moves e a a').

(** The parts of the environment no iteration writes. *)
Definition same_setting (e e' : RailEnv) : Prop :=
  width e' = width e /\ height e' = height e /\ rail e' = rail e /\
  agents_static e' = agents_static e /\ dones_all e' = dones_all e /\
  length (agents e') = length (agents e).

(** What the environment holds for agent [i]. *)
Definition same_entry (i : nat) (e e' : RailEnv) : Prop :=
  agents e' !! i = agents e !! i /\ dones e' !! i = dones e !! i /\
  rewards_dict e' !! i = rewards_dict e !! i.

(** ** Completion, well-formedness, invalid actions *)

(** The attributes a finished agent must keep. *)
Definition same_dynamic (a a' : EnvAgent) : Prop :=
  position a' = position a /\ direction a' = direction a /\
  moving a' = moving a /\ position_fraction a' = position_fraction a.

Definition finished_as (i : nat) (a : EnvAgent) (e : RailEnv) : Prop :=
  dones e !! i = Some true /\
  exists a', agents e !! i = Some a' /\ same_dynamic a a'.

(** As [reset] and [set_full_state_msg] leave it: as many agents as static
    agents, and a done flag for every handle. *)
Definition well_formed (e : RailEnv) : Prop :=
  length (agents e) = length (agents_static e) /\
  forall i, (i < length (agents e))%nat -> is_Some (dones e !! i).

Definition ready (n : nat) (e : RailEnv) : Prop :=
  forall i, (i < n)%nat ->
    is_Some (agents e !! i) /\ is_Some (dones e !! i) /\ is_Some (rewards_dict e !! i).

(** The tick of this agent ends at one of the two [continue] statements of
    an invalid action (lines 276 and 283). *)
Definition ends_tick_as_invalid (e : RailEnv) (action : Z) (agent : EnvAgent) : bool :=
  let action := effective_action action agent in
  match select_action e action (stop_or_start action agent (PyInt 0)).1 with
  | None => true
  | Some _ => false
  end.

(** An agent that is not moving has a position fraction below 1. *)
Definition rests_at_boundary (a : EnvAgent) : Prop :=
  moving a = false -> PrimFloat.leb 1%float (position_fraction a) = false.

(** ** Invariants of the agent loop *)

(** The agent stands on a cell of the grid that has rail. *)
Definition on_rail (e : RailEnv) (a : EnvAgent) : Prop :=
  0 <= (position a).1 < height e /\ 0 <= (position a).2 < width e /\
  0 < get_cell_transitions (rail e) (position a).

(** An agent that is not moving is at the entry of its cell. *)
Definition stopped_at_entry (a : EnvAgent) : Prop :=
  moving a = false -> PrimFloat.eqb (position_fraction a) 0%float = true.

(** Every done flag that is set belongs to an agent on its target. *)
Definition dones_sound (e : RailEnv) : Prop :=
  forall i a, dones e !! i = Some true -> agents e !! i = Some a ->
              position a = target a.

(** ** The size of a quad-tree *)

(** [Σ_{i<k} 4^i], the number of nodes of a full quad-tree of [k] levels. *)
Definition nodes_below (k : nat) : nat := sum_list_with (fun i => 4 ^ i)%nat (seq 0 k).

(** [Σ_{i=0}^{d} 4^i] *)
Definition geometric_sum (d : nat) : nat := nodes_below (S d).

(** * Part III: example environments *)

(** Straight east-west rail: heading E exits E (bit 1*4+1), heading W exits
    W (bit 3*4+3). *)
Definition straight_EW : Z := 32800.
(** Dead end at the east end: heading E exits W (bit 1*4+3). *)
Definition dead_end_E : Z := 128.

(** Dead end at the west end: heading W exits E (bit 3*4+1). *)
Definition dead_end_W : Z := 8192.

(** Two cells that send a train back and forth (neither is a dead end:
    each has a second transition), and an empty third cell as target. *)
Definition bounce_W : Z := 8193.
Definition bounce_E : Z := 129.

(** A 1x3 corridor A-B-C. *)
Definition corridor : GridTransitionMap :=
  {| grid := [[straight_EW; straight_EW; straight_EW]] |}.

(** A 1x3 corridor closed by a dead end at C. *)
Definition siding : GridTransitionMap :=
  {| grid := [[straight_EW; straight_EW; dead_end_E]] |}.

(** A 1x3 track closed by a dead end on either side. *)
Definition shuttle : GridTransitionMap :=
  {| grid := [[dead_end_W; straight_EW; dead_end_E]] |}.

(** An agent as [reset] leaves it (position fraction 0.0, not moving), with
    speed 1. *)
Definition agent_at (p : pos) (d : Z) (t : pos) : EnvAgent :=
  {| position := p; direction := d; target := t; moving := false;
     position_fraction := 0%float; speed := 1%float;
     transition_action_on_cellexit := DO_NOTHING;
     old_direction := d; old_position := p |}.

Definition static_of (a : EnvAgent) : EnvAgentStatic :=
  {| static_position := position a; static_direction := direction a;
     static_target := target a; static_moving := moving a |}.

(** [dict.fromkeys(list(range(n)) + ["__all__"], False)] without ["__all__"]. *)
Definition fresh_dones (n : nat) : gmap nat bool :=
  foldl (fun d i => <[i := false]> d) ∅ (seq 0 n).

(** The environment as [reset] leaves it with the agents [l] on the rail
    [r]: every done flag and ["__all__"] are [False]. *)
Definition env_after_reset (r : GridTransitionMap) (h w : Z) (l : list EnvAgent) : RailEnv :=
  {| width := w; height := h; rail := r; agents := l;
     agents_static := static_of <$> l;
     dones := fresh_dones (length l); dones_all := false;
     rewards_dict := ∅ |}.

Definition one_train : RailEnv :=
  env_after_reset corridor 1 3 [agent_at (0, 0) 1 (0, 2)].

Definition two_trains : RailEnv :=
  env_after_reset corridor 1 3 [agent_at (0, 0) 1 (0, 2); agent_at (0, 1) 1 (0, 2)].

Definition forward_all (n : nat) : gmap nat Z :=
  foldl (fun d i => <[i := MOVE_FORWARD]> d) ∅ (seq 0 n).

(** A train at the east end of the corridor, heading east, bound west. *)
Definition blocked_train : RailEnv :=
  env_after_reset corridor 1 3 [agent_at (0, 2) 1 (0, 0)].

(** A train placed on its target. *)
Definition waiting_train : RailEnv :=
  env_after_reset corridor 1 3 [agent_at (0, 2) 1 (0, 2)].

(** A train in front of the dead end of the siding. *)
Definition siding_train : RailEnv :=
  env_after_reset siding 1 3 [agent_at (0, 2) 1 (0, 0)].

Definition shuttle_train : RailEnv :=
  env_after_reset shuttle 1 3 [agent_at (0, 0) 1 (0, 2)].

Definition loop_train : RailEnv :=
  env_after_reset {| grid := [[bounce_W; bounce_E; 0]] |} 1 3
                  [agent_at (0, 0) 3 (0, 2)].

(** The corridor one tick after its train was told to move forward. *)
Definition one_train_later : RailEnv :=
  match step one_train (forward_all 1) with
  | Ok e => e
  | _ => one_train
  end.

Definition moved_agent : EnvAgent :=
  {| position := (0, 1); direction := 1; target := (0, 2); moving := true;
     position_fraction := 0%float; speed := 1%float;
     transition_action_on_cellexit := MOVE_FORWARD;
     old_direction := 1; old_position := (0, 0) |}.

(** The corridor after its train has arrived: two moves forward. *)
Definition arrived_train : RailEnv :=
  match run_steps [forward_all 1; forward_all 1] one_train with
  | Ok e => e
  | _ => one_train
  end.

(** Two trains one tick later: the second has arrived and is done. *)
Definition two_trains_later : RailEnv :=
  match step two_trains (forward_all 2) with
  | Ok e => e
  | _ => two_trains
  end.

(** A builder of depth 2 with a distance map for the shuttle. *)
Definition shuttle_obs : TreeObsForRailEnv.TreeObs :=
  {| TreeObsForRailEnv.max_depth := 2;
     TreeObsForRailEnv.distance_map :=
       [[[ [PosInf; Fin 2; PosInf; Fin 4];
           [PosInf; Fin 1; PosInf; Fin 3];
           [Fin 0; Fin 0; Fin 0; Fin 0] ]]];
     TreeObsForRailEnv.max_dist := [Fin 4];
     TreeObsForRailEnv.location_has_target := {[ (0, 2) ]};
     TreeObsForRailEnv.location_has_agent := ∅ |}.

(** A ring of four curves, which a train rounds clockwise, and a third
    column without rail that holds the target:
    [(0,0)] joins east and south, [(0,1)] west and south, [(1,1)] north and
    west, [(1,0)] north and east. *)
Definition curve_ES : Z := 16386.
Definition curve_WS : Z := 72.
Definition curve_NW : Z := 2064.
Definition curve_NE : Z := 4608.

Definition ring : GridTransitionMap :=
  {| grid := [[curve_ES; curve_WS; 0]; [curve_NE; curve_NW; 0]] |}.

(** A train on the ring, heading north at [(0,0)], bound for [(0,2)]. *)
Definition ring_train : RailEnv :=
  env_after_reset ring 2 3 [agent_at (0, 0) 0 (0, 2)].

(** The builder as [TreeObsForRailEnv(max_depth)] leaves it: nothing but
    [max_depth] is set. *)
Definition new_builder (max_depth : nat) : TreeObsForRailEnv.TreeObs :=
  {| TreeObsForRailEnv.max_depth := max_depth;
     TreeObsForRailEnv.distance_map := [];
     TreeObsForRailEnv.max_dist := [];
     TreeObsForRailEnv.location_has_target := ∅;
     TreeObsForRailEnv.location_has_agent := ∅ |}.

(** The builder after [reset] on the ring: no cell leads into the target,
    so the distance map is [inf] but for the target's own entries. *)
Definition ring_builder (max_depth : nat) : TreeObsForRailEnv.TreeObs :=
  {| TreeObsForRailEnv.max_depth := max_depth;
     TreeObsForRailEnv.distance_map :=
       [[[ [PosInf; PosInf; PosInf; PosInf];
           [PosInf; PosInf; PosInf; PosInf];
           [Fin 0; Fin 0; Fin 0; Fin 0] ];
         [ [PosInf; PosInf; PosInf; PosInf];
           [PosInf; PosInf; PosInf; PosInf];
           [PosInf; PosInf; PosInf; PosInf] ]]];
     TreeObsForRailEnv.max_dist := [Fin 0];
     TreeObsForRailEnv.location_has_target := {[ (0, 2) ]};
     TreeObsForRailEnv.location_has_agent := ∅ |}.

(** A junction: a track between two dead ends with a switch in the middle,
    from which a spur runs south into a third dead end.  Heading east at the
    switch a train may go on east or turn south; heading west or north it
    leaves to the west. *)
Definition dead_end_S : Z := 256.
Definition switch_E : Z := 32872.

Definition junction : GridTransitionMap :=
  {| grid := [[dead_end_W; switch_E; dead_end_E]; [0; dead_end_S; 0]] |}.

(** A train at the west end of the junction, heading west, bound for the
    end of the spur. *)
Definition junction_train : RailEnv :=
  env_after_reset junction 2 3 [agent_at (0, 0) 3 (1, 1)].

(** A builder of depth 2 with a distance map for the junction. *)
Definition junction_obs : TreeObsForRailEnv.TreeObs :=
  {| TreeObsForRailEnv.max_depth := 2;
     TreeObsForRailEnv.distance_map :=
       [[[ [PosInf; PosInf; PosInf; Fin 3];
           [Fin 4; Fin 1; PosInf; Fin 5];
           [PosInf; Fin 3; PosInf; PosInf] ];
         [ [PosInf; PosInf; PosInf; PosInf];
           [Fin 0; Fin 0; Fin 0; Fin 0];
           [PosInf; PosInf; PosInf; PosInf] ]]];
     TreeObsForRailEnv.max_dist := [Fin 5];
     TreeObsForRailEnv.location_has_target := {[ (1, 1) ]};
     TreeObsForRailEnv.location_has_agent := ∅ |}.

(** A rank along the corridors of the junction: the switch, entered
    heading west or north, is one step from the west end. *)
Definition junction_rank (p : pos) (d : Z) : nat :=
  if pos_eqb p (0, 1) then 1 else 0.

(** * Part IV: proofs *)

(** ** Reasoning about [result] and loops *)

Lemma pos_eqb_eq p q : pos_eqb p q = true <-> p = q.
Proof.
  destruct p as [r c], q as [r' c']; unfold pos_eqb; simpl.
  rewrite andb_true_iff, !Z.eqb_eq. split; [intros [-> ->]; done | intros [= -> ->]; done].
Qed.

Lemma pos_eqb_refl p : pos_eqb p p = true.
Proof. by apply pos_eqb_eq. Qed.

Lemma bind_Ok {A B} (m : result A) (f : A -> result B) (b : B) :
  m ≫= f = Ok b -> exists a, m = Ok a /\ f a = Ok b.
Proof. destruct m as [a| |]; simpl; [eauto | discriminate | discriminate]. Qed.

Lemma of_option_Ok {A} (x : exn) (o : option A) (a : A) :
  of_option x o = Ok a -> o = Some a.
Proof. destruct o; simpl; congruence. Qed.

Lemma ret_bind {A B} (a : A) (f : A -> result B) : Ok a ≫= f = f a.
Proof. reflexivity. Qed.

Lemma for_each_app {A S} (body : A -> S -> result S) (xs ys : list A) (s : S) :
  for_each body (xs ++ ys) s = for_each body xs s ≫= for_each body ys.
Proof.
  revert s; induction xs as [|x xs IH]; intros s; simpl; [done|].
  destruct (body x s) as [s1| |]; simpl; auto.
Qed.

(** An invariant of the loop body is an invariant of the loop. *)
Lemma for_each_inv {A S} (P : S -> Prop) (body : A -> S -> result S) xs :
  (forall x s s', x ∈ xs -> body x s = Ok s' -> P s -> P s') ->
  forall s s', for_each body xs s = Ok s' -> P s -> P s'.
Proof.
  induction xs as [|x xs IH]; intros Hbody s s' Hrun HP; simpl in Hrun.
  - congruence.
  - apply bind_Ok in Hrun as (s1 & H1 & H2).
    eapply IH; [ | exact H2 | ].
    + intros y t t' Hy. apply Hbody. by right.
    + eapply Hbody; [ | exact H1 | exact HP]. by left.
Qed.

Lemma for_each_total {A S} (P : S -> Prop) (body : A -> S -> result S) xs :
  (forall x s, x ∈ xs -> P s -> exists s', body x s = Ok s' /\ P s') ->
  forall s, P s -> exists s', for_each body xs s = Ok s' /\ P s'.
Proof.
  induction xs as [|x xs IH]; intros Hbody s HP; simpl.
  - by exists s.
  - destruct (Hbody x s) as (s1 & H1 & HP1); [by left | done |].
    rewrite H1. simpl. apply IH; [| done].
    intros y t Hy. apply Hbody. by right.
Qed.

Lemma for_each_returns {A S} (body : A -> S -> result S) xs :
  (forall x s, x ∈ xs -> exists s', body x s = Ok s') ->
  forall s, exists s', for_each body xs s = Ok s'.
Proof.
  intros Hbody s.
  destruct (for_each_total (fun _ : S => True) body xs) with (s := s) as (s' & Hs' & _);
    [ | done | by exists s'].
  intros x t Hx _. destruct (Hbody x t Hx) as [t' Ht']. by exists t'.
Qed.

(** [step] reads the action dictionary through [supplied_action] only. *)
Lemma for_each_ext {A S} (f g : A -> S -> result S) xs :
  (forall x s, f x s = g x s) -> forall s, for_each f xs s = for_each g xs s.
Proof.
  intros Hfg. induction xs as [|x xs IH]; intros s; simpl; [done|].
  rewrite Hfg. destruct (g x s); simpl; auto.
Qed.

(** A loop whose body appends [c] entries appends [c] per iteration. *)
Lemma for_each_length {A B} (body : A -> list B -> result (list B)) (c : nat) xs :
  (forall x l l', body x l = Ok l' -> length l' = (length l + c)%nat) ->
  forall l l', for_each body xs l = Ok l' ->
               length l' = (length l + c * length xs)%nat.
Proof.
  intros Hbody. induction xs as [|x xs IH]; intros l l' H; simpl in H.
  - injection H as <-. simpl. lia.
  - apply bind_Ok in H as (l1 & H1 & H2).
    apply Hbody in H1. apply IH in H2. simpl. lia.
Qed.

(** ** What a tick can do to one agent *)

Lemma step_agent_Ok acts i e e' :
  step_agent acts i e = Ok e' ->
  exists (a : EnvAgent) (d : bool), agents e !! i = Some a /\ dones e !! i = Some d /\
    let e0 := set_agents (<[i := set_old a]> (agents e)) e in
    if d then e' = e0
    else exists r, rewards_dict e !! i = Some r /\
         e' = after_tick i e0 (agent_tick e0 (supplied_action acts i) (set_old a) r).
Proof.
  unfold step_agent. intros H.
  apply bind_Ok in H as (a & Ha & H). apply of_option_Ok in Ha.
  apply bind_Ok in H as (d & Hd & H). apply of_option_Ok in Hd. simpl in Hd.
  exists a, d. split; [done|]. split; [done|]. simpl.
  destruct d.
  - congruence.
  - apply bind_Ok in H as (r & Hr & H). apply of_option_Ok in Hr. simpl in Hr.
    exists r. split; [done|].
    unfold after_tick.
    destruct (agent_tick _ _ _ _) as [[a' r'] reached]. simpl in *.
    destruct reached; congruence.
Qed.

Lemma cell_free_iff (p : pos) (l : list EnvAgent) :
  existsb (fun agent2 => pos_eqb p (position agent2)) l = false <-> p ∉ position <$> l.
Proof.
  induction l as [|a l IH]; simpl.
  - split; [intros _; apply not_elem_of_nil | done].
  - rewrite orb_false_iff, IH, not_elem_of_cons. split.
    + intros [Hp Hl]. split; [| done]. intros ->. by rewrite pos_eqb_refl in Hp.
    + intros [Hp Hl]. split; [| done].
      destruct (pos_eqb p (position a)) eqn:E; [| done]. by apply pos_eqb_eq in E.
Qed.

Lemma get_new_position_neq p d : 0 <= d < 4 -> get_new_position p d <> p.
Proof.
  intros Hd. destruct p as [r c]. unfold get_new_position; simpl.
  assert (d = 0 \/ d = 1 \/ d = 2 \/ d = 3) as [-> | [-> | [-> | ->]]] by lia;
    simpl; intros [=]; lia.
Qed.

Lemma argmax_bounds (b0 b1 b2 b3 : bool) : 0 <= argmax [b0; b1; b2; b3] < 4.
Proof. destruct b0, b1, b2, b3; simpl; lia. Qed.

(** The direction [check_action] returns is one of the four, and when the
    transition is finally judged valid it is a transition of the map. *)
Lemma check_action_on_agent_sound e action a :
  let chk := _check_action_on_agent e action a in
  0 <= new_direction chk < 4 /\
  new_position chk = get_new_position (position a) (new_direction chk) /\
  (transition_isValid chk = true ->
   get_transition (rail e) (position a) (direction a) (new_direction chk) = true).
Proof.
  unfold _check_action_on_agent, check_action, get_transitions. simpl map.
  set (t := get_transition (rail e) (position a) (direction a)).
  assert (Hmod : forall x, 0 <= x mod 4 < 4) by (intros x; apply Z.mod_pos_bound; lia).
  destruct (action =? MOVE_FORWARD) eqn:Hf; simpl andb.
  - assert ((action =? MOVE_LEFT) = false) as -> by (apply Z.eqb_eq in Hf; subst; done).
    assert ((action =? MOVE_RIGHT) = false) as -> by (apply Z.eqb_eq in Hf; subst; done).
    destruct (t 0) eqn:H0, (t 1) eqn:H1, (t 2) eqn:H2, (t 3) eqn:H3; simpl;
      repeat split; try lia; try done; try apply Hmod.
  - destruct (action =? MOVE_LEFT), (action =? MOVE_RIGHT);
      repeat match goal with |- context [if ?c <=? 1 then _ else _] => destruct (c <=? 1) end;
      simpl; repeat split; try apply Hmod; try done.
Qed.

Lemma exit_cell_rel e a : tick_rel e a (exit_cell e a).
Proof.
  unfold exit_cell.
  destruct (PrimFloat.leb _ _); [| by repeat split; left].
  pose proof (check_action_on_agent_sound e (transition_action_on_cellexit a) a) as Hs.
  simpl in Hs. destruct Hs as (Hd & Hp & Ht).
  destruct (new_cell_isValid _ && transition_isValid _ && cell_isFree _) eqn:Hall;
    [| by repeat split; left].
  apply andb_true_iff in Hall as [Hall Hfree]. apply andb_true_iff in Hall as [_ Hvalid].
  repeat split; try done. right. unfold moves; simpl.
  repeat split; try done; try lia.
  - by apply Ht.
  - unfold _check_action_on_agent in Hfree |- *.
    destruct (check_action e a _) as [nd tv]. simpl in *.
    apply negb_true_iff in Hfree. by apply cell_free_iff.
Qed.

Lemma tick_rel_core e a a1 a' :
  position a1 = position a -> direction a1 = direction a ->
  target a1 = target a -> speed a1 = speed a ->
  tick_rel e a1 a' -> tick_rel e a a'.
Proof.
  unfold tick_rel, stays, moves. intros -> -> -> ->. done.
Qed.

Lemma tick_rel_refl e a a' :
  position a' = position a -> direction a' = direction a ->
  target a' = target a -> speed a' = speed a ->
  tick_rel e a a'.
Proof. intros. repeat split; try done. by left. Qed.

Lemma agent_tick_rel e action a r : tick_rel e a (agent_tick e action a r).1.1.
Proof.
  unfold agent_tick, select_action, stop_or_start, effective_action.
  Opaque exit_cell.
  repeat (case_match; simplify_eq; simpl in * ).
  all: try (apply tick_rel_refl; done).
  all: try (eapply tick_rel_core; [ | | | | apply exit_cell_rel]; done).
  Transparent exit_cell.
Qed.

(** ** Frame properties of the agent loop *)

Lemma same_setting_refl e : same_setting e e.
Proof. by repeat split. Qed.

Lemma same_setting_trans e1 e2 e3 :
  same_setting e1 e2 -> same_setting e2 e3 -> same_setting e1 e3.
Proof. unfold same_setting. intuition congruence. Qed.

Lemma same_entry_trans i e1 e2 e3 :
  same_entry i e1 e2 -> same_entry i e2 e3 -> same_entry i e1 e3.
Proof. unfold same_entry. intuition congruence. Qed.

Lemma after_tick_setting i e t : same_setting e (after_tick i e t).
Proof.
  destruct t as [[a r] reached]. unfold after_tick, same_setting.
  destruct reached; simpl; rewrite ?length_insert; done.
Qed.

Lemma after_tick_other i j e t : j <> i -> same_entry j e (after_tick i e t).
Proof.
  intros Hne. destruct t as [[a r] reached]. unfold after_tick, same_entry.
  destruct reached; simpl;
    rewrite ?list_lookup_insert_ne, ?lookup_insert_ne by done; done.
Qed.

Lemma step_agent_setting acts i e e' :
  step_agent acts i e = Ok e' -> same_setting e e'.
Proof.
  intros H. apply step_agent_Ok in H as (a & d & Ha & Hd & H). simpl in H.
  destruct d.
  - subst e'. unfold same_setting; simpl. rewrite length_insert. done.
  - destruct H as (r & Hr & ->).
    eapply same_setting_trans; [| apply after_tick_setting].
    unfold same_setting; simpl. rewrite length_insert. done.
Qed.

Lemma step_agent_other acts i j e e' :
  j <> i -> step_agent acts i e = Ok e' -> same_entry j e e'.
Proof.
  intros Hne H. apply step_agent_Ok in H as (a & d & Ha & Hd & H). simpl in H.
  assert (same_entry j e (set_agents (<[i:=set_old a]> (agents e)) e)) as H0.
  { unfold same_entry; simpl. rewrite list_lookup_insert_ne by done. done. }
  destruct d.
  - by subst e'.
  - destruct H as (r & Hr & ->).
    eapply same_entry_trans; [exact H0 | by apply after_tick_other].
Qed.

Lemma loop_setting acts l e e' :
  for_each (step_agent acts) l e = Ok e' -> same_setting e e'.
Proof.
  intros H. eapply (for_each_inv (fun s => same_setting e s)); [ | exact H | apply same_setting_refl].
  intros x s s' _ Hs HP. eapply same_setting_trans; [exact HP|]. by eapply step_agent_setting.
Qed.

Lemma loop_other acts l i e e' :
  i ∉ l -> for_each (step_agent acts) l e = Ok e' -> same_entry i e e'.
Proof.
  intros Hi H.
  eapply (for_each_inv (fun s => same_entry i e s)); [ | exact H | by repeat split].
  intros x s s' Hx Hs HP. eapply same_entry_trans; [exact HP|].
  eapply step_agent_other; [| exact Hs]. intros ->. done.
Qed.

(** The loop over distinct handles runs the body once for a handle of the
    list, on an environment that still holds the agent's entry of the start,
    and leaves the entry alone afterwards. *)
Lemma loop_at acts l i e e' :
  NoDup l -> i ∈ l -> for_each (step_agent acts) l e = Ok e' ->
  exists l1 l2 e1 e2,
    l = l1 ++ i :: l2 /\
    for_each (step_agent acts) l1 e = Ok e1 /\
    step_agent acts i e1 = Ok e2 /\
    for_each (step_agent acts) l2 e2 = Ok e' /\
    same_entry i e e1 /\ same_entry i e2 e'.
Proof.
  intros Hnd Hi H.
  apply list_elem_of_split in Hi as (l1 & l2 & ->).
  apply NoDup_app in Hnd as (_ & Hdisj & Hnd2).
  apply NoDup_cons in Hnd2 as [Hi2 _].
  rewrite for_each_app in H. apply bind_Ok in H as (e1 & H1 & H). simpl in H.
  apply bind_Ok in H as (e2 & H2 & H3).
  exists l1, l2, e1, e2. do 4 (split; [done|]). split.
  - eapply loop_other; [| exact H1]. intros Hin. eapply Hdisj; [exact Hin|]. by left.
  - eapply loop_other; [| exact H3]. done.
Qed.

(** ** One iteration, seen from its own agent *)

Lemma positions_set_old (l : list EnvAgent) i a :
  l !! i = Some a -> position <$> <[i := set_old a]> l = position <$> l.
Proof.
  intros H. rewrite list_fmap_insert. apply list_insert_id.
  rewrite list_lookup_fmap, H. done.
Qed.

Lemma tick_rel_env e1 e2 a a' :
  rail e1 = rail e2 -> position <$> agents e1 = position <$> agents e2 ->
  tick_rel e1 a a' -> tick_rel e2 a a'.
Proof. unfold tick_rel, moves. intros -> ->. done. Qed.

(** The iteration for handle [i] replaces entry [i] of [agents] by an agent
    related to the old one by [tick_rel]. *)
Lemma step_agent_self acts i e e' :
  step_agent acts i e = Ok e' ->
  exists a a', agents e !! i = Some a /\ agents e' = <[i := a']> (agents e) /\
               tick_rel e a a'.
Proof.
  intros H. apply step_agent_Ok in H as (a & d & Ha & Hd & H). simpl in H.
  exists a. destruct d.
  - exists (set_old a). subst e'. simpl. split; [done|]. split; [done|].
    by apply tick_rel_refl.
  - destruct H as (r & Hr & ->).
    set (e0 := set_agents (<[i:=set_old a]> (agents e)) e).
    pose proof (agent_tick_rel e0 (supplied_action acts i) (set_old a) r) as Hrel.
    destruct (agent_tick e0 _ _ _) as [[a' r'] reached]. simpl in Hrel.
    exists a'. split; [done|]. split.
    + unfold after_tick. destruct reached; simpl; by rewrite list_insert_insert_eq.
    + eapply (tick_rel_core _ a (set_old a)); try done.
      eapply tick_rel_env; [ | | exact Hrel]; [done|].
      simpl. by apply positions_set_old.
Qed.

Lemma elem_of_insert_inv {A} (l : list A) i x y :
  y ∈ <[i := x]> l -> y = x \/ y ∈ l.
Proof.
  revert i; induction l as [|z l IH]; intros i; simpl; [by right|].
  destruct i as [|i]; simpl; rewrite !elem_of_cons.
  - intros [-> | H]; auto.
  - intros [-> | H]; [auto|]. apply IH in H as [-> | H]; auto.
Qed.

Lemma NoDup_insert_fresh {A} (l : list A) i x :
  NoDup l -> x ∉ l -> NoDup (<[i := x]> l).
Proof.
  revert i; induction l as [|z l IH]; intros i Hnd Hx; simpl; [done|].
  apply NoDup_cons in Hnd as [Hz Hnd]. apply not_elem_of_cons in Hx as [Hxz Hx].
  destruct i as [|i]; simpl; apply NoDup_cons.
  - done.
  - split; [| by apply IH]. intros Hin. apply elem_of_insert_inv in Hin as [-> | Hin]; done.
Qed.

Lemma step_agent_NoDup acts i e e' :
  step_agent acts i e = Ok e' ->
  NoDup (position <$> agents e) -> NoDup (position <$> agents e').
Proof.
  intros H Hnd. apply step_agent_self in H as (a & a' & Ha & -> & _ & _ & [Hs | Hm]).
  - destruct Hs as [Hp _]. rewrite list_fmap_insert, Hp, list_insert_id; [done|].
    by rewrite list_lookup_fmap, Ha.
  - destruct Hm as (_ & _ & _ & _ & Hfree).
    rewrite list_fmap_insert. by apply NoDup_insert_fresh.
Qed.

(** ** The examples are well-formed *)

Lemma fresh_dones_lookup n i :
  fresh_dones n !! i = if decide (i < n)%nat then Some false else None.
Proof.
  unfold fresh_dones. induction n as [|n IH].
  - change (foldl _ ∅ (seq 0 0)) with (∅ : gmap nat bool).
    rewrite lookup_empty. destruct (decide (i < 0)%nat); [lia | done].
  - rewrite seq_S, foldl_app. simpl.
    destruct (decide (i = n)) as [-> | Hne].
    + clear IH. rewrite lookup_insert_eq. destruct (decide (n < S n)%nat); [done | lia].
    + rewrite lookup_insert_ne by done. rewrite IH. clear IH.
      destruct (decide (i < n)%nat), (decide (i < S n)%nat); try done; lia.
Qed.

Lemma well_formed_after_reset r h w l : well_formed (env_after_reset r h w l).
Proof.
  split; simpl.
  - by rewrite length_fmap.
  - intros i Hi. rewrite fresh_dones_lookup.
    destruct (decide (i < length l)%nat); [done | lia].
Qed.

(** ** No double occupancy *)

(** C2 (no double occupancy).  If the agents occupy pairwise distinct cells
    before a call to [step], they occupy pairwise distinct cells after it. *)
Theorem step_no_double_occupancy (e : RailEnv) (action_dict : gmap nat Z) (e' : RailEnv) :
  NoDup (position <$> agents e) ->
  step e action_dict = Ok e' ->
  NoDup (position <$> agents e').
Proof.
  intros Hnd. unfold step.
  set (e0 := set_rewards_dict _ e).
  destruct (dones_all e0) eqn:Hall.
  - intros [= <-]. done.
  - intros H. apply bind_Ok in H as (e1 & Hloop & H).
    assert (NoDup (position <$> agents e1)) as H1.
    { eapply (for_each_inv (fun s => NoDup (position <$> agents s)));
        [ | exact Hloop | done].
      intros x s s' _ Hs. by eapply step_agent_NoDup. }
    destruct (all_at_target e1); injection H as <-; done.
Qed.

Lemma step_no_double_occupancy_witness :
  exists e', step two_trains (forward_all 2) = Ok e' /\
             (position <$> agents e') = [(0, 0); (0, 2)] /\
             NoDup (position <$> agents e').
Proof.
  eexists. split; [vm_compute; reflexivity|]. split; [vm_compute; reflexivity|].
  apply (step_no_double_occupancy two_trains (forward_all 2)).
  - vm_compute. apply NoDup_cons. split; [| apply NoDup_singleton].
    rewrite list_elem_of_singleton. discriminate.
  - vm_compute. reflexivity.
Defined.

(** ** Movement follows the transition map *)

Lemma reset_rewards_lookup n i :
  reset_rewards n !! i = if decide (i < n)%nat then Some (PyInt 0) else None.
Proof.
  unfold reset_rewards. induction n as [|n IH].
  - change (foldl _ ∅ (seq 0 0)) with (∅ : gmap nat pynum).
    rewrite lookup_empty. destruct (decide (i < 0)%nat); [lia | done].
  - rewrite seq_S, foldl_app. simpl.
    destruct (decide (i = n)) as [-> | Hne].
    + clear IH. rewrite lookup_insert_eq. destruct (decide (n < S n)%nat); [done | lia].
    + rewrite lookup_insert_ne by done. rewrite IH. clear IH.
      destruct (decide (i < n)%nat), (decide (i < S n)%nat); try done; lia.
Qed.

(** [step] either returns at once (episode over) or runs the loop and then
    the end-of-episode check, which touches rewards and ["__all__"] only. *)
Lemma step_Ok e acts e' :
  step e acts = Ok e' ->
  let e0 := set_rewards_dict (reset_rewards (get_num_agents e)) e in
  (dones_all e = true /\
   e' = set_rewards_dict ((fun r => py_add r global_reward) <$> rewards_dict e0) e0) \/
  (dones_all e = false /\
   exists e1, for_each (step_agent acts) (seq 0 (get_num_agents e)) e0 = Ok e1 /\
     agents e' = agents e1 /\ dones e' = dones e1 /\
     (if all_at_target e1
      then dones_all e' = true /\
           rewards_dict e' =
             (fun r => py_add (py_mul (PyInt 0) r) global_reward) <$> rewards_dict e1
      else e' = e1)).
Proof.
  unfold step. simpl.
  destruct (dones_all e) eqn:Hall.
  - intros [= <-]. by left.
  - intros H. apply bind_Ok in H as (e1 & Hloop & H). right. split; [done|].
    exists e1. split; [done|].
    destruct (all_at_target e1); injection H as <-; done.
Qed.

Lemma step_agent_rel e acts e' i a a' :
  step e acts = Ok e' -> agents e !! i = Some a -> agents e' !! i = Some a' ->
  a' = a \/ exists e1, rail e1 = rail e /\ tick_rel e1 a a'.
Proof.
  intros H Ha Ha'. apply step_Ok in H as [[_ ->] | (Hall & e1 & Hloop & Hag & _ & _)].
  - simpl in Ha'. left. congruence.
  - rewrite Hag in Ha'. clear Hag.
    destruct (decide (i ∈ seq 0 (get_num_agents e))) as [Hi | Hi].
    + apply (loop_at _ _ i) in Hloop as (l1 & l2 & s1 & s2 & _ & Hl1 & Hs & _ & He1 & He2);
        [ | apply NoDup_seq | done].
      right. exists s1. split.
      { apply loop_setting in Hl1 as (_ & _ & Hr & _). done. }
      apply step_agent_self in Hs as (b & b' & Hb & Hb' & Hrel).
      destruct He1 as (He1 & _), He2 as (He2 & _). simpl in He1.
      rewrite He1, Ha in Hb. injection Hb as <-.
      rewrite He2, Hb', list_lookup_insert_eq in Ha'.
      * injection Ha' as <-. done.
      * apply lookup_lt_Some with a. by rewrite He1.
    + left. apply (loop_other _ _ i) in Hloop as (He & _); [| done].
      simpl in He. congruence.
Qed.

(** C9 (movement is by legal transitions).  If an agent's position after a
    tick differs from its position before, then its position fraction is 0,
    its new position is the neighbour of the old one in the new direction,
    and the transition from the old position and direction to the new
    direction is one of the transition map; and its direction does not
    change in a tick in which its position does not change. *)
Theorem step_moves_along_transitions
  (e : RailEnv) (action_dict : gmap nat Z) (e' : RailEnv) (i : nat) (a a' : EnvAgent) :
  step e action_dict = Ok e' ->
  agents e !! i = Some a ->
  agents e' !! i = Some a' ->
  (position a' <> position a ->
     position_fraction a' = 0%float /\
     position a' = get_new_position (position a) (direction a') /\
     get_transition (rail e) (position a) (direction a) (direction a') = true) /\
  (position a' = position a -> direction a' = direction a).
Proof.
  intros H Ha Ha'.
  destruct (step_agent_rel _ _ _ _ _ _ H Ha Ha') as [-> | (e1 & Hr & _ & _ & [Hs | Hm])].
  - split; [intros Hne; by destruct Hne | done].
  - destruct Hs as [Hp Hd]. split; [intros Hne; by destruct Hne | done].
  - destruct Hm as (Hp & Hd & Hf & Ht & _). rewrite Hr in Ht. split; [done|].
    intros Hsame. rewrite Hp in Hsame. by apply get_new_position_neq in Hsame.
Qed.

Lemma step_moves_along_transitions_witness :
  position_fraction moved_agent = 0%float /\
  position moved_agent = get_new_position (0, 0) (direction moved_agent) /\
  get_transition corridor (0, 0) 1 (direction moved_agent) = true.
Proof.
  refine (proj1 (step_moves_along_transitions one_train (forward_all 1)
                   one_train_later 0%nat (agent_at (0, 0) 1 (0, 2)) moved_agent
                   _ _ _) _).
  - vm_compute. reflexivity.
  - reflexivity.
  - vm_compute. reflexivity.
  - vm_compute. discriminate.
Defined.

(** ** The episode is over *)

(** C7 (episode already over).  When ["__all__"] is set, [step] returns the
    reward [0 + global_reward] for every agent handle, and leaves the agents
    (position, direction, moving flag, position fraction) and all done flags
    as they were. *)
Theorem step_when_all_done (e : RailEnv) (action_dict : gmap nat Z) :
  dones_all e = true ->
  exists e', step e action_dict = Ok e' /\
    agents e' = agents e /\ dones e' = dones e /\ dones_all e' = true /\
    forall i, (i < get_num_agents e)%nat ->
      rewards_dict e' !! i = Some (py_add (PyInt 0) global_reward).
Proof.
  intros Hall. unfold step. simpl. rewrite Hall.
  eexists. split; [reflexivity|]. simpl. repeat split; try done.
  intros i Hi. rewrite lookup_fmap, reset_rewards_lookup.
  destruct (decide (i < get_num_agents e)%nat); [done | lia].
Qed.

Lemma step_when_all_done_witness :
  dones_all arrived_train = true /\
  exists e', step arrived_train (forward_all 1) = Ok e' /\
    agents e' = agents arrived_train /\ dones e' = dones arrived_train /\
    dones_all e' = true /\
    forall i, (i < get_num_agents arrived_train)%nat ->
      rewards_dict e' !! i = Some (py_add (PyInt 0) global_reward).
Proof.
  split; [vm_compute; reflexivity|].
  apply (step_when_all_done arrived_train (forward_all 1)).
  vm_compute. reflexivity.
Defined.

(** ** Completion is monotone *)

Lemma step_agent_finished acts j i a e e' :
  step_agent acts j e = Ok e' -> finished_as i a e -> finished_as i a e'.
Proof.
  intros H (Hd & a1 & Ha1 & Hsame).
  destruct (decide (i = j)) as [-> | Hne].
  - apply step_agent_Ok in H as (b & d & Hb & Hd' & H). simpl in H.
    rewrite Hd in Hd'. injection Hd' as <-. subst e'.
    rewrite Ha1 in Hb. injection Hb as <-.
    split; [done|]. exists (set_old a1). split; [| done]. simpl.
    apply list_lookup_insert_eq. by apply lookup_lt_Some with a1.
  - apply (step_agent_other _ _ i) in H as (Hag & Hdn & _); [| done].
    split; [congruence|]. exists a1. split; [congruence | done].
Qed.

Lemma step_finished e acts e' i a :
  step e acts = Ok e' -> finished_as i a e -> finished_as i a e'.
Proof.
  intros H Hfin. apply step_Ok in H as [[_ ->] | (_ & e1 & Hloop & Hag & Hdn & _)].
  - exact Hfin.
  - assert (finished_as i a e1) as (Hd & a1 & Ha1 & Hsame).
    { eapply (for_each_inv (finished_as i a)); [ | exact Hloop | exact Hfin].
      intros x s s' _ Hs. by eapply step_agent_finished. }
    split; [congruence|]. exists a1. split; [congruence | done].
Qed.

(** C8 (monotonic completion).  Once an agent's done flag is set, it stays
    set through every later [step] call of the episode, and these calls
    never change the agent's position, direction, moving flag or position
    fraction. *)
Theorem done_agent_is_frozen
  (e : RailEnv) (actions : list (gmap nat Z)) (e' : RailEnv) (i : nat) (a : EnvAgent) :
  dones e !! i = Some true ->
  agents e !! i = Some a ->
  run_steps actions e = Ok e' ->
  dones e' !! i = Some true /\
  exists a', agents e' !! i = Some a' /\
    position a' = position a /\ direction a' = direction a /\
    moving a' = moving a /\ position_fraction a' = position_fraction a.
Proof.
  intros Hd Ha Hrun.
  assert (finished_as i a e') as Hfin; [| exact Hfin].
  eapply (for_each_inv (finished_as i a)); [ | exact Hrun | ].
  - intros acts s s' _ Hs Hfin. simpl in Hs. eapply step_finished; [exact Hs | exact Hfin].
  - split; [done|]. exists a. by repeat split.
Qed.

Lemma done_agent_is_frozen_witness :
  dones two_trains_later !! 1%nat = Some true /\
  exists e' a,
    run_steps [forward_all 2; {[1%nat := MOVE_LEFT]}; forward_all 2] two_trains_later = Ok e' /\
    agents two_trains_later !! 1%nat = Some a /\
    dones e' !! 1%nat = Some true /\
    exists a', agents e' !! 1%nat = Some a' /\
      position a' = position a /\ direction a' = direction a /\
      moving a' = moving a /\ position_fraction a' = position_fraction a.
Proof.
  split; [vm_compute; reflexivity|].
  eexists. eexists.
  split; [vm_compute; reflexivity|]. split; [vm_compute; reflexivity|].
  apply (done_agent_is_frozen two_trains_later
           [forward_all 2; {[1%nat := MOVE_LEFT]}; forward_all 2] _ 1%nat _).
  - vm_compute. reflexivity.
  - vm_compute. reflexivity.
  - vm_compute. reflexivity.
Defined.

(** ** [step] returns on a well-formed environment *)

Lemma after_tick_ready n i e t : ready n e -> ready n (after_tick i e t).
Proof.
  intros Hr j Hj. destruct (Hr j Hj) as (Ha & Hd & Hw).
  destruct t as [[a r] reached]. unfold after_tick.
  destruct reached; simpl;
    rewrite ?list_lookup_insert_is_Some, ?lookup_insert_is_Some'; auto.
Qed.

Lemma step_agent_total acts n i e :
  (i < n)%nat -> ready n e ->
  exists e', step_agent acts i e = Ok e' /\ ready n e'.
Proof.
  intros Hi Hr. destruct (Hr i Hi) as ([a Ha] & [d Hd] & [r Hw]).
  assert (ready n (set_agents (<[i:=set_old a]> (agents e)) e)) as Hr0.
  { intros j Hj. destruct (Hr j Hj) as (Ha' & Hd' & Hw'). simpl.
    split; [| done]. by rewrite list_lookup_insert_is_Some. }
  unfold step_agent. rewrite Ha. simpl. rewrite Hd. simpl.
  destruct d.
  - eexists. split; [reflexivity | done].
  - rewrite Hw. simpl.
    set (e0 := set_agents _ e) in *.
    pose proof (after_tick_ready n i e0
                  (agent_tick e0 (supplied_action acts i) (set_old a) r) Hr0) as Hr1.
    unfold after_tick in Hr1.
    destruct (agent_tick e0 _ _ _) as [[a' r'] reached].
    eexists. split; [reflexivity|]. by destruct reached.
Qed.

Lemma step_total e acts : well_formed e -> exists e', step e acts = Ok e'.
Proof.
  intros [Hlen Hdn]. unfold step. cbv zeta.
  set (e0 := set_rewards_dict (reset_rewards (get_num_agents e)) e).
  change (dones_all e0) with (dones_all e).
  change (get_num_agents e0) with (get_num_agents e).
  destruct (dones_all e); [by eexists|].
  destruct (for_each_total (ready (get_num_agents e)) (step_agent acts)
              (seq 0 (get_num_agents e))) with (s := e0) as (e1 & H1 & _).
  - intros i s Hi Hs. apply step_agent_total; [| done].
    apply elem_of_seq in Hi. lia.
  - intros i Hi. unfold get_num_agents in Hi. simpl.
    rewrite reset_rewards_lookup. split; [| split].
    + apply lookup_lt_is_Some. lia.
    + apply Hdn. lia.
    + unfold get_num_agents. destruct (decide (i < length (agents_static e))%nat); [done | lia].
  - rewrite H1. simpl. by eexists.
Qed.

(** ** Well-formedness is kept, so an episode of any length runs *)




(** ** The tick of an agent that is not done *)

Lemma forallb_lookup_false {A} (f : A -> bool) (l : list A) i x :
  l !! i = Some x -> f x = false -> forallb f l = false.
Proof.
  revert i; induction l as [|y l IH]; intros i; [done|].
  destruct i as [|i]; simpl.
  - intros [= ->] ->. done.
  - intros Hx Hf. rewrite (IH i Hx Hf). apply andb_false_r.
Qed.

(** In a call that runs the loop, an agent that is not done is handed to
    [agent_tick] with reward 0, in an environment with the rail and the size
    of the start; the call returns that agent, sets its done flag if the tick
    reached the target, and returns the tick's reward unless the episode
    ends. *)
Lemma step_own_tick e acts e' i a :
  step e acts = Ok e' -> dones_all e = false -> (i < get_num_agents e)%nat ->
  agents e !! i = Some a -> dones e !! i = Some false ->
  exists e0 a' r' reached,
    (width e0 = width e /\ height e0 = height e /\ rail e0 = rail e) /\
    agent_tick e0 (supplied_action acts i) (set_old a) (PyInt 0) = (a', r', reached) /\
    agents e' !! i = Some a' /\
    (reached = true -> dones e' !! i = Some true) /\
    (reached = false -> dones e' !! i = Some false) /\
    (pos_eqb (position a') (target a') = false -> rewards_dict e' !! i = Some r').
Proof.
  intros H Hall Hi Ha Hd.
  apply step_Ok in H as [[Habs _] | (_ & e1 & Hloop & Hag & Hdn & Hfin)]; [congruence|].
  simpl in Hloop.
  apply (loop_at _ _ i) in Hloop as (l1 & l2 & s1 & s2 & _ & Hl1 & Hs & _ & He1 & He2);
    [ | apply NoDup_seq | apply elem_of_seq; lia].
  destruct He1 as (He1a & He1d & He1r). simpl in He1a, He1d, He1r.
  rewrite Ha in He1a. rewrite Hd in He1d.
  rewrite reset_rewards_lookup in He1r.
  destruct (decide (i < get_num_agents e)%nat); [| lia].
  apply loop_setting in Hl1 as (Hw & Hh & Hr & _). simpl in Hw, Hh, Hr.
  apply step_agent_Ok in Hs as (b & d & Hb & Hd' & Hs). simpl in Hs.
  rewrite He1a in Hb. injection Hb as <-.
  rewrite He1d in Hd'. injection Hd' as <-.
  destruct Hs as (r & Hr' & Hs2). rewrite He1r in Hr'. injection Hr' as <-.
  set (e0 := set_agents (<[i:=set_old a]> (agents s1)) s1) in *.
  destruct (agent_tick e0 (supplied_action acts i) (set_old a) (PyInt 0))
    as [[a' r'] reached] eqn:Htick.
  exists e0, a', r', reached. split; [done|]. split; [done|].
  destruct He2 as (He2a & He2d & He2r).
  assert (i < length (agents s1))%nat as Hlt by (by apply lookup_lt_Some with a).
  assert (agents e1 !! i = Some a') as Ha1.
  { rewrite He2a, Hs2. unfold after_tick.
    destruct reached; simpl; rewrite list_lookup_insert_eq; try done;
      by rewrite length_insert. }
  assert (rewards_dict e1 !! i = Some r') as Hr1.
  { rewrite He2r, Hs2. unfold after_tick.
    destruct reached; simpl; by rewrite lookup_insert_eq. }
  split; [congruence|]. split; [| split].
  - intros ->. rewrite Hdn, He2d, Hs2. unfold after_tick. simpl.
    by rewrite lookup_insert_eq.
  - intros ->. rewrite Hdn, He2d, Hs2. unfold after_tick. simpl. done.
  - intros Hpos.
    assert (all_at_target e1 = false) as Hnot.
    { unfold all_at_target. by eapply forallb_lookup_false. }
    rewrite Hnot in Hfin. subst e'. done.
Qed.

(** ** Agents at rest are at a cell boundary *)

Lemma eqb_zero_below_one (f : float) :
  PrimFloat.eqb f 0%float = true -> PrimFloat.leb 1%float f = false.
Proof.
  rewrite FloatAxioms.eqb_spec, FloatAxioms.leb_spec.
  replace (Prim2SF 0) with (S754_zero false) by (vm_compute; reflexivity).
  replace (Prim2SF 1) with (S754_finite false 4503599627370496 (-52))
    by (vm_compute; reflexivity).
  destruct (Prim2SF f) as [s| s | | s m e]; try discriminate; try reflexivity.
  - destruct s; discriminate.
  - unfold SFeqb, SFcompare. destruct s; discriminate.
Qed.

Lemma agent_tick_rests e action a r :
  rests_at_boundary a -> rests_at_boundary (agent_tick e action a r).1.1.
Proof.
  unfold rests_at_boundary, agent_tick, select_action, stop_or_start,
    effective_action, exit_cell.
  intros Hinv. destruct a as [p d t m f s x od op]. simpl in *.
  destruct m; [clear Hinv | specialize (Hinv eq_refl)];
    repeat (case_match; simplify_eq; simpl in * ); intros;
    rewrite ?andb_false_r, ?andb_true_r in *;
    try done; try congruence; try (by apply eqb_zero_below_one).
Qed.

Lemma step_agent_rests acts i e e' :
  step_agent acts i e = Ok e' ->
  Forall rests_at_boundary (agents e) -> Forall rests_at_boundary (agents e').
Proof.
  intros H Hall. apply step_agent_Ok in H as (a & d & Ha & Hd & H). simpl in H.
  assert (rests_at_boundary a) as Hra.
  { rewrite Forall_lookup in Hall. by eapply Hall. }
  assert (Forall rests_at_boundary (<[i:=set_old a]> (agents e))) as H0.
  { apply Forall_insert; [done|]. exact Hra. }
  destruct d.
  - by subst e'.
  - destruct H as (r & _ & ->).
    set (e0 := set_agents _ e) in *.
    pose proof (agent_tick_rests e0 (supplied_action acts i) (set_old a) r Hra) as Ht.
    unfold after_tick. destruct (agent_tick _ _ _ _) as [[a' r'] reached]. simpl in Ht.
    destruct reached; simpl; by apply Forall_insert.
Qed.

Lemma rests_at_start a : position_fraction a = 0%float -> rests_at_boundary a.
Proof. intros Hf _. rewrite Hf. reflexivity. Qed.

(** Every agent that [step] leaves at rest has a position fraction below 1,
    if that was so before; it is so after [reset], which sets all position
    fractions to 0. *)
Lemma step_rests e acts e' :
  step e acts = Ok e' ->
  Forall rests_at_boundary (agents e) -> Forall rests_at_boundary (agents e').
Proof.
  intros H Hall. apply step_Ok in H as [[_ ->] | (_ & e1 & Hloop & Hag & _ & _)].
  - exact Hall.
  - rewrite Hag.
    eapply (for_each_inv (fun s => Forall rests_at_boundary (agents s)));
      [ | exact Hloop | exact Hall].
    intros x s s' _ Hs. by eapply step_agent_rests.
Qed.

(** ** Agents waiting on their target *)

Lemma supplied_action_idle (acts : gmap nat Z) i :
  acts !! i = None \/ acts !! i = Some DO_NOTHING ->
  supplied_action acts i = DO_NOTHING.
Proof. unfold supplied_action. by intros [-> | ->]. Qed.

Lemma idle_tick_on_target e a r :
  moving a = false -> PrimFloat.leb 1%float (position_fraction a) = false ->
  position a = target a ->
  agent_tick e DO_NOTHING a r = (a, r, true).
Proof.
  intros Hm Hf Hp. destruct a as [p d t m f s x od op]. simpl in Hm, Hf, Hp. subst m p.
  unfold agent_tick, effective_action, stop_or_start, select_action, exit_cell. simpl.
  destruct (PrimFloat.eqb f 0); simpl; rewrite Hf; simpl; rewrite pos_eqb_refl; done.
Qed.

(** C10, amended.  In a call that finds the episode not yet over, an agent
    that stands on its target with its done flag unset, is at rest (not
    moving and, as every agent at rest in a state that [step] reaches from
    [reset], with a position fraction below 1: [step_rests]) and receives
    do-nothing or no action, is marked done in that call and keeps position,
    direction, moving flag and position fraction. *)
Theorem idle_agent_on_target_is_marked_done
  (e : RailEnv) (action_dict : gmap nat Z) (i : nat) (a : EnvAgent) :
  well_formed e ->
  dones_all e = false ->
  (i < get_num_agents e)%nat ->
  agents e !! i = Some a ->
  dones e !! i = Some false ->
  position a = target a ->
  moving a = false ->
  rests_at_boundary a ->
  action_dict !! i = None \/ action_dict !! i = Some DO_NOTHING ->
  exists e' a',
    step e action_dict = Ok e' /\ dones e' !! i = Some true /\
    agents e' !! i = Some a' /\
    position a' = position a /\ direction a' = direction a /\
    moving a' = moving a /\ position_fraction a' = position_fraction a.
Proof.
  intros Hwf Hall Hi Ha Hd Hp Hm Hf Hact. specialize (Hf Hm).
  destruct (step_total e action_dict Hwf) as [e' Hstep].
  destruct (step_own_tick _ _ _ _ _ Hstep Hall Hi Ha Hd)
    as (e0 & a' & r' & reached & _ & Htick & Ha' & Hdone & _).
  rewrite (supplied_action_idle _ _ Hact) in Htick.
  rewrite idle_tick_on_target in Htick by done.
  injection Htick as <- <- <-.
  exists e', (set_old a). repeat split; auto.
Qed.

Lemma idle_agent_on_target_is_marked_done_witness :
  exists e' a',
    step waiting_train ∅ = Ok e' /\ dones e' !! 0%nat = Some true /\
    agents e' !! 0%nat = Some a' /\
    position a' = (0, 2) /\ direction a' = 1 /\
    moving a' = false /\ position_fraction a' = 0%float.
Proof.
  apply (idle_agent_on_target_is_marked_done waiting_train ∅ 0%nat
           (agent_at (0, 2) 1 (0, 2))).
  - apply well_formed_after_reset.
  - reflexivity.
  - vm_compute. lia.
  - reflexivity.
  - reflexivity.
  - reflexivity.
  - reflexivity.
  - intros _. reflexivity.
  - left. reflexivity.
Defined.

(** C10, as stated, fails once the episode is over.  The train placed on
    its target is asked to turn left on straight rail; the tick ends as an
    invalid action before the done flag is set, the end-of-episode check
    sets ["__all__"], and from then on [step] returns at once: the agent
    stands on its target, at rest, flag unset, receives no action, and is
    not marked done. *)
Lemma idle_agent_on_target_counterexample :
  exists e1 a e2,
    step waiting_train {[0%nat := MOVE_LEFT]} = Ok e1 /\
    agents e1 !! 0%nat = Some a /\
    position a = target a /\ moving a = false /\
    position_fraction a = 0%float /\
    dones e1 !! 0%nat = Some false /\
    (∅ : gmap nat Z) !! 0%nat = None /\
    step e1 ∅ = Ok e2 /\
    dones e2 !! 0%nat = Some false.
Proof.
  eexists. eexists. eexists.
  split; [vm_compute; reflexivity|].
  repeat split; vm_compute; reflexivity.
Qed.

(** ** Step penalty *)

Lemma action_is_valid_ext e1 e2 a1 a2 action :
  width e1 = width e2 -> height e1 = height e2 -> rail e1 = rail e2 ->
  position a1 = position a2 -> direction a1 = direction a2 ->
  action_is_valid e1 action a1 = action_is_valid e2 action a2.
Proof.
  intros Hw Hh Hr Hp Hd.
  unfold action_is_valid, _check_action_on_agent, check_action.
  rewrite Hw, Hh, Hr, Hp, Hd.
  repeat match goal with
         | |- context [let '(_, _) := ?x in _] => destruct x
         end.
  reflexivity.
Qed.

Lemma stop_or_start_agent action a r :
  (stop_or_start action a r).1
  = set_moving (moving (stop_or_start action a r).1) a.
Proof.
  destruct a. unfold stop_or_start.
  repeat (case_match; simplify_eq; simpl in * ); done.
Qed.

Lemma stop_or_start_moving_ext action a1 a2 r1 r2 :
  moving a1 = moving a2 -> position_fraction a1 = position_fraction a2 ->
  moving (stop_or_start action a1 r1).1 = moving (stop_or_start action a2 r2).1.
Proof.
  intros Hm Hf. unfold stop_or_start. rewrite Hm, Hf.
  repeat (case_match; simplify_eq; simpl in * ); congruence.
Qed.

Lemma select_action_invalid_ext e1 e2 a1 a2 action :
  width e1 = width e2 -> height e1 = height e2 -> rail e1 = rail e2 ->
  position a1 = position a2 -> direction a1 = direction a2 ->
  moving a1 = moving a2 -> position_fraction a1 = position_fraction a2 ->
  select_action e1 action a1 = None <-> select_action e2 action a2 = None.
Proof.
  intros Hw Hh Hr Hp Hd Hm Hf. unfold select_action.
  rewrite Hm, Hf.
  rewrite (action_is_valid_ext e1 e2 a1 a2 action) by done.
  rewrite (action_is_valid_ext e1 e2 a1 a2 MOVE_FORWARD) by done.
  repeat case_match; done.
Qed.

Lemma ends_tick_as_invalid_ext e1 e2 a1 a2 action :
  width e1 = width e2 -> height e1 = height e2 -> rail e1 = rail e2 ->
  position a1 = position a2 -> direction a1 = direction a2 ->
  moving a1 = moving a2 -> position_fraction a1 = position_fraction a2 ->
  ends_tick_as_invalid e1 action a1 = ends_tick_as_invalid e2 action a2.
Proof.
  intros Hw Hh Hr Hp Hd Hm Hf.
  unfold ends_tick_as_invalid, effective_action. rewrite Hm.
  set (act := if (action =? DO_NOTHING) && moving a2 then MOVE_FORWARD else action).
  pose proof (select_action_invalid_ext e1 e2
                (stop_or_start act a1 (PyInt 0)).1
                (stop_or_start act a2 (PyInt 0)).1 act Hw Hh Hr) as Hiff.
  rewrite (stop_or_start_agent act a1), (stop_or_start_agent act a2) in Hiff.
  rewrite (stop_or_start_moving_ext act a1 a2 (PyInt 0) (PyInt 0) Hm Hf) in Hiff.
  specialize (Hiff Hp Hd eq_refl Hf).
  rewrite <- (stop_or_start_moving_ext act a1 a2 (PyInt 0) (PyInt 0) Hm Hf) in Hiff at 1.
  rewrite <- !stop_or_start_agent in Hiff.
  destruct (select_action e1 _ _), (select_action e2 _ _); try done.
  - destruct Hiff as [_ Hiff]. by specialize (Hiff eq_refl).
  - destruct Hiff as [Hiff _]. by specialize (Hiff eq_refl).
Qed.

(** A tick that does not end as invalid marks the agent done exactly when
    it stands on its target, and otherwise adds [step_penalty * speed] to a
    reward that is still 0. *)
Lemma valid_tick_outcome e action a a' r' reached :
  ends_tick_as_invalid e action a = false ->
  agent_tick e action a (PyInt 0) = (a', r', reached) ->
  reached = pos_eqb (position a') (target a') /\
  (reached = false ->
   r' = py_add (PyInt 0) (py_mul step_penalty (PyFloat (speed a')))).
Proof.
  unfold ends_tick_as_invalid, agent_tick.
  set (act := effective_action action a).
  assert ((stop_or_start act a (PyInt 0)).2 = PyInt 0) as Hrew.
  { unfold stop_or_start. repeat (case_match; simplify_eq; simpl in * ); done. }
  destruct (stop_or_start act a (PyInt 0)) as [a1 r1]. simpl in *. subst r1.
  destruct (select_action e act a1) as [[a2 sel]|]; [| done].
  intros _.
  match goal with |- context [exit_cell e ?x] => set (a3 := exit_cell e x) end.
  destruct (pos_eqb (position a3) (target a3)) eqn:Hpos; intros [= <- <- <-].
  - by rewrite Hpos.
  - rewrite Hpos. done.
Qed.

(** C5, amended.  In a call that finds the episode not yet over, every
    agent that is not done and whose tick is not ended by an invalid action
    is marked done if its position at the end of its processing is its
    target, and otherwise has as reward of the call the step penalty
    multiplied by its speed, added to 0. *)
Theorem step_penalty_unless_invalid
  (e : RailEnv) (action_dict : gmap nat Z) (i : nat) (a : EnvAgent) :
  well_formed e ->
  dones_all e = false ->
  (i < get_num_agents e)%nat ->
  agents e !! i = Some a ->
  dones e !! i = Some false ->
  ends_tick_as_invalid e (supplied_action action_dict i) a = false ->
  exists e' a',
    step e action_dict = Ok e' /\ agents e' !! i = Some a' /\ speed a' = speed a /\
    (position a' = target a' -> dones e' !! i = Some true) /\
    (position a' <> target a' ->
       dones e' !! i = Some false /\
       rewards_dict e' !! i
       = Some (py_add (PyInt 0) (py_mul step_penalty (PyFloat (speed a))))).
Proof.
  intros Hwf Hall Hi Ha Hd Hvalid.
  destruct (step_total e action_dict Hwf) as [e' Hstep].
  destruct (step_own_tick _ _ _ _ _ Hstep Hall Hi Ha Hd)
    as (e0 & a' & r' & reached & (Hw & Hh & Hr) & Htick & Ha' & Hdone & Hnot & Hrew).
  pose proof (agent_tick_rel e0 (supplied_action action_dict i) (set_old a) (PyInt 0)) as Hrel.
  rewrite Htick in Hrel. destruct Hrel as (_ & Hspeed & _). simpl in Hspeed.
  rewrite (ends_tick_as_invalid_ext e e0 a (set_old a)) in Hvalid by done.
  destruct (valid_tick_outcome _ _ _ _ _ _ Hvalid Htick) as [Hreached Hpen].
  exists e', a'. do 3 (split; [done|]). split.
  - intros Hp. apply Hdone. rewrite Hreached. by apply pos_eqb_eq.
  - intros Hp. assert (pos_eqb (position a') (target a') = false) as Hfalse.
    { destruct (pos_eqb _ _) eqn:E; [| done]. by apply pos_eqb_eq in E. }
    split; [apply Hnot; congruence|].
    rewrite Hrew by done. rewrite Hpen by congruence. by rewrite Hspeed.
Qed.

Lemma step_penalty_unless_invalid_witness :
  exists e' a',
    step one_train (forward_all 1) = Ok e' /\ agents e' !! 0%nat = Some a' /\
    speed a' = 1%float /\
    (position a' = target a' -> dones e' !! 0%nat = Some true) /\
    (position a' <> target a' ->
       dones e' !! 0%nat = Some false /\
       rewards_dict e' !! 0%nat
       = Some (py_add (PyInt 0) (py_mul step_penalty (PyFloat 1%float)))).
Proof.
  apply (step_penalty_unless_invalid one_train (forward_all 1) 0%nat
           (agent_at (0, 0) 1 (0, 2))).
  - apply well_formed_after_reset.
  - reflexivity.
  - vm_compute. lia.
  - reflexivity.
  - reflexivity.
  - vm_compute. reflexivity.
Defined.

(** C5, as stated, fails for an agent whose tick ends as an invalid
    action.  The train at the east end of the corridor, heading east, is
    told to move forward: the cell ahead is off the grid, the tick ends at
    [continue], and the agent, not done and not on its target, has reward 0
    for the call, not [step_penalty * speed]. *)
Lemma step_penalty_counterexample :
  exists e' a',
    dones_all blocked_train = false /\
    dones blocked_train !! 0%nat = Some false /\
    step blocked_train (forward_all 1) = Ok e' /\
    agents e' !! 0%nat = Some a' /\
    position a' <> target a' /\
    dones e' !! 0%nat = Some false /\
    rewards_dict e' !! 0%nat = Some (PyInt 0) /\
    py_add (PyInt 0) (py_mul step_penalty (PyFloat (speed a'))) = PyFloat (-1)%float /\
    rewards_dict e' !! 0%nat
      <> Some (py_add (PyInt 0) (py_mul step_penalty (PyFloat (speed a')))).
Proof.
  eexists. eexists.
  split; [reflexivity|]. split; [reflexivity|].
  split; [vm_compute; reflexivity|].
  split; [reflexivity|].
  split; [vm_compute; discriminate|].
  split; [reflexivity|]. split; [reflexivity|].
  split; [vm_compute; reflexivity|].
  vm_compute. discriminate.
Qed.

(** ** Dead ends *)

Lemma nbits_pos_pos p : 1 <= nbits_pos p.
Proof. induction p; simpl; lia. Qed.

(** A mask counted as one bit by the [nbits] loop has one bit. *)
Lemma nbits_one_unique m i j :
  nbits m = 1 -> Z.testbit m i = true -> Z.testbit m j = true -> i = j.
Proof.
  destruct m as [|p|p]; simpl; try lia. revert i j.
  induction p as [p IH|p IH|]; simpl; intros i j Hn Hi Hj.
  - pose proof (nbits_pos_pos p). lia.
  - destruct (Z.ltb_spec i 0) as [Hi0|Hi0]; [by rewrite Z.testbit_neg_r in Hi|].
    destruct (Z.ltb_spec j 0) as [Hj0|Hj0]; [by rewrite Z.testbit_neg_r in Hj|].
    change (Z.pos p~0) with (2 * Z.pos p) in Hi, Hj.
    destruct (Z.eq_dec i 0) as [-> | Hi1]; [by rewrite Z.testbit_even_0 in Hi|].
    destruct (Z.eq_dec j 0) as [-> | Hj1]; [by rewrite Z.testbit_even_0 in Hj|].
    replace i with (Z.succ (i - 1)) in Hi by lia.
    replace j with (Z.succ (j - 1)) in Hj by lia.
    rewrite Z.testbit_even_succ in Hi, Hj by lia.
    specialize (IH (i - 1) (j - 1) Hn Hi Hj). lia.
  - destruct i as [|i|i], j as [|j|j]; simpl in *; try done; try by destruct i.
    all: by destruct j.
Qed.

(** C6 (dead end).  For an agent on a cell whose mask has exactly one bit
    set, facing the dead end with direction [d] (the one transition of the
    cell is the one for heading [d], back toward [(d+2) mod 4]), move-forward
    is judged a valid transition and the direction of the exit is
    [(d+2) mod 4]; at a cell boundary, with a rail cell of the grid behind
    the agent, [step] stores move-forward as the action to perform on
    leaving the cell. *)
Theorem dead_end_forward_reverses (e : RailEnv) (agent : EnvAgent) :
  0 <= direction agent < 4 ->
  nbits (get_cell_transitions (rail e) (position agent)) = 1 ->
  get_transition (rail e) (position agent) (direction agent)
                 ((direction agent + 2) mod 4) = true ->
  check_action e agent MOVE_FORWARD = ((direction agent + 2) mod 4, Some true) /\
  new_direction (_check_action_on_agent e MOVE_FORWARD agent)
    = (direction agent + 2) mod 4 /\
  transition_isValid (_check_action_on_agent e MOVE_FORWARD agent) = true /\
  (PrimFloat.eqb (position_fraction agent) 0%float = true ->
   new_cell_isValid (_check_action_on_agent e MOVE_FORWARD agent) = true ->
   select_action e MOVE_FORWARD agent
   = Some (set_transition_action_on_cellexit MOVE_FORWARD agent, true)).
Proof.
  intros Hd Hn Ht.
  assert (forall x, 0 <= x < 4 -> x <> (direction agent + 2) mod 4 ->
                    get_transition (rail e) (position agent) (direction agent) x = false)
    as Hother.
  { intros x Hx Hne. destruct (get_transition _ _ _ x) eqn:Hx'; [| done].
    unfold get_transition in Ht, Hx'.
    apply andb_true_iff in Ht as [_ Ht]. apply andb_true_iff in Hx' as [_ Hx'].
    pose proof (nbits_one_unique _ _ _ Hn Ht Hx'). lia. }
  assert (check_action e agent MOVE_FORWARD = ((direction agent + 2) mod 4, Some true))
    as Hca.
  { unfold check_action, get_transitions. simpl map.
    change (MOVE_FORWARD =? MOVE_LEFT) with false.
    change (MOVE_FORWARD =? MOVE_RIGHT) with false.
    change (MOVE_FORWARD =? MOVE_FORWARD) with true. cbv iota beta zeta.
    assert (direction agent = 0 \/ direction agent = 1 \/
            direction agent = 2 \/ direction agent = 3) as Hcases by lia.
    destruct Hcases as [Hc | [Hc | [Hc | Hc]]]; rewrite Hc in *;
      change ((0 + 2) mod 4) with 2 in *; change ((1 + 2) mod 4) with 3 in *;
      change ((2 + 2) mod 4) with 0 in *; change ((3 + 2) mod 4) with 1 in *;
      rewrite Ht; rewrite !Hother by lia; reflexivity. }
  split; [exact Hca|].
  assert (new_direction (_check_action_on_agent e MOVE_FORWARD agent)
          = (direction agent + 2) mod 4 /\
          transition_isValid (_check_action_on_agent e MOVE_FORWARD agent) = true)
    as [Hnd Htv].
  { unfold _check_action_on_agent. rewrite Hca. simpl. done. }
  split; [exact Hnd|]. split; [exact Htv|].
  intros Hf Hcell. unfold select_action, action_is_valid.
  rewrite Hf, Hcell, Htv. reflexivity.
Qed.

Lemma dead_end_forward_reverses_witness :
  exists agent,
    agents siding_train !! 0%nat = Some agent /\ direction agent = 1 /\
    check_action siding_train agent MOVE_FORWARD = (3, Some true) /\
    new_direction (_check_action_on_agent siding_train MOVE_FORWARD agent) = 3 /\
    transition_isValid (_check_action_on_agent siding_train MOVE_FORWARD agent) = true /\
    (PrimFloat.eqb (position_fraction agent) 0%float = true ->
     new_cell_isValid (_check_action_on_agent siding_train MOVE_FORWARD agent) = true ->
     select_action siding_train MOVE_FORWARD agent
     = Some (set_transition_action_on_cellexit MOVE_FORWARD agent, true)).
Proof.
  eexists. split; [reflexivity|]. split; [reflexivity|].
  apply (dead_end_forward_reverses siding_train (agent_at (0, 2) 1 (0, 0))).
  - simpl. lia.
  - reflexivity.
  - reflexivity.
Defined.

(** ** Malformed actions *)

Lemma step_action_ext e (acts1 acts2 : gmap nat Z) :
  (forall i, supplied_action acts1 i = supplied_action acts2 i) ->
  step e acts1 = step e acts2.
Proof.
  intros Hsame. unfold step. cbv zeta.
  rewrite (for_each_ext (step_agent acts1) (step_agent acts2)); [done|].
  intros i s. unfold step_agent. by rewrite Hsame.
Qed.

(** A missing entry, a negative code and a code above 5 are executed as
    do-nothing. *)
Lemma supplied_action_missing (acts : gmap nat Z) i :
  acts !! i = None -> supplied_action acts i = DO_NOTHING.
Proof. unfold supplied_action. by intros ->. Qed.

Lemma supplied_action_coerced (acts : gmap nat Z) i a :
  acts !! i = Some a -> a < 0 \/ 5 < a -> supplied_action acts i = DO_NOTHING.
Proof.
  unfold supplied_action, len_RailEnvActions. intros -> Ha. simpl.
  destruct (Z.ltb_spec a 0), (Z.gtb_spec a 5); simpl; try done; lia.
Qed.

(** Replacing such an entry by do-nothing, or dropping it, does not change
    what [step] returns; and [step] returns on every well-formed
    environment ([step_total]). *)
Lemma malformed_action_as_do_nothing e (acts : gmap nat Z) i a :
  acts !! i = Some a -> a < 0 \/ 5 < a ->
  step e acts = step e (<[i := DO_NOTHING]> acts) /\
  step e acts = step e (delete i acts).
Proof.
  intros Hi Ha. split; apply step_action_ext; intros j;
    destruct (decide (j = i)) as [-> | Hne].
  - rewrite (supplied_action_coerced _ _ _ Hi Ha).
    unfold supplied_action. by rewrite lookup_insert_eq.
  - unfold supplied_action. by rewrite lookup_insert_ne.
  - rewrite (supplied_action_coerced _ _ _ Hi Ha).
    symmetry. apply supplied_action_missing. apply lookup_delete_eq.
  - unfold supplied_action. by rewrite lookup_delete_ne.
Qed.

(** C4: action code 5 passes the range test [a < 0 or a > len(RailEnvActions)]
    (the length is 5) and is executed: it starts the train and moves it one
    cell, where do-nothing leaves it at rest. *)
Theorem action_code_5_is_not_coerced :
  supplied_action {[0%nat := 5]} 0 = 5 /\
  supplied_action {[0%nat := 6]} 0 = DO_NOTHING /\
  exists e5 e0,
    step one_train {[0%nat := 5]} = Ok e5 /\
    step one_train {[0%nat := DO_NOTHING]} = Ok e0 /\
    (position <$> agents e5) = [(0, 1)] /\ (moving <$> agents e5) = [true] /\
    (position <$> agents e0) = [(0, 0)] /\ (moving <$> agents e0) = [false].
Proof.
  split; [reflexivity|]. split; [reflexivity|].
  eexists. eexists.
  split; [vm_compute; reflexivity|]. split; [vm_compute; reflexivity|].
  repeat split; reflexivity.
Qed.

(** ** Invariants of every agent *)

Section AgentInvariant.

Variable P : RailEnv -> EnvAgent -> Prop.
Hypothesis P_setting : forall e1 e2 a,
  width e1 = width e2 -> height e1 = height e2 -> rail e1 = rail e2 ->
  P e1 a -> P e2 a.
Hypothesis P_old : forall e a, P e a -> P e (set_old a).
Hypothesis P_tick : forall e action a r, P e a -> P e (agent_tick e action a r).1.1.

Lemma step_agent_Forall acts i e e' :
  step_agent acts i e = Ok e' -> Forall (P e) (agents e) -> Forall (P e') (agents e').
Proof.
  intros H Hall.
  pose proof (step_agent_setting _ _ _ _ H) as (Hw & Hh & Hr & _).
  assert (Forall (P e') (agents e)) as Hall'.
  { eapply Forall_impl; [exact Hall|]. intros a. by apply P_setting. }
  apply step_agent_Ok in H as (a & d & Ha & Hd & H). simpl in H.
  assert (P e' a) as Hpa.
  { rewrite Forall_lookup in Hall'. by eapply Hall'. }
  destruct d.
  - subst e'. simpl. apply Forall_insert; [done|]. by apply P_old.
  - destruct H as (r & _ & He').
    set (e0 := set_agents _ e) in *.
    pose proof (P_tick e0 (supplied_action acts i) (set_old a) r) as Ht.
    assert (P e' (agent_tick e0 (supplied_action acts i) (set_old a) r).1.1) as Ht'.
    { apply (P_setting e0); [by rewrite Hw | by rewrite Hh | by rewrite Hr |].
      apply Ht, P_old. apply (P_setting e'); [by rewrite Hw | by rewrite Hh | by rewrite Hr |].
      done. }
    clear Ht.
    assert (agents e' = <[i := (agent_tick e0 (supplied_action acts i) (set_old a) r).1.1]>
                          (<[i := set_old a]> (agents e))) as ->.
    { rewrite He'. unfold after_tick. destruct (agent_tick _ _ _ _) as [[a' r'] reached].
      by destruct reached. }
    apply Forall_insert; [| done]. apply Forall_insert; [done|]. by apply P_old.
Qed.

Lemma step_Forall e acts e' :
  step e acts = Ok e' -> Forall (P e) (agents e) -> Forall (P e') (agents e').
Proof.
  intros H Hall. unfold step in H. cbv zeta in H.
  set (e0 := set_rewards_dict (reset_rewards (get_num_agents e)) e) in *.
  change (dones_all e0) with (dones_all e) in H.
  destruct (dones_all e).
  - injection H as <-. simpl. eapply Forall_impl; [exact Hall|]. intros a. by apply P_setting.
  - apply bind_Ok in H as (e1 & Hloop & H).
    assert (Forall (P e1) (agents e1)) as H1.
    { eapply (for_each_inv (fun s => Forall (P s) (agents s))); [ | exact Hloop | ].
      - intros x s s' _ Hs. by eapply step_agent_Forall.
      - simpl. eapply Forall_impl; [exact Hall|]. intros a. by apply P_setting. }
    destruct (all_at_target e1); injection H as <-; [| done].
    simpl. eapply Forall_impl; [exact H1|]. intros a. by apply P_setting.
Qed.

End AgentInvariant.

(** ** Agents stay on the rail *)

Lemma on_rail_position e1 e2 a b :
  width e1 = width e2 -> height e1 = height e2 -> rail e1 = rail e2 ->
  position a = position b -> on_rail e1 a -> on_rail e2 b.
Proof. unfold on_rail. intros -> -> -> ->. done. Qed.

Lemma exit_cell_on_rail e a : on_rail e a -> on_rail e (exit_cell e a).
Proof.
  intros Ha. unfold exit_cell.
  destruct (PrimFloat.leb _ _); [| done].
  destruct (new_cell_isValid _ && transition_isValid _ && cell_isFree _) eqn:Hall; [| done].
  apply andb_true_iff in Hall as [Hall _]. apply andb_true_iff in Hall as [Hvalid _].
  unfold _check_action_on_agent in *.
  destruct (check_action e a _) as [nd tv]. simpl in *.
  apply andb_true_iff in Hvalid as [Hclip Hrail].
  apply pos_eqb_eq in Hclip. apply Z.ltb_lt in Hrail.
  set (q := get_new_position (position a) nd) in *.
  unfold on_rail; simpl. fold q.
  destruct q as [r c]. simpl in *. injection Hclip as Hr Hc.
  unfold clip in Hr, Hc. destruct Ha as (Hh & Hw & _).
  split; [lia|]. split; [lia | done].
Qed.

Lemma agent_tick_on_rail e action a r :
  on_rail e a -> on_rail e (agent_tick e action a r).1.1.
Proof.
  intros Ha. unfold agent_tick, select_action, stop_or_start, effective_action.
  Opaque exit_cell.
  repeat (case_match; simplify_eq; simpl in * ).
  all: try (eapply on_rail_position; [ | | | | exact Ha]; done).
  all: apply exit_cell_on_rail; eapply on_rail_position; [ | | | | exact Ha]; done.
  Transparent exit_cell.
Qed.

(** X1.  Agents stay on the rail: if every agent stands on a cell of the
    grid that has rail, the same holds after a call to [step], whatever the
    actions. *)
Theorem step_keeps_agents_on_rail (e : RailEnv) (action_dict : gmap nat Z) (e' : RailEnv) :
  step e action_dict = Ok e' ->
  Forall (on_rail e) (agents e) -> Forall (on_rail e') (agents e').
Proof.
  apply (step_Forall on_rail).
  - intros e1 e2 a Hw Hh Hr. by apply on_rail_position.
  - intros e0 a. by apply on_rail_position.
  - intros e0 action a r. apply agent_tick_on_rail.
Qed.

Lemma step_keeps_agents_on_rail_witness :
  exists e', step two_trains (forward_all 2) = Ok e' /\ Forall (on_rail e') (agents e').
Proof.
  eexists. split; [vm_compute; reflexivity|].
  apply (step_keeps_agents_on_rail two_trains (forward_all 2)).
  - vm_compute. reflexivity.
  - repeat constructor; simpl; lia.
Defined.

(** ** Trains stop at the entry of a cell only *)

Lemma eqb_zero_refl : PrimFloat.eqb 0%float 0%float = true.
Proof. reflexivity. Qed.

Lemma exit_cell_stopped_at_entry e a :
  stopped_at_entry a -> stopped_at_entry (exit_cell e a).
Proof.
  unfold stopped_at_entry, exit_cell. intros Hinv.
  repeat case_match; simpl; auto.
Qed.

Lemma agent_tick_stopped_at_entry e action a r :
  stopped_at_entry a -> stopped_at_entry (agent_tick e action a r).1.1.
Proof.
  unfold agent_tick, select_action, stop_or_start, effective_action.
  intros Hinv. destruct a as [p d t m f s x od op].
  unfold stopped_at_entry in Hinv. simpl in Hinv.
  Opaque exit_cell.
  destruct m; [clear Hinv | specialize (Hinv eq_refl)];
    repeat (case_match; simplify_eq; simpl in * );
    try apply exit_cell_stopped_at_entry;
    unfold stopped_at_entry; simpl; intros;
    rewrite ?andb_false_r, ?andb_true_r in *;
    try done; try congruence.
  Transparent exit_cell.
Qed.

(** X2.  A train at rest is at the entry of its cell: if every agent that
    is not moving has position fraction 0, as after [reset], this is still
    so after any sequence of [step] calls. *)
Theorem resting_agents_are_at_cell_entry
  (e : RailEnv) (actions : list (gmap nat Z)) (e' : RailEnv) :
  run_steps actions e = Ok e' ->
  Forall stopped_at_entry (agents e) -> Forall stopped_at_entry (agents e').
Proof.
  intros Hrun.
  eapply (for_each_inv (fun s => Forall stopped_at_entry (agents s))); [ | exact Hrun].
  intros acts s s' _ Hs. simpl in Hs. revert Hs.
  apply (step_Forall (fun _ => stopped_at_entry)).
  - done.
  - done.
  - intros e0 action a r. apply agent_tick_stopped_at_entry.
Qed.

Lemma resting_agents_are_at_cell_entry_witness :
  exists e', run_steps [forward_all 2; ∅] two_trains = Ok e' /\
             Forall stopped_at_entry (agents e').
Proof.
  eexists. split; [vm_compute; reflexivity|].
  apply (resting_agents_are_at_cell_entry two_trains [forward_all 2; ∅]).
  - vm_compute. reflexivity.
  - repeat constructor.
Defined.

(** ** What [step] never changes *)

(** X3.  [step] changes neither the grid (width, height, rail), nor the
    static agents, nor the number of agents, nor the target or the speed of
    any agent. *)
Theorem step_keeps_setting (e : RailEnv) (action_dict : gmap nat Z) (e' : RailEnv) :
  step e action_dict = Ok e' ->
  width e' = width e /\ height e' = height e /\ rail e' = rail e /\
  agents_static e' = agents_static e /\
  length (agents e') = length (agents e) /\
  forall i a a', agents e !! i = Some a -> agents e' !! i = Some a' ->
                 target a' = target a /\ speed a' = speed a.
Proof.
  intros H.
  assert (forall i a a', agents e !! i = Some a -> agents e' !! i = Some a' ->
                         target a' = target a /\ speed a' = speed a) as Hts.
  { intros i a a' Ha Ha'.
    destruct (step_agent_rel _ _ _ _ _ _ H Ha Ha') as [-> | (e1 & _ & Ht & Hs & _)]; done. }
  unfold step in H. cbv zeta in H.
  set (e0 := set_rewards_dict (reset_rewards (get_num_agents e)) e) in *.
  change (dones_all e0) with (dones_all e) in H.
  destruct (dones_all e).
  - injection H as <-. done.
  - apply bind_Ok in H as (e1 & Hloop & H).
    apply loop_setting in Hloop as (Hw & Hh & Hr & Hst & _ & Hl). simpl in *.
    destruct (all_at_target e1); injection H as <-; done.
Qed.

Lemma step_keeps_setting_witness :
  width two_trains_later = width two_trains /\
  height two_trains_later = height two_trains /\
  rail two_trains_later = rail two_trains /\
  agents_static two_trains_later = agents_static two_trains /\
  length (agents two_trains_later) = length (agents two_trains) /\
  forall i a a', agents two_trains !! i = Some a -> agents two_trains_later !! i = Some a' ->
                 target a' = target a /\ speed a' = speed a.
Proof.
  apply (step_keeps_setting two_trains (forward_all 2)).
  vm_compute. reflexivity.
Defined.

(** ** Done flags are sound *)

Lemma agent_tick_reached e action a r :
  (agent_tick e action a r).2 = true ->
  position (agent_tick e action a r).1.1 = target (agent_tick e action a r).1.1.
Proof.
  unfold agent_tick.
  destruct (stop_or_start _ a r) as [a1 r1].
  destruct (select_action e _ a1) as [[a2 sel]|]; [| done].
  match goal with |- context [exit_cell e ?x] => set (a3 := exit_cell e x) end.
  destruct (pos_eqb (position a3) (target a3)) eqn:Hpos; simpl; [| done].
  intros _. by apply pos_eqb_eq.
Qed.

Lemma step_agent_dones_sound acts j e e' :
  step_agent acts j e = Ok e' -> dones_sound e -> dones_sound e'.
Proof.
  intros H Hinv i a' Hd' Ha'.
  destruct (decide (i = j)) as [-> | Hne].
  - apply step_agent_Ok in H as (a & d & Ha & Hd & H). simpl in H.
    assert (j < length (agents e))%nat as Hlt by (by apply lookup_lt_Some with a).
    destruct d.
    + subst e'. simpl in *. rewrite list_lookup_insert_eq in Ha' by done.
      injection Ha' as <-. simpl. by apply (Hinv j).
    + destruct H as (r & _ & ->).
      set (e0 := set_agents _ e) in *.
      pose proof (agent_tick_reached e0 (supplied_action acts j) (set_old a) r) as Hreach.
      unfold after_tick in *. destruct (agent_tick _ _ _ _) as [[a1 r1] reached].
      simpl in Hreach. destruct reached; simpl in *.
      * rewrite list_lookup_insert_eq in Ha' by (by rewrite length_insert).
        injection Ha' as <-. by apply Hreach.
      * congruence.
  - apply (step_agent_other _ _ i) in H as (Hag & Hdn & _); [| done].
    apply (Hinv i); congruence.
Qed.

(** X4.  A done flag is only ever set for an agent that stands on its
    target: if that holds before a sequence of [step] calls (after [reset]
    no flag is set), it holds after it. *)
Theorem done_agents_are_on_target
  (e : RailEnv) (actions : list (gmap nat Z)) (e' : RailEnv) :
  run_steps actions e = Ok e' -> dones_sound e -> dones_sound e'.
Proof.
  intros Hrun. eapply (for_each_inv dones_sound); [ | exact Hrun].
  intros acts s s' _ Hs Hinv. simpl in Hs.
  apply step_Ok in Hs as [[_ ->] | (_ & e1 & Hloop & Hag & Hdn & _)]; [done|].
  assert (dones_sound e1) as H1.
  { eapply (for_each_inv dones_sound); [ | exact Hloop | done].
    intros x t t' _ Ht. by eapply step_agent_dones_sound. }
  intros i a. rewrite Hag, Hdn. apply H1.
Qed.

Lemma dones_sound_after_reset r h w l : dones_sound (env_after_reset r h w l).
Proof.
  intros i a Hd _. simpl in Hd. rewrite fresh_dones_lookup in Hd.
  destruct (decide _); done.
Qed.

Lemma done_agents_are_on_target_witness :
  exists e', run_steps [forward_all 2; forward_all 2] two_trains = Ok e' /\
             dones e' !! 1%nat = Some true /\ dones_sound e'.
Proof.
  eexists. split; [vm_compute; reflexivity|]. split; [vm_compute; reflexivity|].
  apply (done_agents_are_on_target two_trains [forward_all 2; forward_all 2]).
  - vm_compute. reflexivity.
  - apply dones_sound_after_reset.
Defined.

(** ** Rewards *)

Lemma step_agent_rewards_keys acts i e e' :
  step_agent acts i e = Ok e' ->
  forall j, is_Some (rewards_dict e' !! j) <-> is_Some (rewards_dict e !! j).
Proof.
  intros H j. apply step_agent_Ok in H as (a & d & Ha & Hd & H). simpl in H.
  destruct d; [by subst e'|].
  destruct H as (r & Hr & ->). unfold after_tick.
  destruct (agent_tick _ _ _ _) as [[a' r'] reached].
  assert (is_Some (<[i:=r']> (rewards_dict e) !! j) <-> is_Some (rewards_dict e !! j)) as Hiff.
  { rewrite lookup_insert_is_Some'. split; [| by right].
    intros [-> | Hj]; [by rewrite Hr | done]. }
  by destruct reached.
Qed.

Lemma loop_rewards_keys acts l e e' :
  for_each (step_agent acts) l e = Ok e' ->
  forall j, is_Some (rewards_dict e' !! j) <-> is_Some (rewards_dict e !! j).
Proof.
  intros H.
  eapply (for_each_inv
            (fun s => forall j, is_Some (rewards_dict s !! j) <-> is_Some (rewards_dict e !! j)));
    [ | exact H | done].
  intros x s s' _ Hs HP j. rewrite <- HP. by eapply step_agent_rewards_keys.
Qed.

(** X5.  The rewards [step] returns have an entry for exactly the handles
    [0 .. get_num_agents() - 1], whatever the rewards of the call before. *)
Theorem step_rewards_for_every_handle
  (e : RailEnv) (action_dict : gmap nat Z) (e' : RailEnv) (i : nat) :
  step e action_dict = Ok e' ->
  is_Some (rewards_dict e' !! i) <-> (i < get_num_agents e)%nat.
Proof.
  intros H.
  assert (is_Some (reset_rewards (get_num_agents e) !! i) <-> (i < get_num_agents e)%nat)
    as Hreset.
  { rewrite reset_rewards_lookup. destruct (decide _); split; try done;
      by intros [x Hx]. }
  apply step_Ok in H as [[_ ->] | (_ & e1 & Hloop & _ & _ & Hfin)].
  - simpl. rewrite lookup_fmap, fmap_is_Some. done.
  - rewrite <- Hreset.
    pose proof (loop_rewards_keys _ _ _ _ Hloop i) as Hk. simpl in Hk. rewrite <- Hk.
    destruct (all_at_target e1).
    + destruct Hfin as [_ ->]. by rewrite lookup_fmap, fmap_is_Some.
    + by subst e'.
Qed.

Lemma step_rewards_for_every_handle_witness :
  exists e', step two_trains (forward_all 2) = Ok e' /\
    (is_Some (rewards_dict e' !! 1%nat) <-> (1 < get_num_agents two_trains)%nat).
Proof.
  eexists. split; [vm_compute; reflexivity|].
  apply (step_rewards_for_every_handle two_trains (forward_all 2)).
  vm_compute. reflexivity.
Defined.

(** ** Every agent's entry after the loop *)

(** The loop of a call that finds the episode not over leaves, for every
    handle, either the finished agent with reward 0, or the outcome of the
    agent's tick, which started from reward 0. *)
Lemma loop_entry acts e e1 i :
  for_each (step_agent acts) (seq 0 (get_num_agents e))
           (set_rewards_dict (reset_rewards (get_num_agents e)) e) = Ok e1 ->
  (i < get_num_agents e)%nat ->
  exists a (d : bool), agents e !! i = Some a /\ dones e !! i = Some d /\
    if d then
      agents e1 !! i = Some (set_old a) /\ dones e1 !! i = Some true /\
      rewards_dict e1 !! i = Some (PyInt 0)
    else
      exists e0 a' r' reached,
        (width e0 = width e /\ height e0 = height e /\ rail e0 = rail e) /\
        agent_tick e0 (supplied_action acts i) (set_old a) (PyInt 0) = (a', r', reached) /\
        agents e1 !! i = Some a' /\ rewards_dict e1 !! i = Some r' /\
        dones e1 !! i = Some reached.
Proof.
  intros Hloop Hi.
  apply (loop_at _ _ i) in Hloop as (l1 & l2 & s1 & s2 & _ & Hl1 & Hs & _ & He1 & He2);
    [ | apply NoDup_seq | apply elem_of_seq; lia].
  destruct He1 as (He1a & He1d & He1r). simpl in He1a, He1d, He1r.
  rewrite reset_rewards_lookup in He1r.
  destruct (decide (i < get_num_agents e)%nat); [| lia].
  apply loop_setting in Hl1 as (Hw & Hh & Hr & _). simpl in Hw, Hh, Hr.
  destruct He2 as (He2a & He2d & He2r).
  apply step_agent_Ok in Hs as (a & d & Ha & Hd & Hs). simpl in Hs.
  assert (i < length (agents s1))%nat as Hlt by (by apply lookup_lt_Some with a).
  exists a, d. split; [congruence|]. split; [congruence|].
  destruct d.
  - subst s2. simpl in *. rewrite He2a, He2d, He2r.
    rewrite list_lookup_insert_eq by done. split; [done|]. split; congruence.
  - destruct Hs as (r & Hr' & Hs2). rewrite He1r in Hr'. injection Hr' as <-.
    set (e0 := set_agents (<[i:=set_old a]> (agents s1)) s1) in *.
    destruct (agent_tick e0 (supplied_action acts i) (set_old a) (PyInt 0))
      as [[a' r'] reached] eqn:Htick.
    exists e0, a', r', reached. split; [done|]. split; [done|].
    rewrite He2a, He2d, He2r, Hs2. unfold after_tick.
    destruct reached; simpl;
      rewrite ?list_lookup_insert_eq, ?lookup_insert_eq by (by rewrite ?length_insert);
      done.
Qed.

Lemma stop_or_start_reward action a :
  (stop_or_start action a (PyInt 0)).2 = PyInt 0.
Proof. unfold stop_or_start. repeat (case_match; simplify_eq; simpl in * ); done. Qed.

(** A tick that leaves the agent on its target has added no penalty. *)
Lemma tick_reward_on_target e action a a' r' reached :
  agent_tick e action a (PyInt 0) = (a', r', reached) ->
  position a' = target a' -> r' = PyInt 0.
Proof.
  unfold agent_tick.
  pose proof (stop_or_start_reward (effective_action action a) a) as Hrew.
  destruct (stop_or_start _ a (PyInt 0)) as [a1 r1]. simpl in Hrew. subst r1.
  destruct (select_action e _ a1) as [[a2 sel]|].
  - match goal with |- context [exit_cell e ?x] => set (a3 := exit_cell e x) end.
    destruct (pos_eqb (position a3) (target a3)) eqn:Hpos; intros [= <- <- <-]; [done|].
    intros Heq. apply pos_eqb_eq in Heq. congruence.
  - intros [= <- <- <-]. done.
Qed.

Lemma all_at_target_lookup e i a :
  all_at_target e = true -> agents e !! i = Some a -> position a = target a.
Proof.
  unfold all_at_target. intros Hall Ha. apply pos_eqb_eq.
  destruct (pos_eqb (position a) (target a)) eqn:E; [done|].
  rewrite (forallb_lookup_false _ _ _ _ Ha E) in Hall. done.
Qed.

(** X6.  A call that finds the episode not over sets ["__all__"] exactly
    when every agent stands on its target at the end of the call, and then
    the reward it returns for every handle is 1.0, the global reward
    alone. *)
Theorem step_ends_episode_when_all_arrived
  (e : RailEnv) (action_dict : gmap nat Z) (e' : RailEnv) :
  step e action_dict = Ok e' ->
  dones_all e = false ->
  dones_all e' = all_at_target e' /\
  (all_at_target e' = true ->
   forall i, (i < get_num_agents e)%nat -> rewards_dict e' !! i = Some (PyFloat 1%float)).
Proof.
  intros H Hall.
  apply step_Ok in H as [[Habs _] | (_ & e1 & Hloop & Hag & Hdn & Hfin)]; [congruence|].
  assert (all_at_target e' = all_at_target e1) as Heq.
  { unfold all_at_target. by rewrite Hag. }
  rewrite Heq. destruct (all_at_target e1) eqn:Hat.
  - destruct Hfin as [Hall' Hrew]. split; [done|]. intros _ i Hi.
    rewrite Hrew, lookup_fmap.
    destruct (loop_entry _ _ _ i Hloop Hi) as (a & d & Ha & Hd & Hentry).
    destruct d.
    + destruct Hentry as (_ & _ & ->). reflexivity.
    + destruct Hentry as (e0 & a' & r' & reached & _ & Htick & Ha' & Hr' & _).
      rewrite Hr'.
      rewrite (tick_reward_on_target _ _ _ _ _ _ Htick); [reflexivity|].
      by apply (all_at_target_lookup e1 i).
  - subst e'. split; [| done].
    apply loop_setting in Hloop as (_ & _ & _ & _ & Hda & _). simpl in Hda. congruence.
Qed.

Lemma step_ends_episode_when_all_arrived_witness :
  exists e', step one_train_later (forward_all 1) = Ok e' /\
    dones_all e' = true /\ rewards_dict e' !! 0%nat = Some (PyFloat 1%float).
Proof.
  eexists. split; [vm_compute; reflexivity|].
  destruct (step_ends_episode_when_all_arrived one_train_later (forward_all 1)
              arrived_train) as [H1 H2].
  - vm_compute. reflexivity.
  - vm_compute. reflexivity.
  - split; [exact H1|]. apply H2; [vm_compute; reflexivity | vm_compute; lia].
Defined.

(** X7.  An agent that is done when the call starts has reward 0 for the
    call, unless the call ends the episode, when it has the global reward
    like every agent. *)
Theorem done_agent_has_no_reward
  (e : RailEnv) (action_dict : gmap nat Z) (e' : RailEnv) (i : nat) :
  step e action_dict = Ok e' ->
  dones_all e = false ->
  (i < get_num_agents e)%nat ->
  dones e !! i = Some true ->
  rewards_dict e' !! i = Some (if all_at_target e' then PyFloat 1%float else PyInt 0).
Proof.
  intros H Hall Hi Hd.
  apply step_Ok in H as [[Habs _] | (_ & e1 & Hloop & Hag & Hdn & Hfin)]; [congruence|].
  assert (all_at_target e' = all_at_target e1) as Heq.
  { unfold all_at_target. by rewrite Hag. }
  rewrite Heq.
  destruct (loop_entry _ _ _ i Hloop Hi) as (a & d & Ha & Hd' & Hentry).
  rewrite Hd in Hd'. injection Hd' as <-. destruct Hentry as (_ & _ & Hr).
  destruct (all_at_target e1).
  - destruct Hfin as [_ ->]. rewrite lookup_fmap, Hr. reflexivity.
  - by subst e'.
Qed.

Lemma done_agent_has_no_reward_witness :
  exists e', step two_trains_later (forward_all 2) = Ok e' /\
    rewards_dict e' !! 1%nat = Some (if all_at_target e' then PyFloat 1%float else PyInt 0).
Proof.
  eexists. split; [vm_compute; reflexivity|].
  apply (done_agent_has_no_reward two_trains_later (forward_all 2) _ 1%nat).
  - vm_compute. reflexivity.
  - vm_compute. reflexivity.
  - vm_compute. lia.
  - vm_compute. reflexivity.
Defined.

(** ** Stopping and resting *)

Lemma exit_cell_keeps e a :
  moving (exit_cell e a) = moving a /\
  transition_action_on_cellexit (exit_cell e a) = transition_action_on_cellexit a.
Proof. unfold exit_cell. repeat case_match; done. Qed.

Lemma stop_tick_at_entry e a r :
  moving a = true -> PrimFloat.eqb (position_fraction a) 0%float = true ->
  (agent_tick e STOP_MOVING a r).1.1 = set_moving false a.
Proof.
  intros Hm Hf. pose proof (eqb_zero_below_one _ Hf) as Hl.
  destruct a as [p d t m f s x od op]. simpl in *. subst m.
  unfold agent_tick, effective_action, stop_or_start, select_action, exit_cell. simpl.
  rewrite Hf. simpl. rewrite Hf. simpl. rewrite Hl.
  by destruct (pos_eqb _ _).
Qed.

Lemma stop_tick_mid_cell e a r :
  moving a = true -> PrimFloat.eqb (position_fraction a) 0%float = false ->
  moving (agent_tick e STOP_MOVING a r).1.1 = true.
Proof.
  intros Hm Hf.
  destruct a as [p d t m f s x od op]. simpl in *. subst m.
  unfold agent_tick, effective_action, stop_or_start, select_action.
  Opaque exit_cell.
  simpl. repeat (rewrite Hf; simpl).
  match goal with |- context [exit_cell e ?x] => pose proof (exit_cell_keeps e x) as [Hk _] end.
  destruct (pos_eqb _ _); simpl; rewrite Hk; by destruct (PrimFloat.ltb 0 f).
  Transparent exit_cell.
Qed.

(** X8.  Stopping takes effect at the entry of a cell only.  A moving
    agent told to stop halts where it stands if its position fraction is 0;
    inside a cell the command is ignored and the agent keeps moving. *)
Theorem stop_takes_effect_at_cell_entry
  (e : RailEnv) (action_dict : gmap nat Z) (e' : RailEnv) (i : nat) (a : EnvAgent) :
  step e action_dict = Ok e' ->
  dones_all e = false ->
  (i < get_num_agents e)%nat ->
  agents e !! i = Some a ->
  dones e !! i = Some false ->
  moving a = true ->
  action_dict !! i = Some STOP_MOVING ->
  exists a', agents e' !! i = Some a' /\
    (PrimFloat.eqb (position_fraction a) 0%float = true ->
     moving a' = false /\ position a' = position a /\ direction a' = direction a /\
     position_fraction a' = position_fraction a) /\
    (PrimFloat.eqb (position_fraction a) 0%float = false -> moving a' = true).
Proof.
  intros H Hall Hi Ha Hd Hm Hact.
  destruct (step_own_tick _ _ _ _ _ H Hall Hi Ha Hd)
    as (e0 & a' & r' & reached & _ & Htick & Ha' & _).
  assert (supplied_action action_dict i = STOP_MOVING) as Hs.
  { unfold supplied_action. by rewrite Hact. }
  rewrite Hs in Htick. exists a'. split; [done|]. split.
  - intros Hf. pose proof (stop_tick_at_entry e0 (set_old a) (PyInt 0) Hm Hf) as Ht.
    rewrite Htick in Ht. simpl in Ht. subst a'. done.
  - intros Hf. pose proof (stop_tick_mid_cell e0 (set_old a) (PyInt 0) Hm Hf) as Ht.
    by rewrite Htick in Ht.
Qed.

Lemma stop_takes_effect_at_cell_entry_witness :
  exists a', agents (match step one_train_later {[0%nat := STOP_MOVING]} with
                     | Ok e' => e' | _ => one_train_later end) !! 0%nat = Some a' /\
    (PrimFloat.eqb (position_fraction moved_agent) 0%float = true ->
     moving a' = false /\ position a' = position moved_agent /\
     direction a' = direction moved_agent /\
     position_fraction a' = position_fraction moved_agent) /\
    (PrimFloat.eqb (position_fraction moved_agent) 0%float = false -> moving a' = true).
Proof.
  apply (stop_takes_effect_at_cell_entry one_train_later {[0%nat := STOP_MOVING]}).
  - vm_compute. reflexivity.
  - vm_compute. reflexivity.
  - vm_compute. lia.
  - vm_compute. reflexivity.
  - vm_compute. reflexivity.
  - reflexivity.
  - reflexivity.
Defined.




(** ** Turning where the rail does not branch *)

Lemma turn_is_invalid e action a :
  action = MOVE_LEFT \/ action = MOVE_RIGHT ->
  count_nonzero (get_transitions (rail e) (position a) (direction a)) <= 1 ->
  action_is_valid e action a = false.
Proof.
  intros Hact Hn. apply Z.leb_le in Hn.
  unfold action_is_valid, _check_action_on_agent, check_action. cbv zeta.
  rewrite Hn.
  destruct Hact as [-> | ->]; simpl; apply andb_false_r.
Qed.

Lemma stop_or_start_moves action a r :
  action <> DO_NOTHING -> action <> STOP_MOVING ->
  (stop_or_start action a r).1 = set_moving true a.
Proof.
  intros H0 H4. apply Z.eqb_neq in H0, H4.
  destruct a as [p d t m f s x od op].
  unfold stop_or_start. rewrite H0, H4. simpl. by destruct m.
Qed.

Lemma turn_tick e action a r :
  action = MOVE_LEFT \/ action = MOVE_RIGHT ->
  PrimFloat.eqb (position_fraction a) 0%float = true ->
  count_nonzero (get_transitions (rail e) (position a) (direction a)) <= 1 ->
  let a' := (agent_tick e action a r).1.1 in
  if action_is_valid e MOVE_FORWARD a
  then transition_action_on_cellexit a' = MOVE_FORWARD /\ moving a' = true
  else a' = set_moving false a.
Proof.
  intros Hact Hf Hn.
  assert (action <> DO_NOTHING /\ action <> STOP_MOVING) as [H0 H4].
  { destruct Hact as [-> | ->]; done. }
  pose proof (turn_is_invalid e action (set_moving true a) Hact Hn) as Hinv.
  rewrite <- (action_is_valid_ext e e (set_moving true a) a MOVE_FORWARD) by done.
  unfold agent_tick, effective_action.
  assert ((action =? DO_NOTHING) = false) as E0 by (by apply Z.eqb_neq).
  assert ((action =? STOP_MOVING) = false) as E4 by (by apply Z.eqb_neq).
  rewrite E0. simpl andb. cbv iota.
  pose proof (stop_or_start_moves action a r H0 H4) as Hs.
  destruct (stop_or_start action a r) as [a1 r1]. simpl in Hs. subst a1.
  unfold select_action.
  change (position_fraction (set_moving true a)) with (position_fraction a).
  rewrite Hf, E0, E4, Hinv. simpl negb. simpl andb. cbv iota.
  assert (((action =? MOVE_LEFT) || (action =? MOVE_RIGHT)) = true) as ->.
  { destruct Hact as [-> | ->]; done. }
  simpl andb. cbv iota.
  destruct (action_is_valid e MOVE_FORWARD (set_moving true a)); cbv zeta.
  - match goal with |- context [exit_cell e ?x] => pose proof (exit_cell_keeps e x) as [Hk1 Hk2] end.
    simpl in Hk1, Hk2.
    destruct (pos_eqb _ _); simpl; rewrite Hk1, Hk2; done.
  - simpl. by destruct a.
Qed.

(** X10.  Turning where the rail does not branch.  An agent at the entry
    of a cell that offers at most one exit for its heading is told to turn
    left or right: if moving forward is possible it goes forward instead (the
    action stored for the cell exit is move-forward, and the agent moves);
    otherwise the command is invalid and the agent is stopped where it
    stands. *)
Theorem turn_on_plain_track_goes_forward
  (e : RailEnv) (action_dict : gmap nat Z) (e' : RailEnv) (i : nat) (a : EnvAgent) :
  step e action_dict = Ok e' ->
  dones_all e = false ->
  (i < get_num_agents e)%nat ->
  agents e !! i = Some a ->
  dones e !! i = Some false ->
  PrimFloat.eqb (position_fraction a) 0%float = true ->
  action_dict !! i = Some MOVE_LEFT \/ action_dict !! i = Some MOVE_RIGHT ->
  count_nonzero (get_transitions (rail e) (position a) (direction a)) <= 1 ->
  exists a', agents e' !! i = Some a' /\
    if action_is_valid e MOVE_FORWARD a
    then transition_action_on_cellexit a' = MOVE_FORWARD /\ moving a' = true
    else moving a' = false /\ position a' = position a /\ direction a' = direction a.
Proof.
  intros H Hall Hi Ha Hd Hf Hact Hn.
  destruct (step_own_tick _ _ _ _ _ H Hall Hi Ha Hd)
    as (e0 & a' & r' & reached & (Hw & Hh & Hr) & Htick & Ha' & _).
  assert (supplied_action action_dict i = MOVE_LEFT \/
          supplied_action action_dict i = MOVE_RIGHT) as Hs.
  { unfold supplied_action. destruct Hact as [-> | ->]; [by left | by right]. }
  pose proof (turn_tick e0 _ (set_old a) (PyInt 0) Hs Hf) as Ht.
  rewrite Hr in Ht. specialize (Ht Hn). rewrite Htick in Ht. simpl in Ht.
  rewrite (action_is_valid_ext e0 e (set_old a) a MOVE_FORWARD) in Ht by done.
  exists a'. split; [done|].
  destruct (action_is_valid e MOVE_FORWARD a); [done|]. by subst a'.
Qed.

Lemma turn_on_plain_track_goes_forward_witness :
  exists a', agents one_train_later !! 0%nat = Some a' /\
    if action_is_valid one_train MOVE_FORWARD (agent_at (0, 0) 1 (0, 2))
    then transition_action_on_cellexit a' = MOVE_FORWARD /\ moving a' = true
    else moving a' = false /\ position a' = (0, 0) /\ direction a' = 1.
Proof.
  apply (turn_on_plain_track_goes_forward one_train {[0%nat := MOVE_LEFT]}
           one_train_later 0%nat (agent_at (0, 0) 1 (0, 2))).
  - vm_compute. reflexivity.
  - reflexivity.
  - vm_compute. lia.
  - reflexivity.
  - reflexivity.
  - reflexivity.
  - left. reflexivity.
  - vm_compute. discriminate.
Defined.

(** ** Adding a static agent *)

(** X11.  [add_agent_static] returns the handle of the agent it adds, which
    is the number of static agents before; but [step] then counts one agent
    more than [agents] holds, and on an environment that was well-formed and
    whose episode is not over it raises IndexError, whatever the actions,
    until the agents are rebuilt from the static ones. *)
Theorem step_after_add_agent_static_raises
  (e : RailEnv) (agent_static : EnvAgentStatic) (action_dict : gmap nat Z) :
  well_formed e ->
  dones_all e = false ->
  let '(e1, handle) := add_agent_static agent_static e in
  handle = get_num_agents e /\
  agents_static e1 !! handle = Some agent_static /\
  get_agent_handles e1 = get_agent_handles e ++ [handle] /\
  step e1 action_dict = Raise IndexError.
Proof.
  intros [Hlen Hdn] Hall. unfold add_agent_static. cbv zeta.
  set (e1 := set_agents_static (agents_static e ++ [agent_static]) e).
  assert (length (agents_static e1) = S (get_num_agents e)) as Hn.
  { unfold e1, get_num_agents. simpl. rewrite length_app. simpl. lia. }
  rewrite Hn. replace (S (get_num_agents e) - 1)%nat with (get_num_agents e) by lia.
  split; [done|]. split.
  { unfold e1, get_num_agents. simpl. rewrite lookup_app_r by done.
    by rewrite Nat.sub_diag. }
  split.
  { unfold get_agent_handles. change (get_num_agents e1) with (length (agents_static e1)).
    rewrite Hn. by rewrite seq_S. }
  unfold step. cbv zeta.
  set (e0 := set_rewards_dict (reset_rewards (get_num_agents e1)) e1).
  change (dones_all e0) with (dones_all e). rewrite Hall.
  change (get_num_agents e0) with (length (agents_static e1)).
  rewrite Hn, seq_S, for_each_app. simpl "+"%nat.
  destruct (for_each_total (ready (get_num_agents e)) (step_agent action_dict)
              (seq 0 (get_num_agents e))) with (s := e0) as (e2 & H2 & _).
  - intros i s Hi Hs. apply step_agent_total; [| done].
    apply elem_of_seq in Hi. lia.
  - intros i Hi. unfold get_num_agents in Hi. simpl.
    rewrite reset_rewards_lookup. split; [| split].
    + apply lookup_lt_is_Some. lia.
    + apply Hdn. lia.
    + change (get_num_agents e1) with (length (agents_static e1)). rewrite Hn.
      unfold get_num_agents. destruct (decide _); [done | lia].
  - rewrite H2. simpl.
    apply loop_setting in H2 as (_ & _ & _ & _ & _ & Hl). simpl in Hl.
    unfold step_agent.
    rewrite (lookup_ge_None_2 (agents e2) (get_num_agents e)); [done|].
    unfold get_num_agents. lia.
Qed.

Lemma step_after_add_agent_static_raises_witness :
  let '(e1, handle) := add_agent_static (static_of (agent_at (0, 1) 1 (0, 2))) one_train in
  handle = get_num_agents one_train /\
  agents_static e1 !! handle = Some (static_of (agent_at (0, 1) 1 (0, 2))) /\
  get_agent_handles e1 = get_agent_handles one_train ++ [handle] /\
  step e1 (forward_all 2) = Raise IndexError.
Proof.
  apply (step_after_add_agent_static_raises one_train
           (static_of (agent_at (0, 1) 1 (0, 2))) (forward_all 2)).
  - apply well_formed_after_reset.
  - reflexivity.
Defined.

(** ** Episodes run through *)



(** ** Malformed actions *)

(** X13.  An action code below 0 or above 5 is treated exactly like
    do-nothing and like a missing entry: the three calls to [step] return
    the same. *)
Theorem malformed_action_is_ignored
  (e : RailEnv) (action_dict : gmap nat Z) (i : nat) (a : Z) :
  action_dict !! i = Some a -> a < 0 \/ 5 < a ->
  step e action_dict = step e (<[i := DO_NOTHING]> action_dict) /\
  step e action_dict = step e (delete i action_dict).
Proof. apply malformed_action_as_do_nothing. Qed.

Lemma malformed_action_is_ignored_witness :
  step one_train {[0%nat := 9]} = step one_train (<[0%nat := DO_NOTHING]> {[0%nat := 9]}) /\
  step one_train {[0%nat := 9]} = step one_train (delete 0%nat {[0%nat := 9]}).
Proof.
  apply (malformed_action_is_ignored one_train {[0%nat := 9]} 0%nat 9).
  - reflexivity.
  - right. lia.
Defined.

(** ** What [_check_action_on_agent] returns *)

(** X14.  The direction [_check_action_on_agent] returns is one of 0..3,
    the position it returns is the neighbour of the agent's cell in that
    direction, and a transition it reports valid is a transition of the
    rail from the agent's cell and heading. *)
Theorem check_action_on_agent_returns_a_neighbour
  (e : RailEnv) (action : Z) (agent : EnvAgent) :
  let chk := _check_action_on_agent e action agent in
  0 <= new_direction chk < 4 /\
  new_position chk = get_new_position (position agent) (new_direction chk) /\
  new_position chk <> position agent /\
  (transition_isValid chk = true ->
   get_transition (rail e) (position agent) (direction agent) (new_direction chk) = true).
Proof.
  pose proof (check_action_on_agent_sound e action agent) as H. simpl in *.
  destruct H as (Hd & Hp & Ht). repeat split; try done; try lia.
  rewrite Hp. by apply get_new_position_neq.
Qed.

(** ** The tree observation has a fixed shape *)

Section TreeObsShape.
Import TreeObsForRailEnv.

Lemma nodes_below_S k : nodes_below (S k) = (nodes_below k + 4 ^ k)%nat.
Proof.
  unfold nodes_below. rewrite seq_S, sum_list_with_app. simpl. lia.
Qed.

Lemma nodes_below_quad k : nodes_below (S k) = (1 + 4 * nodes_below k)%nat.
Proof.
  induction k as [|k IH]; [reflexivity|].
  pose proof (nodes_below_S k) as H1. pose proof (nodes_below_S (S k)) as H2.
  rewrite Nat.pow_succ_r' in H2. lia.
Qed.

Lemma num_cells_to_fill_in_sum k : num_cells_to_fill_in k = nodes_below k.
Proof.
  unfold num_cells_to_fill_in.
  assert (Nat.iter k (fun '(num, pow4) => (num + pow4, pow4 * 4)%nat) (0, 1)%nat
          = (nodes_below k, 4 ^ k)%nat) as ->; [| done].
  induction k as [|k IH]; [reflexivity|].
  rewrite nodes_below_S, Nat.pow_succ_r'.
  change (Nat.iter (S k) ?f ?x) with (f (Nat.iter k f x)). rewrite IH.
  f_equal. lia.
Qed.

Lemma length_padding n : length (padding n) = (5 * n)%nat.
Proof.
  unfold padding. induction n as [|n IH]; [reflexivity|].
  simpl. rewrite IH. lia.
Qed.

(** Padding holds nothing but [-inf]. *)
Lemma padding_all_NegInf n : Forall (fun x => x = NegInf) (TreeObsForRailEnv.padding n).
Proof.
  unfold TreeObsForRailEnv.padding. induction n as [|n IH]; simpl; [constructor|].
  repeat (constructor; [reflexivity|]). exact IH.
Qed.

Lemma _explore_branch_unfold levels fuel self env handle position direction depth :
  _explore_branch levels fuel self env handle position direction depth
  = if (max_depth self + 1 <=? depth)%nat then Ok []
    else
      match levels with
      | O => OutOfFuel
      | S levels =>
          w ← walk fuel self env handle position direction false false;
          let position := end_position w in
          let direction := end_direction w in
          observation ←
            (if last_isTarget w then
               Ok [Fin 0;
                   if other_target_encountered w then Fin 1 else Fin 0;
                   if other_agent_encountered w then Fin 1 else Fin 0;
                   Fin 0;
                   Fin 0]
             else
               d ← dm_get (distance_map self) handle position.1 position.2 direction;
               Ok [Fin 0;
                   if other_target_encountered w then Fin 1 else Fin 0;
                   if other_agent_encountered w then Fin 1 else Fin 0;
                   Fin 0;
                   d]);
          for_each
            (fun branch_direction observation =>
               if last_isDeadEnd w
                  && get_transition (rail env) position direction
                                    ((branch_direction + 2) mod 4)
               then
                 new_cell ← of_option TypeError
                              (_new_position position ((branch_direction + 2) mod 4));
                 branch_observation ←
                   _explore_branch levels fuel self env handle new_cell
                                   ((branch_direction + 2) mod 4) (depth + 1);
                 Ok (observation ++ branch_observation)
               else if last_isSwitch w
                       && get_transition (rail env) position direction branch_direction
               then
                 new_cell ← of_option TypeError (_new_position position branch_direction);
                 branch_observation ←
                   _explore_branch levels fuel self env handle new_cell
                                   branch_direction (depth + 1);
                 Ok (observation ++ branch_observation)
               else
                 Ok (observation
                       ++ padding (num_cells_to_fill_in (max_depth self - depth))))
            (branch_directions direction) observation
      end.
Proof. destruct levels; reflexivity. Qed.

(** A branch explored at [depth] fills a full quad-tree of the levels left. *)
Lemma _explore_branch_length levels fuel self env handle :
  forall position direction depth obs,
    _explore_branch levels fuel self env handle position direction depth = Ok obs ->
    length obs = (5 * nodes_below (max_depth self + 1 - depth))%nat.
Proof.
  induction levels as [|levels IH]; intros position direction depth obs;
    rewrite _explore_branch_unfold;
    destruct (Nat.leb_spec (max_depth self + 1) depth) as [Hd | Hd].
  - intros [= <-]. replace (max_depth self + 1 - depth)%nat with 0%nat by lia. done.
  - done.
  - intros [= <-]. replace (max_depth self + 1 - depth)%nat with 0%nat by lia. done.
  - intros H. apply bind_Ok in H as (w & _ & H). cbv zeta in H.
    apply bind_Ok in H as (obs0 & Hobs0 & H).
    assert (length obs0 = 5%nat) as Hlen0.
    { destruct (last_isTarget w).
      - by injection Hobs0 as <-.
      - apply bind_Ok in Hobs0 as (d & _ & Hobs0). by injection Hobs0 as <-. }
    apply (for_each_length _ (5 * nodes_below (max_depth self - depth))) in H.
    + rewrite H, Hlen0.
      replace (max_depth self + 1 - depth)%nat with (S (max_depth self - depth)) by lia.
      rewrite nodes_below_quad.
      change (length (branch_directions (end_direction w))) with 4%nat. lia.
    + intros bd l l' Hbody.
      assert (forall p d o, _explore_branch levels fuel self env handle p d (depth + 1) = Ok o ->
                length o = (5 * nodes_below (max_depth self - depth))%nat) as IH'.
      { intros p d o Ho. apply IH in Ho. rewrite Ho. f_equal. f_equal. lia. }
      destruct (last_isDeadEnd w && _).
      { apply bind_Ok in Hbody as (q & _ & Hbody).
        apply bind_Ok in Hbody as (o & Ho & Hbody). injection Hbody as <-.
        rewrite length_app. by rewrite (IH' _ _ _ Ho). }
      destruct (last_isSwitch w && _).
      { apply bind_Ok in Hbody as (q & _ & Hbody).
        apply bind_Ok in Hbody as (o & Ho & Hbody). injection Hbody as <-.
        rewrite length_app. by rewrite (IH' _ _ _ Ho). }
      injection Hbody as <-.
      by rewrite length_app, length_padding, num_cells_to_fill_in_sum.
Qed.

Lemma get_length fuel self env handle self' obs :
  get fuel self env handle = Ok (self', obs) ->
  length obs = (5 * geometric_sum (max_depth self))%nat.
Proof.
  unfold get. intros H.
  apply bind_Ok in H as (position & _ & H).
  apply bind_Ok in H as (orientation & _ & H).
  apply bind_Ok in H as (d & _ & H).
  apply bind_Ok in H as (o & Ho & H). injection H as _ <-.
  apply (for_each_length _ (5 * nodes_below (max_depth self))) in Ho.
  - rewrite Ho. unfold geometric_sum. rewrite nodes_below_quad.
    change (length (branch_directions orientation)) with 4%nat. simpl length. lia.
  - intros bd l l' Hbody.
    destruct (get_transition _ _ _ _).
    + apply bind_Ok in Hbody as (q & _ & Hbody).
      apply bind_Ok in Hbody as (b & Hb & Hbody). injection Hbody as <-.
      apply _explore_branch_length in Hb. simpl max_depth in Hb.
      replace (max_depth self + 1 - 1)%nat with (max_depth self) in Hb by lia.
      by rewrite length_app, Hb.
    + injection Hbody as <-.
      by rewrite length_app, length_padding, num_cells_to_fill_in_sum.
Qed.

(** *** [get] returns *)

Lemma _new_position_Some p d : 0 <= d < 4 -> exists q, _new_position p d = Some q.
Proof.
  intros Hd. unfold _new_position.
  assert (d = 0 \/ d = 1 \/ d = 2 \/ d = 3) as [-> | [-> | [-> | ->]]] by lia;
    simpl; eauto.
Qed.

Lemma first_exit_sound r p d i :
  first_exit (get_transitions r p d) 0 = Some i ->
  0 <= i < 4 /\ get_transition r p d i = true.
Proof.
  unfold get_transitions. simpl.
  destruct (get_transition r p d 0) eqn:H0; [intros [= <-]; split; [lia | done]|].
  destruct (get_transition r p d 1) eqn:H1; [intros [= <-]; split; [lia | done]|].
  destruct (get_transition r p d 2) eqn:H2; [intros [= <-]; split; [lia | done]|].
  destruct (get_transition r p d 3) eqn:H3; [intros [= <-]; split; [lia | done]|].
  done.
Qed.

Lemma walk_unfold fuel self env handle position direction oa ot :
  walk (S fuel) self env handle position direction oa ot
  = (let other_agent_encountered :=
       if bool_decide (position ∈ location_has_agent self) then true else oa in
     let other_target_encountered :=
       if bool_decide (position ∈ location_has_target self) then true else ot in
     target ← getitem (agents_target env) handle;
     if (position.1 =? target.1) && (position.2 =? target.2) then
       Ok {| end_position := position; end_direction := direction;
             last_isSwitch := false; last_isDeadEnd := false; last_isTarget := true;
             other_agent_encountered := other_agent_encountered;
             other_target_encountered := other_target_encountered |}
     else
       let cell_transitions := get_transitions (rail env) position direction in
       let num_transitions := count_nonzero cell_transitions in
       if num_transitions =? 1 then
         if nbits (get_cell_transitions (rail env) position) =? 1 then
           Ok {| end_position := position; end_direction := direction;
                 last_isSwitch := false; last_isDeadEnd := true; last_isTarget := false;
                 other_agent_encountered := other_agent_encountered;
                 other_target_encountered := other_target_encountered |}
         else
           match first_exit cell_transitions 0 with
           | Some i =>
               position ← of_option TypeError (_new_position position i);
               walk fuel self env handle position i
                    other_agent_encountered other_target_encountered
           | None =>
               walk fuel self env handle position direction
                    other_agent_encountered other_target_encountered
           end
       else if 0 <? num_transitions then
         Ok {| end_position := position; end_direction := direction;
               last_isSwitch := true; last_isDeadEnd := false; last_isTarget := false;
               other_agent_encountered := other_agent_encountered;
               other_target_encountered := other_target_encountered |}
       else
         Ok {| end_position := position; end_direction := direction;
               last_isSwitch := false; last_isDeadEnd := false; last_isTarget := false;
               other_agent_encountered := other_agent_encountered;
               other_target_encountered := other_target_encountered |}).
Proof. reflexivity. Qed.

(** On a rail that stays in the grid a corridor walk started on the grid
    raises nothing, and ends on the grid with one of the four headings. *)
Lemma walk_sound fuel self env handle t :
  rail_stays_in_grid env -> getitem (agents_target env) handle = Ok t ->
  forall p d oa ot, in_grid env p = true -> 0 <= d < 4 ->
    walk fuel self env handle p d oa ot = OutOfFuel \/
    exists w, walk fuel self env handle p d oa ot = Ok w /\
              in_grid env (end_position w) = true /\ 0 <= end_direction w < 4.
Proof.
  intros Hrail Ht. induction fuel as [|fuel IH]; intros p d oa ot Hp Hd; [by left|].
  rewrite walk_unfold. cbv zeta. rewrite Ht, ret_bind.
  destruct ((p.1 =? t.1) && (p.2 =? t.2)); [right; eexists; split; [reflexivity|]; done|].
  destruct (count_nonzero (get_transitions (rail env) p d) =? 1).
  - destruct (nbits _ =? 1); [right; eexists; split; [reflexivity|]; done|].
    destruct (first_exit _ 0) as [i|] eqn:Hi.
    + apply first_exit_sound in Hi as [Hi Hti].
      destruct (_new_position_Some p i Hi) as [q Hq]. rewrite Hq.
      unfold of_option. rewrite ret_bind.
      apply IH; [| done]. by eapply Hrail.
    + by apply IH.
  - destruct (0 <? _); right; eexists; (split; [reflexivity|]); done.
Qed.

Lemma branch_directions_range d bd : bd ∈ branch_directions d -> 0 <= bd < 4.
Proof.
  unfold branch_directions. rewrite list_elem_of_fmap.
  intros (i & -> & _). apply Z.mod_pos_bound. lia.
Qed.

Lemma _explore_branch_returns levels fuel self env handle t :
  rail_stays_in_grid env -> getitem (agents_target env) handle = Ok t ->
  distance_map_covers self env handle ->
  (forall p d, in_grid env p = true -> 0 <= d < 4 ->
     walk fuel self env handle p d false false <> OutOfFuel) ->
  forall position direction depth,
    (max_depth self + 1 - depth <= levels)%nat ->
    in_grid env position = true -> 0 <= direction < 4 ->
    exists obs,
      _explore_branch levels fuel self env handle position direction depth = Ok obs.
Proof.
  intros Hrail Ht Hdm Hwalk.
  induction levels as [|levels IH]; intros position direction depth Hlev Hp Hd;
    rewrite _explore_branch_unfold;
    destruct (Nat.leb_spec (max_depth self + 1) depth) as [Hdepth | Hdepth];
    try (by eexists); try lia.
  destruct (walk_sound fuel self env handle t Hrail Ht position direction false false Hp Hd)
    as [Hout | (w & Hw & Hwp & Hwd)]; [by apply Hwalk in Hout|].
  rewrite Hw, ret_bind. cbv zeta.
  assert (exists obs0,
    (if last_isTarget w
     then Ok [Fin 0; if other_target_encountered w then Fin 1 else Fin 0;
              if other_agent_encountered w then Fin 1 else Fin 0; Fin 0; Fin 0]
     else dm_get (distance_map self) handle (end_position w).1 (end_position w).2
                 (end_direction w)
          ≫= fun d => Ok [Fin 0; if other_target_encountered w then Fin 1 else Fin 0;
                          if other_agent_encountered w then Fin 1 else Fin 0;
                          Fin 0; d]) = Ok obs0) as [obs0 Hobs0].
  { destruct (last_isTarget w); [by eexists|].
    destruct (Hdm (end_position w) (end_direction w) Hwp Hwd) as [dd ->]. by eexists. }
  rewrite Hobs0, ret_bind.
  apply for_each_returns.
  intros bd l Hbd. apply branch_directions_range in Hbd.
  assert (0 <= (bd + 2) mod 4 < 4) as Hbd2 by (apply Z.mod_pos_bound; lia).
  destruct (last_isDeadEnd w && _) eqn:Hdead.
  { apply andb_true_iff in Hdead as [_ Htr].
    destruct (_new_position_Some (end_position w) _ Hbd2) as [q Hq]. rewrite Hq. simpl.
    destruct (IH q ((bd + 2) mod 4) (depth + 1)%nat) as [o ->]; [lia | | done |].
    - by eapply Hrail.
    - simpl. by eexists. }
  destruct (last_isSwitch w && _) eqn:Hswitch.
  { apply andb_true_iff in Hswitch as [_ Htr].
    destruct (_new_position_Some (end_position w) _ Hbd) as [q Hq]. rewrite Hq. simpl.
    destruct (IH q bd (depth + 1)%nat) as [o ->]; [lia | | done |].
    - by eapply Hrail.
    - simpl. by eexists. }
  by eexists.
Qed.

Lemma get_returns fuel self env handle :
  rail_stays_in_grid env -> agent_on_grid env handle ->
  distance_map_covers self env handle -> corridors_end fuel self env handle ->
  exists self' obs, get fuel self env handle = Ok (self', obs).
Proof.
  intros Hrail (p & o & t & Hp & Ho & Ht & Hgrid & Hdir) Hdm Hwalk.
  unfold get. cbv zeta. rewrite Hp, ret_bind, Ho, ret_bind.
  destruct (Hdm p o Hgrid Hdir) as [d Hd].
  change (distance_map (set_location_has_agent _ self)) with (distance_map self).
  rewrite Hd, ret_bind.
  match goal with
  | |- context [for_each ?body ?xs ?acc] =>
      assert (exists obs, for_each body xs acc = Ok obs) as [obs Hobs];
        [apply for_each_returns | rewrite Hobs; simpl; by do 2 eexists]
  end.
  intros bd l Hbd. apply branch_directions_range in Hbd.
  destruct (get_transition _ _ _ _) eqn:Htr; [| by eexists].
  destruct (_new_position_Some p bd Hbd) as [q Hq]. rewrite Hq. simpl.
  destruct (_explore_branch_returns (max_depth self + 1) fuel (refreshed self env)
              env handle t Hrail Ht Hdm Hwalk q bd 1%nat) as [b Hb].
  - simpl. lia.
  - by eapply Hrail.
  - done.
  - unfold refreshed in Hb. rewrite Hb. simpl. by eexists.
Qed.

Lemma four_headings d : 0 <= d < 4 -> d = 0 \/ d = 1 \/ d = 2 \/ d = 3.
Proof. lia. Qed.

(** *** A loop *)

(** On a loop without switch, dead end or target the corridor walk does
    not end: it uses up any fuel. *)
Lemma walk_on_loop_runs_out fuel self :
  forall oa ot,
    walk fuel self (env_of loop_train) 0 (0, 1) 1 oa ot = OutOfFuel /\
    walk fuel self (env_of loop_train) 0 (0, 0) 3 oa ot = OutOfFuel.
Proof.
  induction fuel as [|fuel IH]; intros oa ot; [by split|].
  split; rewrite walk_unfold; cbv zeta.
  - change (getitem (agents_target (env_of loop_train)) 0) with (@Ok pos (0, 2)).
    rewrite ret_bind.
    change (get_transitions (rail (env_of loop_train)) (0, 1) 1)
      with [false; false; false; true].
    change (get_cell_transitions (rail (env_of loop_train)) (0, 1)) with 129.
    simpl. apply IH.
  - change (getitem (agents_target (env_of loop_train)) 0) with (@Ok pos (0, 2)).
    rewrite ret_bind.
    change (get_transitions (rail (env_of loop_train)) (0, 0) 3)
      with [false; true; false; false].
    change (get_cell_transitions (rail (env_of loop_train)) (0, 0)) with 8193.
    simpl. apply IH.
Qed.

(** There, for a builder of depth at least 1, [get] returns no observation,
    whatever the fuel. *)
Lemma get_on_loop_never_returns fuel self d self' obs :
  max_depth self = S d ->
  get fuel self (env_of loop_train) 0 <> Ok (self', obs).
Proof.
  intros Hd H. unfold get in H. cbv zeta in H.
  change (getitem (agents_position (env_of loop_train)) 0) with (@Ok pos (0, 0)) in H.
  change (getitem (agents_direction (env_of loop_train)) 0) with (@Ok Z 3) in H.
  rewrite !ret_bind in H.
  apply bind_Ok in H as (x & _ & H).
  apply bind_Ok in H as (o & Ho & _).
  change (branch_directions 3) with [2; 3; 0; 1] in Ho.
  change (for_each ?f [2; 3; 0; 1] ?s)
    with (f 2 s ≫= fun a1 => f 3 a1 ≫= fun a2 => f 0 a2 ≫= fun a3 => f 1 a3 ≫= Ok) in Ho.
  cbv beta in Ho.
  change (get_transition (rail (env_of loop_train)) (0, 0) 3 2) with false in Ho.
  change (get_transition (rail (env_of loop_train)) (0, 0) 3 3) with false in Ho.
  change (get_transition (rail (env_of loop_train)) (0, 0) 3 0) with false in Ho.
  change (get_transition (rail (env_of loop_train)) (0, 0) 3 1) with true in Ho.
  cbv iota in Ho. rewrite !ret_bind in Ho.
  change (_new_position (0, 0) 1) with (Some (0, 1)) in Ho.
  simpl of_option in Ho. rewrite ret_bind in Ho.
  rewrite _explore_branch_unfold in Ho.
  simpl max_depth in Ho. rewrite Hd in Ho.
  replace (S d + 1 <=? 1)%nat with false in Ho
    by (symmetry; apply Nat.leb_gt; lia).
  replace (S d + 1)%nat with (S (S d)) in Ho by lia.
  destruct (walk_on_loop_runs_out fuel
              (set_location_has_agent (list_to_set (agents_position (env_of loop_train))) self)
              false false) as [Hw _].
  rewrite Hw in Ho. discriminate Ho.
Qed.

(** *** A ring *)

(** On the ring the corridor walk goes round and round: none of the four
    curves is the target, a dead end or a switch, so the walk uses up any
    fuel. *)
Lemma walk_on_ring_runs_out fuel self :
  forall oa ot,
    walk fuel self (env_of ring_train) 0 (0, 1) 1 oa ot = OutOfFuel /\
    walk fuel self (env_of ring_train) 0 (1, 1) 2 oa ot = OutOfFuel /\
    walk fuel self (env_of ring_train) 0 (1, 0) 3 oa ot = OutOfFuel /\
    walk fuel self (env_of ring_train) 0 (0, 0) 0 oa ot = OutOfFuel.
Proof.
  induction fuel as [|fuel IH]; intros oa ot; [by repeat split|].
  repeat split; rewrite walk_unfold; cbv zeta;
    change (getitem (agents_target (env_of ring_train)) 0) with (@Ok pos (0, 2));
    rewrite ret_bind.
  - change (get_transitions (rail (env_of ring_train)) (0, 1) 1)
      with [false; false; true; false].
    change (get_cell_transitions (rail (env_of ring_train)) (0, 1)) with 72.
    simpl. apply IH.
  - change (get_transitions (rail (env_of ring_train)) (1, 1) 2)
      with [false; false; false; true].
    change (get_cell_transitions (rail (env_of ring_train)) (1, 1)) with 2064.
    simpl. apply IH.
  - change (get_transitions (rail (env_of ring_train)) (1, 0) 3)
      with [true; false; false; false].
    change (get_cell_transitions (rail (env_of ring_train)) (1, 0)) with 4608.
    simpl. apply IH.
  - change (get_transitions (rail (env_of ring_train)) (0, 0) 0)
      with [false; true; false; false].
    change (get_cell_transitions (rail (env_of ring_train)) (0, 0)) with 16386.
    simpl. apply IH.
Qed.

(** C3.  On a closed ring [get] returns no observation at all.  The ring
    is made of four curves; the train stands on it and its target lies off
    the ring.  [reset] returns on this map (no cell leads into the target),
    and [get], for a builder of any depth from 1 on, then follows the ring
    from the cell ahead of the agent and never leaves the loop
    [while exploring]: whatever the fuel, the model runs out of it. *)
Theorem get_never_returns_on_ring (fuel fuel' d : nat) :
  reset fuel (new_builder (S d)) (env_of ring_train) = Ok (ring_builder (S d)) /\
  get fuel' (ring_builder (S d)) (env_of ring_train) 0 = OutOfFuel.
Proof.
  split.
  - destruct fuel; vm_compute; reflexivity.
  - unfold get. cbv zeta.
    change (getitem (agents_position (env_of ring_train)) 0) with (@Ok pos (0, 0)).
    change (getitem (agents_direction (env_of ring_train)) 0) with (@Ok Z 0).
    rewrite !ret_bind.
    change (dm_get _ 0 (0, 0).1 (0, 0).2 0) with (@Ok xnum PosInf).
    rewrite ret_bind.
    change (branch_directions 0) with [3; 0; 1; 2].
    change (for_each ?f [3; 0; 1; 2] ?s)
      with (f 3 s ≫= fun a1 => f 0 a1 ≫= fun a2 => f 1 a2 ≫= fun a3 => f 2 a3 ≫= Ok).
    cbv beta.
    change (get_transition (rail (env_of ring_train)) (0, 0) 0 3) with false.
    change (get_transition (rail (env_of ring_train)) (0, 0) 0 0) with false.
    change (get_transition (rail (env_of ring_train)) (0, 0) 0 1) with true.
    cbv iota. rewrite !ret_bind.
    change (_new_position (0, 0) 1) with (Some (0, 1)).
    simpl of_option. rewrite ret_bind.
    rewrite _explore_branch_unfold.
    simpl max_depth.
    replace (S d + 1 <=? 1)%nat with false by (symmetry; apply Nat.leb_gt; lia).
    replace (S d + 1)%nat with (S (S d)) by lia.
    destruct (walk_on_ring_runs_out fuel'
                (set_location_has_agent
                   (list_to_set (agents_position (env_of ring_train)))
                   (ring_builder (S d)))
                false false) as [Hw _].
    rewrite Hw. reflexivity.
Qed.

(** ** The distance map *)

(** A neighbour of the target with a transition toward it stops the first
    loop of [_get_and_update_neighbors] at [min(row, current_distance+1)]. *)
Lemma neighbors_by_direction_raises env position target_nr current_distance
      direction dm neighbors new_cell row x y l :
  _new_position position ((direction + 2) mod 4) = Some new_cell ->
  in_grid env new_cell = true ->
  existsb (fun orientation =>
             tuple_item (get_transitions (rail env) new_cell orientation) direction)
          [0; 1; 2; 3] = true ->
  dm_row dm target_nr new_cell.1 new_cell.2 = Ok row ->
  row = x :: y :: l ->
  neighbors_by_direction env position target_nr current_distance (-1) direction
                         (dm, neighbors)
  = Raise ValueError.
Proof.
  intros Hq Hg Hv Hrow ->. unfold neighbors_by_direction.
  rewrite Hq. simpl of_option. rewrite ret_bind, Hg, Hv. simpl negb. cbv iota.
  change (0 <=? -1) with false. cbv iota. rewrite Hrow, ret_bind. reflexivity.
Qed.

Lemma neighbors_by_direction_cases env position target_nr current_distance
      direction dm neighbors :
  rows_over_grid dm env target_nr ->
  neighbors_by_direction env position target_nr current_distance (-1) direction
                         (dm, neighbors)
  = if has_predecessor env position direction
    then Raise ValueError else Ok (dm, neighbors).
Proof.
  intros Hrows. unfold has_predecessor.
  destruct (_new_position_Some position ((direction + 2) mod 4)) as [q Hq];
    [apply Z.mod_pos_bound; lia|].
  rewrite Hq. destruct (in_grid env q) eqn:Hg;
    [rewrite andb_true_l | rewrite andb_false_l].
  - match goal with |- context [existsb ?f ?l] => destruct (existsb f l) eqn:Hv end.
    + destruct (Hrows q Hg) as (x & y & l & Hrow).
      by eapply neighbors_by_direction_raises.
    + unfold neighbors_by_direction. rewrite Hq. simpl of_option.
      rewrite ret_bind, Hg, Hv. reflexivity.
  - unfold neighbors_by_direction. rewrite Hq. simpl of_option.
    rewrite ret_bind, Hg. reflexivity.
Qed.

(** Whenever the cell has a predecessor on the grid,
    [_get_and_update_neighbors] called as the walker first calls it (no
    direction enforced) raises; so [reset] completes only for targets that
    no cell leads into. *)
Lemma _get_and_update_neighbors_raises self env position target_nr current_distance d :
  rows_over_grid (distance_map self) env target_nr ->
  d ∈ [0; 1; 2; 3] -> has_predecessor env position d = true ->
  _get_and_update_neighbors self env position target_nr current_distance (-1)
  = Raise ValueError.
Proof.
  intros Hrows Hd Hpred. unfold _get_and_update_neighbors. cbv zeta.
  assert (for_each (neighbors_by_direction env position target_nr current_distance (-1))
                   [0; 1; 2; 3] (distance_map self, [])
          = Raise ValueError) as ->; [| reflexivity].
  change (for_each ?f [0; 1; 2; 3] ?s)
    with (f 0 s ≫= fun a1 => f 1 a1 ≫= fun a2 => f 2 a2 ≫= fun a3 => f 3 a3 ≫= Ok).
  rewrite neighbors_by_direction_cases by done.
  destruct (has_predecessor env position 0) eqn:H0; [reflexivity|]. rewrite ret_bind.
  rewrite neighbors_by_direction_cases by done.
  destruct (has_predecessor env position 1) eqn:H1; [reflexivity|]. rewrite ret_bind.
  rewrite neighbors_by_direction_cases by done.
  destruct (has_predecessor env position 2) eqn:H2; [reflexivity|]. rewrite ret_bind.
  rewrite neighbors_by_direction_cases by done.
  destruct (has_predecessor env position 3) eqn:H3; [reflexivity|].
  repeat (apply elem_of_cons in Hd as [-> | Hd]; [congruence|]).
  by apply elem_of_nil in Hd.
Qed.

(** C1: on the 1x3 corridor with the train bound for C, [reset] does not
    complete.  Cell B has the transition "heading east, exit east" into C, so
    from B heading east the target is one transition away; the walker, at
    that neighbour, compares the four-entry row [distance_map[0, 0, 1]] with
    a number and raises. *)
Theorem reset_raises_on_corridor (fuel : nat) (self : TreeObs) :
  reset fuel self (env_of one_train) = Raise ValueError /\
  get_transition (rail (env_of one_train)) (0, 1) 1 1 = true /\
  _new_position (0, 1) 1 = Some (0, 2) /\
  getitem (agents_target (env_of one_train)) 0 = Ok (0, 2).
Proof. repeat split; reflexivity. Qed.

End TreeObsShape.

(** ** The layout of the tree observation *)

Section TreeObsLayout.
Import TreeObsForRailEnv.

Lemma get_branch_step fuel self env handle p o bd acc acc' :
  (if get_transition (rail env) p o bd then
     new_cell ← of_option TypeError (_new_position p bd);
     branch_observation ←
       _explore_branch (max_depth self + 1) fuel self env handle new_cell bd 1;
     Ok (acc ++ branch_observation)
   else Ok (acc ++ padding (num_cells_to_fill_in (max_depth self)))) = Ok acc' ->
  exists b, acc' = acc ++ b /\ subtree_of fuel self env handle p o bd b /\
            length b = (5 * nodes_below (max_depth self))%nat.
Proof.
  unfold subtree_of. destruct (get_transition (rail env) p o bd).
  - intros H. apply bind_Ok in H as (q & Hq & H). apply of_option_Ok in Hq.
    apply bind_Ok in H as (b & Hb & H). injection H as <-.
    exists b. split; [done|]. split; [by exists q|].
    apply _explore_branch_length in Hb. rewrite Hb. f_equal. f_equal. lia.
  - intros [= <-]. eexists. split; [done|]. split; [done|].
    by rewrite length_padding, num_cells_to_fill_in_sum.
Qed.

(** What [get] returns is the root node followed by four subtrees, for the
    directions left, forward, right and back of the agent's heading. *)
Lemma get_layout
  (fuel : nat) (self : TreeObs) (env : Env) (handle : Z)
  (self' : TreeObs) (obs : list xnum) :
  get fuel self env handle = Ok (self', obs) ->
  self' = refreshed self env /\
  exists p o d b0 b1 b2 b3,
    getitem (agents_position env) handle = Ok p /\
    getitem (agents_direction env) handle = Ok o /\
    dm_get (distance_map self) handle p.1 p.2 o = Ok d /\
    obs = [Fin 0; Fin 0; Fin 0; Fin 0; d] ++ b0 ++ b1 ++ b2 ++ b3 /\
    Forall2 (fun bd b => subtree_of fuel self' env handle p o bd b /\
                         length b = (5 * nodes_below (max_depth self))%nat)
            [(o + 3) mod 4; (o + 4) mod 4; (o + 5) mod 4; (o + 6) mod 4]
            [b0; b1; b2; b3].
Proof.
  unfold get. intros H.
  apply bind_Ok in H as (p & Hp & H). apply bind_Ok in H as (o & Ho & H).
  apply bind_Ok in H as (d & Hd & H). apply bind_Ok in H as (obs' & Hloop & H).
  injection H as <- <-. split; [done|].
  exists p, o, d.
  unfold branch_directions in Hloop.
  change ((fun i => (o + 4 + i) mod 4) <$> [-1; 0; 1; 2])
    with [(o + 4 + -1) mod 4; (o + 4 + 0) mod 4; (o + 4 + 1) mod 4; (o + 4 + 2) mod 4]
    in Hloop.
  replace (o + 4 + -1) with (o + 3) in Hloop by lia.
  replace (o + 4 + 0) with (o + 4) in Hloop by lia.
  replace (o + 4 + 1) with (o + 5) in Hloop by lia.
  replace (o + 4 + 2) with (o + 6) in Hloop by lia.
  cbn [for_each] in Hloop.
  apply bind_Ok in Hloop as (a0 & H0 & Hloop).
  apply bind_Ok in Hloop as (a1 & H1 & Hloop).
  apply bind_Ok in Hloop as (a2 & H2 & Hloop).
  apply bind_Ok in Hloop as (a3 & H3 & Hloop). injection Hloop as <-.
  apply get_branch_step in H0 as (b0 & -> & Hs0 & Hl0).
  apply get_branch_step in H1 as (b1 & -> & Hs1 & Hl1).
  apply get_branch_step in H2 as (b2 & -> & Hs2 & Hl2).
  apply get_branch_step in H3 as (b3 & -> & Hs3 & Hl3).
  exists b0, b1, b2, b3. do 3 (split; [done|]). split.
  - by rewrite <- !(assoc_L (++)).
  - repeat constructor; done.
Qed.

(** *** The corridor walk ends *)

Lemma walk_step fuel self env handle t p d oa ot q i :
  getitem (agents_target env) handle = Ok t ->
  corridor_next env t p d = Some (q, i) ->
  exists oa' ot',
    walk (S fuel) self env handle p d oa ot = walk fuel self env handle q i oa' ot'.
Proof.
  intros Ht Hnext. rewrite walk_unfold. cbv zeta. rewrite Ht, ret_bind.
  unfold corridor_next in Hnext. cbv zeta in Hnext.
  destruct ((p.1 =? t.1) && (p.2 =? t.2)); [done|].
  destruct (count_nonzero (get_transitions (rail env) p d) =? 1); [| done].
  destruct (nbits _ =? 1); [done|].
  destruct (first_exit _ 0) as [j|].
  - destruct (_new_position p j) as [q'|]; [| done]. simpl in Hnext.
    injection Hnext as -> ->. simpl. by do 2 eexists.
  - injection Hnext as <- <-. by do 2 eexists.
Qed.

Lemma walk_stops fuel self env handle t p d oa ot :
  getitem (agents_target env) handle = Ok t ->
  0 <= d < 4 ->
  corridor_next env t p d = None ->
  exists w, walk (S fuel) self env handle p d oa ot = Ok w.
Proof.
  intros Ht Hd Hnext. rewrite walk_unfold. cbv zeta. rewrite Ht, ret_bind.
  unfold corridor_next in Hnext. cbv zeta in Hnext.
  destruct ((p.1 =? t.1) && (p.2 =? t.2)); [by eexists|].
  destruct (count_nonzero (get_transitions (rail env) p d) =? 1).
  - destruct (nbits _ =? 1); [by eexists|].
    destruct (first_exit _ 0) as [j|] eqn:Hj; [| done].
    apply first_exit_sound in Hj as [Hj _].
    destruct (_new_position_Some p j Hj) as [q Hq]. rewrite Hq in Hnext. done.
  - destruct (0 <? _); by eexists.
Qed.

(** Where no corridor is closed, the corridor walk ends: fuel above the
    rank of the start suffices. *)
Lemma walk_ends self env handle t rank :
  rail_stays_in_grid env -> getitem (agents_target env) handle = Ok t ->
  corridors_descend env handle rank ->
  forall fuel p d oa ot, in_grid env p = true -> 0 <= d < 4 ->
    (rank p d < fuel)%nat ->
    walk fuel self env handle p d oa ot <> OutOfFuel.
Proof.
  intros Hrail Ht Hrank. induction fuel as [|fuel IH]; intros p d oa ot Hp Hd Hfuel; [lia|].
  destruct (corridor_next env t p d) as [[q i]|] eqn:Hnext.
  - pose proof (Hrank t p d q i Ht Hp Hd Hnext) as Hlt.
    destruct (walk_step fuel self env handle t p d oa ot q i Ht Hnext) as (oa' & ot' & ->).
    assert (in_grid env q = true /\ 0 <= i < 4) as [Hq Hi].
    { unfold corridor_next in Hnext. cbv zeta in Hnext.
      destruct ((p.1 =? t.1) && (p.2 =? t.2)); [done|].
      destruct (count_nonzero _ =? 1); [| done].
      destruct (nbits _ =? 1); [done|].
      destruct (first_exit _ 0) as [j|] eqn:Hj.
      - apply first_exit_sound in Hj as [Hj Htr].
        destruct (_new_position p j) as [q'|] eqn:Hq'; [| done]. simpl in Hnext.
        injection Hnext as -> ->. split; [| done]. by eapply Hrail.
      - injection Hnext as <- <-. done. }
    apply IH; [done | done | lia].
  - destruct (walk_stops fuel self env handle t p d oa ot Ht Hd Hnext) as [w ->]. done.
Qed.

(** X21.  On a rail without closed corridor [get] returns an observation
    of the fixed shape.  Let no transition lead off the grid, let the agent
    stand on the grid, let the distance map cover the grid, and let a rank
    decrease along every corridor step (so that no corridor is a closed
    loop).  Then, with fuel above every rank, [get] returns; the observation
    has [5 * sum_{i=0}^{max_depth} 4^i] entries; it is the root node
    [[0, 0, 0, 0, distance]] followed by four subtrees of equal length, for
    the directions left, forward, right and back of the agent's heading; and
    the subtree of a direction without transition is a run of [-inf]. *)
Theorem get_returns_observation_of_fixed_shape
  (fuel : nat) (self : TreeObs) (env : Env) (handle : Z) (rank : pos -> Z -> nat) :
  rail_stays_in_grid env ->
  agent_on_grid env handle ->
  distance_map_covers self env handle ->
  corridors_descend env handle rank ->
  (forall p d, in_grid env p = true -> 0 <= d < 4 -> (rank p d < fuel)%nat) ->
  exists obs,
    get fuel self env handle = Ok (refreshed self env, obs) /\
    length obs = (5 * geometric_sum (max_depth self))%nat /\
    exists p o d b0 b1 b2 b3,
      getitem (agents_position env) handle = Ok p /\
      getitem (agents_direction env) handle = Ok o /\
      dm_get (distance_map self) handle p.1 p.2 o = Ok d /\
      obs = [Fin 0; Fin 0; Fin 0; Fin 0; d] ++ b0 ++ b1 ++ b2 ++ b3 /\
      Forall2 (fun bd b =>
                 length b = (5 * nodes_below (max_depth self))%nat /\
                 (get_transition (rail env) p o bd = false -> Forall (fun x => x = NegInf) b))
              [(o + 3) mod 4; (o + 4) mod 4; (o + 5) mod 4; (o + 6) mod 4]
              [b0; b1; b2; b3].
Proof.
  intros Hrail Hagent Hdm Hrank Hfuel.
  assert (corridors_end fuel self env handle) as Hends.
  { destruct Hagent as (p & o & t & _ & _ & Ht & _).
    intros q d Hq Hd. eapply walk_ends; eauto. }
  destruct (get_returns fuel self env handle Hrail Hagent Hdm Hends) as (self' & obs & Hget).
  pose proof (get_length _ _ _ _ _ _ Hget) as Hlen.
  destruct (get_layout _ _ _ _ _ _ Hget)
    as (-> & p & o & d & b0 & b1 & b2 & b3 & Hp & Ho & Hd & Hobs & Hsub).
  exists obs. split; [done|]. split; [done|].
  exists p, o, d, b0, b1, b2, b3. do 4 (split; [done|]).
  eapply Forall2_impl; [exact Hsub|].
  intros bd b [Hs Hl]. split; [done|].
  intros Hno. unfold subtree_of in Hs. rewrite Hno in Hs. subst b.
  apply padding_all_NegInf.
Qed.

(** *** The junction *)

Lemma junction_cells p :
  in_grid (env_of junction_train) p = true ->
  p = (0, 0) \/ p = (0, 1) \/ p = (0, 2) \/ p = (1, 0) \/ p = (1, 1) \/ p = (1, 2).
Proof.
  destruct p as [r c]. unfold in_grid. simpl. intros H.
  repeat (apply andb_true_iff in H as [H ?]).
  assert (r = 0 \/ r = 1) as [-> | ->] by lia;
    (assert (c = 0 \/ c = 1 \/ c = 2) as [-> | [-> | ->]] by lia); auto 6.
Qed.

Lemma junction_stays_in_grid : rail_stays_in_grid (env_of junction_train).
Proof.
  intros p o d q Hp Ht Hq.
  assert (0 <= o < 4 /\ 0 <= d < 4) as [Ho Hd].
  { unfold get_transition in Ht. repeat (apply andb_true_iff in Ht as [Ht ?]). lia. }
  apply junction_cells in Hp as [-> | [-> | [-> | [-> | [-> | ->]]]]];
    apply four_headings in Ho as [-> | [-> | [-> | ->]]];
    apply four_headings in Hd as [-> | [-> | [-> | ->]]];
    vm_compute in Ht; try discriminate Ht;
    vm_compute in Hq; injection Hq as <-; reflexivity.
Qed.

Lemma junction_map_covers : distance_map_covers junction_obs (env_of junction_train) 0.
Proof.
  intros p o Hp Ho.
  apply junction_cells in Hp as [-> | [-> | [-> | [-> | [-> | ->]]]]];
    apply four_headings in Ho as [-> | [-> | [-> | ->]]];
    eexists; vm_compute; reflexivity.
Qed.

Lemma junction_agent_on_grid : agent_on_grid (env_of junction_train) 0.
Proof.
  exists (0, 0), 3, (1, 1). repeat split; try reflexivity; lia.
Qed.

Lemma junction_corridors_descend :
  corridors_descend (env_of junction_train) 0 junction_rank.
Proof.
  intros t p d q i Ht Hp Hd Hnext.
  assert (t = (1, 1)) as -> by (vm_compute in Ht; congruence).
  apply junction_cells in Hp as [-> | [-> | [-> | [-> | [-> | ->]]]]];
    apply four_headings in Hd as [-> | [-> | [-> | ->]]];
    vm_compute in Hnext; try discriminate Hnext;
    injection Hnext as <- <-; vm_compute; lia.
Qed.

Lemma get_returns_observation_of_fixed_shape_witness :
  exists obs,
    get 2 junction_obs (env_of junction_train) 0
    = Ok (refreshed junction_obs (env_of junction_train), obs) /\
    length obs = (5 * geometric_sum (max_depth junction_obs))%nat /\
    exists p o d b0 b1 b2 b3,
      getitem (agents_position (env_of junction_train)) 0 = Ok p /\
      getitem (agents_direction (env_of junction_train)) 0 = Ok o /\
      dm_get (distance_map junction_obs) 0 p.1 p.2 o = Ok d /\
      obs = [Fin 0; Fin 0; Fin 0; Fin 0; d] ++ b0 ++ b1 ++ b2 ++ b3 /\
      Forall2 (fun bd b =>
                 length b = (5 * nodes_below (max_depth junction_obs))%nat /\
                 (get_transition (rail (env_of junction_train)) p o bd = false ->
                  Forall (fun x => x = NegInf) b))
              [(o + 3) mod 4; (o + 4) mod 4; (o + 5) mod 4; (o + 6) mod 4]
              [b0; b1; b2; b3].
Proof.
  apply (get_returns_observation_of_fixed_shape 2 junction_obs (env_of junction_train) 0
           junction_rank).
  - exact junction_stays_in_grid.
  - exact junction_agent_on_grid.
  - exact junction_map_covers.
  - exact junction_corridors_descend.
  - intros p d _ _. unfold junction_rank. destruct (pos_eqb p (0, 1)); lia.
Defined.

(** On the junction the exploration goes through the switch to the dead
    end and to the target, and it needs its fuel. *)
Lemma get_on_junction :
  get 2 junction_obs (env_of junction_train) 0
  = Ok (refreshed junction_obs (env_of junction_train),
        [Fin 0; Fin 0; Fin 0; Fin 0; Fin 3]
          ++ padding 5 ++ padding 5 ++ padding 5
          ++ ([Fin 0; Fin 0; Fin 0; Fin 0; Fin 1]
                ++ padding 1
                ++ [Fin 0; Fin 0; Fin 0; Fin 0; Fin 3]
                ++ [Fin 0; Fin 1; Fin 0; Fin 0; Fin 0]
                ++ padding 1)) /\
  get 0 junction_obs (env_of junction_train) 0 = OutOfFuel.
Proof. split; vm_compute; reflexivity. Qed.

End TreeObsLayout.

(** ** The distance map walker *)

Section DistanceMap.
Import TreeObsForRailEnv.

(** *** Indexing *)

Lemma index_lt n i k : index n i = Ok k -> (k < n)%nat.
Proof.
  unfold index. repeat case_match; intros [= <-]; lia.
Qed.

Lemma index_nonneg n i : 0 <= i < Z.of_nat n -> index n i = Ok (Z.to_nat i).
Proof.
  intros Hi. unfold index.
  assert ((0 <=? i) && (i <? Z.of_nat n) = true) as -> by lia. done.
Qed.

Lemma index_nonneg_inv n i k : 0 <= i -> index n i = Ok k -> k = Z.to_nat i.
Proof.
  intros Hi. unfold index. repeat case_match; intros [= <-]; lia.
Qed.

Lemma getitem_Ok {A} (l : list A) i x :
  getitem l i = Ok x -> exists k, index (length l) i = Ok k /\ l !! k = Some x.
Proof.
  unfold getitem. intros H. apply bind_Ok in H as (k & Hk & H).
  apply of_option_Ok in H. by exists k.
Qed.

Lemma getitem_lookup {A} (l : list A) i k x :
  index (length l) i = Ok k -> l !! k = Some x -> getitem l i = Ok x.
Proof. unfold getitem. intros -> Hx. simpl. by rewrite Hx. Qed.

Lemma getitem_nonneg {A} (l : list A) i :
  0 <= i -> getitem l i = of_option IndexError (l !! Z.to_nat i).
Proof.
  intros Hi. unfold getitem, index.
  destruct (decide (i < Z.of_nat (length l))) as [Hlt | Hge].
  - assert ((0 <=? i) && (i <? Z.of_nat (length l)) = true) as -> by lia. done.
  - assert ((0 <=? i) && (i <? Z.of_nat (length l)) = false) as -> by lia.
    assert ((- Z.of_nat (length l) <=? i) && (i <? 0) = false) as -> by lia.
    simpl. rewrite lookup_ge_None_2; [done | lia].
Qed.

Lemma setitem_nonneg {A} (l : list A) i x :
  0 <= i < Z.of_nat (length l) -> setitem l i x = Ok (<[Z.to_nat i := x]> l).
Proof. intros Hi. unfold setitem. by rewrite index_nonneg. Qed.

(** *** Rows of the distance map at cells of the grid *)

Lemma dm_row_nonneg dm a r c :
  0 <= a -> 0 <= r -> 0 <= c ->
  dm_row dm a r c = of_option IndexError (row_at dm a r c).
Proof.
  intros Ha Hr Hc. unfold dm_row, row_at.
  rewrite (getitem_nonneg dm) by done.
  destruct (_ !! Z.to_nat a) as [plane|]; [| reflexivity]. simpl.
  rewrite (getitem_nonneg plane) by done.
  destruct (_ !! Z.to_nat r) as [line|]; [| reflexivity]. simpl.
  by rewrite (getitem_nonneg line).
Qed.

Lemma dm_row_Ok dm a r c row :
  0 <= a -> 0 <= r -> 0 <= c ->
  dm_row dm a r c = Ok row <-> row_at dm a r c = Some row.
Proof.
  intros Ha Hr Hc. rewrite dm_row_nonneg by done.
  destruct (row_at dm a r c); simpl; split; congruence.
Qed.

(** Writing a row at a cell changes the row of that cell only. *)
Lemma dm_set_row_spec dm a r c row0 row :
  0 <= a -> 0 <= r -> 0 <= c ->
  row_at dm a r c = Some row0 ->
  exists dm', dm_set_row dm a r c row = Ok dm' /\
    forall a' r' c', 0 <= a' -> 0 <= r' -> 0 <= c' ->
      row_at dm' a' r' c'
      = if decide (a' = a /\ r' = r /\ c' = c) then Some row else row_at dm a' r' c'.
Proof.
  intros Ha Hr Hc Hrow. unfold row_at in Hrow.
  destruct (_ !! Z.to_nat a) as [plane|] eqn:Hplane; [| done]. simpl in Hrow.
  destruct (_ !! Z.to_nat r) as [line|] eqn:Hline; [| done]. simpl in Hrow.
  pose proof (lookup_lt_Some _ _ _ Hplane) as Hla.
  pose proof (lookup_lt_Some _ _ _ Hline) as Hlr.
  pose proof (lookup_lt_Some _ _ _ Hrow) as Hlc.
  unfold dm_set_row.
  rewrite (getitem_nonneg dm), Hplane by done. simpl.
  rewrite (getitem_nonneg plane), Hline by done. simpl.
  rewrite (setitem_nonneg line) by lia. simpl.
  rewrite (setitem_nonneg plane) by lia. simpl.
  rewrite (setitem_nonneg dm) by lia.
  eexists. split; [reflexivity|].
  intros a' r' c' Ha' Hr' Hc'. unfold row_at.
  destruct (decide (Z.to_nat a' = Z.to_nat a)) as [Ea | Ea].
  - rewrite Ea, list_lookup_insert_eq by done. simpl.
    destruct (decide (Z.to_nat r' = Z.to_nat r)) as [Er | Er].
    + rewrite Er, list_lookup_insert_eq by done. simpl.
      destruct (decide (Z.to_nat c' = Z.to_nat c)) as [Ec | Ec].
      * rewrite Ec, list_lookup_insert_eq by done.
        destruct (decide _) as [_ | Hn]; [done|]. destruct Hn. lia.
      * rewrite list_lookup_insert_ne by done.
        destruct (decide _) as [(_ & _ & ->) | _]; [done|].
        by rewrite Hplane; simpl; rewrite Hline.
    + rewrite list_lookup_insert_ne by done.
      destruct (decide _) as [(_ & -> & _) | _]; [done|].
      by rewrite Hplane.
  - rewrite list_lookup_insert_ne by done.
    destruct (decide _) as [(-> & _ & _) | _]; done.
Qed.

Lemma dm_set_spec dm a r c o v row0 :
  0 <= a -> 0 <= r -> 0 <= c -> 0 <= o < Z.of_nat (length row0) ->
  row_at dm a r c = Some row0 ->
  exists dm', dm_set dm a r c o v = Ok dm' /\
    forall a' r' c', 0 <= a' -> 0 <= r' -> 0 <= c' ->
      row_at dm' a' r' c'
      = if decide (a' = a /\ r' = r /\ c' = c)
        then Some (<[Z.to_nat o := v]> row0) else row_at dm a' r' c'.
Proof.
  intros Ha Hr Hc Ho Hrow. unfold dm_set.
  rewrite dm_row_nonneg, Hrow by done. simpl.
  rewrite setitem_nonneg by done. simpl.
  by apply dm_set_row_spec with row0.
Qed.

Lemma in_grid_nonneg env cell : in_grid env cell = true -> 0 <= cell.1 /\ 0 <= cell.2.
Proof. unfold in_grid. lia. Qed.

Lemma rows_of_four_row_at dm env n a cell :
  rows_of_four dm env n -> 0 <= a < Z.of_nat n -> in_grid env cell = true ->
  exists row, row_at dm a cell.1 cell.2 = Some row /\ length row = 4%nat.
Proof.
  intros Hrows Ha Hcell. destruct (Hrows a cell Ha Hcell) as (row & Hrow & Hlen).
  destruct (in_grid_nonneg _ _ Hcell). exists row. split; [| done].
  apply dm_row_Ok; [lia | done | done | done].
Qed.

Lemma rows_of_four_over_grid dm env n target_nr :
  rows_of_four dm env n -> 0 <= target_nr < Z.of_nat n -> rows_over_grid dm env target_nr.
Proof.
  intros Hrows Ha cell Hcell. destruct (Hrows target_nr cell Ha Hcell) as (row & Hrow & Hlen).
  destruct row as [|x [|y l]]; try done. by exists x, y, l.
Qed.

(** *** The target's own entries *)

(** Lines 83-84: the four entries of the target cell are set to 0, and no
    other row of the map changes. *)
Lemma walker_zeroes_target dm env n target_nr position :
  rows_of_four dm env n -> 0 <= target_nr < Z.of_nat n -> in_grid env position = true ->
  exists dm0,
    for_each (fun ori dm => dm_set dm target_nr position.1 position.2 ori (Fin 0))
             [0; 1; 2; 3] dm = Ok dm0 /\
    rows_of_four dm0 env n /\
    dm_row dm0 target_nr position.1 position.2 = Ok [Fin 0; Fin 0; Fin 0; Fin 0] /\
    forall a cell, 0 <= a -> in_grid env cell = true ->
      (a, cell) <> (target_nr, position) ->
      dm_row dm0 a cell.1 cell.2 = dm_row dm a cell.1 cell.2.
Proof.
  intros Hrows Ha Hpos.
  destruct (rows_of_four_row_at _ _ _ _ _ Hrows Ha Hpos) as (row & Hrow & Hlen).
  destruct (in_grid_nonneg _ _ Hpos) as [Hr Hc].
  destruct row as [|x0 [|x1 [|x2 [|x3 [|x4 row]]]]]; try done. clear Hlen.
  cbn [for_each].
  destruct (dm_set_spec dm target_nr position.1 position.2 0 (Fin 0) [x0; x1; x2; x3]
              ltac:(lia) Hr Hc ltac:(simpl; lia) Hrow) as (dm1 & -> & H1).
  rewrite ret_bind.
  pose proof (H1 target_nr position.1 position.2 ltac:(lia) Hr Hc) as Hrow1.
  rewrite decide_True in Hrow1 by done. simpl in Hrow1.
  destruct (dm_set_spec dm1 target_nr position.1 position.2 1 (Fin 0) [Fin 0; x1; x2; x3]
              ltac:(lia) Hr Hc ltac:(simpl; lia) Hrow1) as (dm2 & -> & H2).
  rewrite ret_bind.
  pose proof (H2 target_nr position.1 position.2 ltac:(lia) Hr Hc) as Hrow2.
  rewrite decide_True in Hrow2 by done. simpl in Hrow2.
  destruct (dm_set_spec dm2 target_nr position.1 position.2 2 (Fin 0) [Fin 0; Fin 0; x2; x3]
              ltac:(lia) Hr Hc ltac:(simpl; lia) Hrow2) as (dm3 & -> & H3).
  rewrite ret_bind.
  pose proof (H3 target_nr position.1 position.2 ltac:(lia) Hr Hc) as Hrow3.
  rewrite decide_True in Hrow3 by done. simpl in Hrow3.
  destruct (dm_set_spec dm3 target_nr position.1 position.2 3 (Fin 0) [Fin 0; Fin 0; Fin 0; x3]
              ltac:(lia) Hr Hc ltac:(simpl; lia) Hrow3) as (dm4 & -> & H4).
  rewrite ret_bind.
  pose proof (H4 target_nr position.1 position.2 ltac:(lia) Hr Hc) as Hrow4.
  rewrite decide_True in Hrow4 by done. simpl in Hrow4.
  assert (forall a cell, 0 <= a -> in_grid env cell = true ->
            (a, cell) <> (target_nr, position) ->
            row_at dm4 a cell.1 cell.2 = row_at dm a cell.1 cell.2) as Hother.
  { intros a cell Ha' Hcell Hne.
    destruct (in_grid_nonneg _ _ Hcell) as [Hr' Hc'].
    assert (~ (a = target_nr /\ cell.1 = position.1 /\ cell.2 = position.2)) as Hn.
    { intros (-> & E1 & E2). apply Hne. f_equal.
      destruct cell, position. simpl in *. congruence. }
    rewrite H4, H3, H2, H1 by done. by rewrite !decide_False by done. }
  exists dm4. split; [done|]. split; [| split].
  - intros a cell Ha' Hcell. destruct (in_grid_nonneg _ _ Hcell) as [Hr' Hc'].
    destruct (decide ((a, cell) = (target_nr, position))) as [[= -> ->] | Hne].
    + eexists. split; [apply dm_row_Ok; [lia | done | done | exact Hrow4] | done].
    + destruct (rows_of_four_row_at _ _ _ _ _ Hrows Ha' Hcell) as (row' & Hrow' & Hlen').
      exists row'. split; [| done].
      apply dm_row_Ok; [lia | done | done |]. rewrite Hother; [done | lia | done | done].
  - apply dm_row_Ok; [lia | done | done | done].
  - intros a cell Ha' Hcell Hne. destruct (in_grid_nonneg _ _ Hcell) as [Hr' Hc'].
    rewrite !dm_row_nonneg by done. by rewrite Hother.
Qed.


(** *** A target that no cell leads into *)

Lemma tuple_item_get_transitions r p o d :
  d ∈ [0; 1; 2; 3] -> tuple_item (get_transitions r p o) d = get_transition r p o d.
Proof.
  intros Hd. unfold tuple_item, get_transitions.
  repeat (apply elem_of_cons in Hd as [-> | Hd]; [reflexivity|]).
  by apply elem_of_nil in Hd.
Qed.

Lemma neighbors_by_orientation_invalid env new_cell target_nr cd desired ori acc :
  get_transition (rail env) new_cell ori desired = false ->
  neighbors_by_orientation env new_cell target_nr cd desired ori acc = Ok acc.
Proof. intros H. unfold neighbors_by_orientation. destruct acc. by rewrite H. Qed.

Lemma neighbors_from_isolated env position target_nr cd nd acc :
  nd ∈ [0; 1; 2; 3] ->
  has_predecessor env position ((nd + 2) mod 4) = false ->
  neighbors_from env position target_nr cd nd acc = Ok acc.
Proof.
  intros Hnd Hpred. unfold neighbors_from.
  destruct (_new_position_Some position nd) as [q Hq].
  { repeat (apply elem_of_cons in Hnd as [-> | Hnd]; [lia|]). by apply elem_of_nil in Hnd. }
  rewrite Hq. simpl of_option. rewrite ret_bind.
  destruct (in_grid env q) eqn:Hg; [| done].
  unfold has_predecessor in Hpred.
  assert (((nd + 2) mod 4 + 2) mod 4 = nd) as Hback.
  { repeat (apply elem_of_cons in Hnd as [-> | Hnd]; [reflexivity|]).
    by apply elem_of_nil in Hnd. }
  rewrite Hback, Hq, Hg, andb_true_l in Hpred.
  assert ((nd + 2) mod 4 ∈ [0; 1; 2; 3]) as Hd.
  { repeat (apply elem_of_cons in Hnd as [-> | Hnd];
            [simpl; repeat constructor|]). by apply elem_of_nil in Hnd. }
  cbn [existsb] in Hpred. rewrite !tuple_item_get_transitions in Hpred by done.
  rewrite orb_false_r in Hpred.
  apply orb_false_iff in Hpred as [H0 Hpred]. apply orb_false_iff in Hpred as [H1 Hpred].
  apply orb_false_iff in Hpred as [H2 H3].
  cbn [for_each].
  do 4 (rewrite neighbors_by_orientation_invalid, ret_bind by done).
  done.
Qed.

Lemma _get_and_update_neighbors_isolated self env position target_nr cd :
  rows_over_grid (distance_map self) env target_nr ->
  target_reachable env position = false ->
  _get_and_update_neighbors self env position target_nr cd (-1)
  = Ok (set_distance_map (distance_map self) self, []).
Proof.
  intros Hrows Hiso. unfold target_reachable in Hiso. cbn [existsb] in Hiso.
  rewrite orb_false_r in Hiso.
  apply orb_false_iff in Hiso as [H0 Hiso]. apply orb_false_iff in Hiso as [H1 Hiso].
  apply orb_false_iff in Hiso as [H2 H3].
  unfold _get_and_update_neighbors. cbv zeta. cbn [for_each].
  rewrite neighbors_by_direction_cases, H0, ret_bind by done.
  rewrite neighbors_by_direction_cases, H1, ret_bind by done.
  rewrite neighbors_by_direction_cases, H2, ret_bind by done.
  rewrite neighbors_by_direction_cases, H3, ret_bind by done.
  rewrite ret_bind.
  change (0 <=? -1) with false. cbv iota. cbn [for_each].
  rewrite (neighbors_from_isolated env position target_nr cd 0), ret_bind;
    [| repeat constructor | done].
  rewrite (neighbors_from_isolated env position target_nr cd 1), ret_bind;
    [| repeat constructor | done].
  rewrite (neighbors_from_isolated env position target_nr cd 2), ret_bind;
    [| repeat constructor | done].
  rewrite (neighbors_from_isolated env position target_nr cd 3), ret_bind;
    [| repeat constructor | done].
  reflexivity.
Qed.

Lemma target_reachable_direction env position :
  target_reachable env position = true ->
  exists d, d ∈ [0; 1; 2; 3] /\ has_predecessor env position d = true.
Proof.
  unfold target_reachable. cbn [existsb]. rewrite orb_false_r.
  intros H. apply orb_true_iff in H as [H | H]; [exists 0; split; [repeat constructor | done]|].
  apply orb_true_iff in H as [H | H]; [exists 1; split; [repeat constructor | done]|].
  apply orb_true_iff in H as [H | H]; [exists 2 | exists 3]; (split; [repeat constructor | done]).
Qed.

Lemma walk_queue_nil fuel self env target_nr visited max_distance :
  walk_queue fuel self env target_nr [] visited max_distance = Ok (self, max_distance).
Proof. by destruct fuel. Qed.

(** What [_distance_map_walker] does on a map allocated by [reset]. *)
Lemma walker_cases fuel self env n position target_nr :
  rows_of_four (distance_map self) env n ->
  0 <= target_nr < Z.of_nat n ->
  in_grid env position = true ->
  if target_reachable env position
  then _distance_map_walker fuel self env position target_nr = Raise ValueError
  else exists self',
    _distance_map_walker fuel self env position target_nr = Ok (self', Fin 0) /\
    max_depth self' = max_depth self /\ max_dist self' = max_dist self /\
    location_has_target self' = location_has_target self /\
    location_has_agent self' = location_has_agent self /\
    rows_of_four (distance_map self') env n /\
    dm_row (distance_map self') target_nr position.1 position.2
    = Ok [Fin 0; Fin 0; Fin 0; Fin 0] /\
    forall a cell, 0 <= a -> in_grid env cell = true ->
      (a, cell) <> (target_nr, position) ->
      dm_row (distance_map self') a cell.1 cell.2
      = dm_row (distance_map self) a cell.1 cell.2.
Proof.
  intros Hrows Ha Hpos.
  destruct (walker_zeroes_target _ _ _ _ _ Hrows Ha Hpos)
    as (dm0 & Hzero & Hrows0 & Htarget & Hother).
  unfold _distance_map_walker. rewrite Hzero, ret_bind.
  assert (rows_over_grid (distance_map (set_distance_map dm0 self)) env target_nr) as Hover.
  { simpl. by eapply rows_of_four_over_grid. }
  destruct (target_reachable env position) eqn:Hreach.
  - apply target_reachable_direction in Hreach as (d & Hd & Hpred).
    by rewrite (_get_and_update_neighbors_raises _ _ _ _ _ d Hover Hd Hpred).
  - rewrite _get_and_update_neighbors_isolated by done. rewrite ret_bind.
    cbv zeta. rewrite walk_queue_nil.
    eexists. split; [reflexivity|]. simpl. done.
Qed.


(** X18.  [_distance_map_walker] never propagates a distance.  On a map
    with a row of four entries per agent and cell, called for a target on
    the grid, it raises ValueError if some cell of the grid has a transition
    into the target; otherwise it returns maximum distance 0, having set the
    target's four entries to 0 and changed no other row. *)
Theorem distance_map_walker_never_propagates
  (fuel : nat) (self : TreeObs) (env : Env) (n : nat) (position : pos) (target_nr : Z) :
  rows_of_four (distance_map self) env n ->
  0 <= target_nr < Z.of_nat n ->
  in_grid env position = true ->
  if target_reachable env position
  then _distance_map_walker fuel self env position target_nr = Raise ValueError
  else exists self',
    _distance_map_walker fuel self env position target_nr = Ok (self', Fin 0) /\
    dm_row (distance_map self') target_nr position.1 position.2
    = Ok [Fin 0; Fin 0; Fin 0; Fin 0] /\
    forall a cell, 0 <= a -> in_grid env cell = true ->
      (a, cell) <> (target_nr, position) ->
      dm_row (distance_map self') a cell.1 cell.2
      = dm_row (distance_map self) a cell.1 cell.2.
Proof.
  intros Hrows Ha Hpos. pose proof (walker_cases fuel _ _ _ _ _ Hrows Ha Hpos) as H.
  destruct (target_reachable env position); [done|].
  destruct H as (self' & Hw & _ & _ & _ & _ & _ & Ht & Ho). by exists self'.
Qed.

(** *** [reset] *)

Lemma rows_of_four_fresh env x :
  rows_of_four
    (replicate (number_of_agents env)
       (replicate (Z.to_nat (height env)) (replicate (Z.to_nat (width env)) (replicate 4 x))))
    env (number_of_agents env) /\
  forall a cell, 0 <= a < Z.of_nat (number_of_agents env) -> in_grid env cell = true ->
    dm_row
      (replicate (number_of_agents env)
         (replicate (Z.to_nat (height env)) (replicate (Z.to_nat (width env)) (replicate 4 x))))
      a cell.1 cell.2 = Ok [x; x; x; x].
Proof.
  assert (forall a cell, 0 <= a < Z.of_nat (number_of_agents env) -> in_grid env cell = true ->
    dm_row
      (replicate (number_of_agents env)
         (replicate (Z.to_nat (height env)) (replicate (Z.to_nat (width env)) (replicate 4 x))))
      a cell.1 cell.2 = Ok [x; x; x; x]) as H.
  { intros a cell Ha Hcell. unfold in_grid in Hcell.
    apply dm_row_Ok; [lia | lia | lia |]. unfold row_at.
    rewrite lookup_replicate_2 by lia. simpl.
    rewrite lookup_replicate_2 by lia. simpl.
    rewrite lookup_replicate_2 by lia. done. }
  split; [| done]. intros a cell Ha Hcell. eexists. split; [by apply H | done].
Qed.

Lemma for_each_raises {A S} (P : S -> Prop) (body : A -> S -> result S) xs x e :
  x ∈ xs ->
  (forall y s, y ∈ xs -> P s -> body y s = Raise e \/ exists s', body y s = Ok s' /\ P s') ->
  (forall s, P s -> body x s = Raise e) ->
  forall s, P s -> for_each body xs s = Raise e.
Proof.
  induction xs as [|y xs IH]; intros Hx Hall Hat s HP; [by apply elem_of_nil in Hx|].
  simpl. apply elem_of_cons in Hx as [<- | Hx].
  - by rewrite Hat.
  - destruct (Hall y s) as [-> | (s' & -> & HP')]; [by left | done | reflexivity |].
    simpl. apply IH; try done. intros z t Hz. apply Hall. by right.
Qed.

Lemma for_each_seq_total {S} (P : nat -> S -> Prop) (body : nat -> S -> result S) n :
  (forall i s, (i < n)%nat -> P i s -> exists s', body i s = Ok s' /\ P (Datatypes.S i) s') ->
  forall s, P 0%nat s -> exists s', for_each body (seq 0 n) s = Ok s' /\ P n s'.
Proof.
  induction n as [|n IH]; intros Hbody s HP.
  - by exists s.
  - destruct (IH (fun i t Hi => Hbody i t (Nat.lt_lt_succ_r _ _ Hi)) s HP) as (s1 & H1 & HP1).
    destruct (Hbody n s1 (Nat.lt_succ_diag_r n) HP1) as (s2 & H2 & HP2).
    exists s2. split; [| done].
    rewrite seq_S, for_each_app, H1. simpl. by rewrite H2.
Qed.

Lemma reset_agent_cases fuel env self i t :
  rows_of_four (distance_map self) env (number_of_agents env) ->
  length (max_dist self) = number_of_agents env ->
  (i < number_of_agents env)%nat ->
  agents_target env !! i = Some t -> in_grid env t = true ->
  if target_reachable env t
  then reset_agent fuel env i self = Raise ValueError
  else exists self',
    reset_agent fuel env i self = Ok self' /\
    rows_of_four (distance_map self') env (number_of_agents env) /\
    max_dist self' = <[i := Fin 0]> (max_dist self) /\
    max_depth self' = max_depth self /\
    dm_row (distance_map self') (Z.of_nat i) t.1 t.2 = Ok [Fin 0; Fin 0; Fin 0; Fin 0] /\
    forall a cell, 0 <= a -> in_grid env cell = true ->
      (a, cell) <> (Z.of_nat i, t) ->
      dm_row (distance_map self') a cell.1 cell.2
      = dm_row (distance_map self) a cell.1 cell.2.
Proof.
  intros Hrows Hlen Hi Ht Hgrid.
  pose proof (walker_cases fuel self env _ t (Z.of_nat i) Hrows ltac:(lia) Hgrid) as Hw.
  unfold reset_agent. rewrite getitem_nonneg, Nat2Z.id, Ht by lia. simpl of_option.
  rewrite ret_bind.
  destruct (target_reachable env t).
  - by rewrite Hw.
  - destruct Hw as (self' & -> & Hd & Hm & _ & _ & Hrows' & Hzero & Hother).
    rewrite ret_bind. rewrite setitem_nonneg by (rewrite Hm; lia).
    rewrite ret_bind, Nat2Z.id. eexists. split; [reflexivity|]. simpl.
    rewrite Hm. done.
Qed.

Lemma reset_unfold fuel self env :
  reset fuel self env
  = (self ← for_each (reset_agent fuel env) (seq 0 (number_of_agents env))
             (set_max_dist (replicate (number_of_agents env) (Fin 0))
                (set_distance_map
                   (replicate (number_of_agents env)
                      (replicate (Z.to_nat (height env))
                         (replicate (Z.to_nat (width env)) (replicate 4 PosInf))))
                   self));
     Ok (set_location_has_target (list_to_set (agents_target env)) self)).
Proof. reflexivity. Qed.

(** X19.  [reset] raises ValueError as soon as one agent's target can be
    entered from a neighbouring cell: with every target on the grid, if some
    cell of the grid has a transition into the target of some agent, [reset]
    does not return. *)
Theorem reset_raises_when_a_target_is_reachable
  (fuel : nat) (self : TreeObs) (env : Env) (i : nat) (t : pos) :
  targets_on_grid env ->
  (i < number_of_agents env)%nat ->
  agents_target env !! i = Some t ->
  target_reachable env t = true ->
  reset fuel self env = Raise ValueError.
Proof.
  intros Hgrid Hi Ht Hreach. rewrite reset_unfold.
  rewrite (for_each_raises
             (fun s => rows_of_four (distance_map s) env (number_of_agents env) /\
                       length (max_dist s) = number_of_agents env)
             (reset_agent fuel env) _ i ValueError); [done | | | |].
  - apply elem_of_seq. lia.
  - intros j s Hj [Hrows Hlen]. apply elem_of_seq in Hj.
    destruct (Hgrid j) as (tj & Htj & Hgj); [lia|].
    pose proof (reset_agent_cases fuel env s j tj Hrows Hlen ltac:(lia) Htj Hgj) as Hc.
    destruct (target_reachable env tj); [by left|].
    destruct Hc as (s' & Hs' & Hrows' & Hm & _). right. exists s'.
    split; [done|]. split; [done|]. by rewrite Hm, length_insert.
  - intros s [Hrows Hlen]. destruct (Hgrid i Hi) as (t' & Ht' & Hg).
    rewrite Ht in Ht'. injection Ht' as <-.
    pose proof (reset_agent_cases fuel env s i t Hrows Hlen Hi Ht Hg) as Hc.
    by rewrite Hreach in Hc.
  - simpl. split; [apply rows_of_four_fresh | by rewrite length_replicate].
Qed.

Lemma reset_raises_when_a_target_is_reachable_witness :
  reset 0 shuttle_obs (env_of one_train) = Raise ValueError.
Proof.
  apply (reset_raises_when_a_target_is_reachable 0 shuttle_obs (env_of one_train)
           0%nat (0, 2)).
  - intros i Hi. exists (0, 2). simpl in Hi.
    destruct i as [|i]; [| simpl in Hi; lia]. split; reflexivity.
  - simpl. lia.
  - reflexivity.
  - reflexivity.
Defined.

(** X20.  [reset] returns only where no target can be reached, and then
    it has computed no distance: with every target on the grid and no cell
    of the grid with a transition into a target, [reset] returns, every
    maximum distance is 0, and the distance map holds 0 in the four entries
    of each agent's own target and [inf] everywhere else. *)
Theorem reset_returns_on_isolated_targets
  (fuel : nat) (self : TreeObs) (env : Env) :
  targets_on_grid env ->
  (forall i t, (i < number_of_agents env)%nat -> agents_target env !! i = Some t ->
               target_reachable env t = false) ->
  exists self',
    reset fuel self env = Ok self' /\
    max_dist self' = replicate (number_of_agents env) (Fin 0) /\
    location_has_target self' = list_to_set (agents_target env) /\
    forall a cell, (a < number_of_agents env)%nat -> in_grid env cell = true ->
      dm_row (distance_map self') (Z.of_nat a) cell.1 cell.2
      = Ok (if decide (agents_target env !! a = Some cell)
            then [Fin 0; Fin 0; Fin 0; Fin 0]
            else [PosInf; PosInf; PosInf; PosInf]).
Proof.
  intros Hgrid Hiso. rewrite reset_unfold.
  set (n := number_of_agents env).
  destruct (for_each_seq_total
              (fun k s =>
                 rows_of_four (distance_map s) env n /\
                 max_dist s = replicate n (Fin 0) /\
                 forall a cell, (a < n)%nat -> in_grid env cell = true ->
                   dm_row (distance_map s) (Z.of_nat a) cell.1 cell.2
                   = Ok (if decide ((a < k)%nat /\ agents_target env !! a = Some cell)
                         then [Fin 0; Fin 0; Fin 0; Fin 0]
                         else [PosInf; PosInf; PosInf; PosInf]))
              (reset_agent fuel env) n) with
    (s := set_max_dist (replicate n (Fin 0))
            (set_distance_map
               (replicate n (replicate (Z.to_nat (height env))
                               (replicate (Z.to_nat (width env)) (replicate 4 PosInf))))
               self))
    as (s' & Hs' & Hrows' & Hm' & Hmap').
  - intros i s Hi (Hrows & Hm & Hmap).
    destruct (Hgrid i Hi) as (t & Ht & Hg).
    pose proof (reset_agent_cases fuel env s i t Hrows
                  ltac:(by rewrite Hm, length_replicate) Hi Ht Hg) as Hc.
    rewrite (Hiso i t Hi Ht) in Hc.
    destruct Hc as (s1 & Hs1 & Hrows1 & Hm1 & _ & Hzero & Hother).
    exists s1. split; [done|]. split; [done|]. split.
    + rewrite Hm1, Hm. apply list_insert_id. by rewrite lookup_replicate_2.
    + intros a cell Ha Hcell.
      destruct (decide ((Z.of_nat a, cell) = (Z.of_nat i, t))) as [[= Ea ->] | Hne].
      * apply Nat2Z.inj in Ea. subst a. rewrite Hzero.
        rewrite decide_True; [done|]. split; [lia | done].
      * rewrite Hother by (done || lia). rewrite Hmap by done.
        destruct (decide (_ /\ _)) as [[Hlt Hta] | Hn1];
          destruct (decide (_ /\ _)) as [[Hlt' Hta'] | Hn2]; try done.
        -- destruct Hn2. split; [lia | done].
        -- destruct Hn1. split; [| done].
           destruct (decide (a = i)) as [-> | Hai]; [| lia].
           destruct Hne. rewrite Ht in Hta'. by injection Hta' as ->.
  - cbn [distance_map max_dist set_max_dist set_distance_map].
    split; [apply rows_of_four_fresh|]. split; [done|].
    intros a cell Ha Hcell.
    rewrite (proj2 (rows_of_four_fresh env PosInf)) by (done || lia).
    rewrite decide_False; [done|]. intros [Hlt _]. lia.
  - rewrite Hs', ret_bind. eexists. split; [reflexivity|].
    cbn [distance_map max_dist location_has_target set_location_has_target].
    split; [done|]. split; [done|].
    intros a cell Ha Hcell. rewrite Hmap' by done.
    destruct (decide (_ /\ _)) as [[_ Hta] | Hn1];
      destruct (decide (_ = _)) as [Hta' | Hn2]; try done.
    destruct Hn1. done.
Qed.

Lemma reset_returns_on_isolated_targets_witness :
  exists self',
    reset 0 shuttle_obs (env_of loop_train) = Ok self' /\
    max_dist self' = replicate (number_of_agents (env_of loop_train)) (Fin 0) /\
    location_has_target self' = list_to_set (agents_target (env_of loop_train)) /\
    forall a cell, (a < number_of_agents (env_of loop_train))%nat ->
      in_grid (env_of loop_train) cell = true ->
      dm_row (distance_map self') (Z.of_nat a) cell.1 cell.2
      = Ok (if decide (agents_target (env_of loop_train) !! a = Some cell)
            then [Fin 0; Fin 0; Fin 0; Fin 0]
            else [PosInf; PosInf; PosInf; PosInf]).
Proof.
  apply (reset_returns_on_isolated_targets 0 shuttle_obs (env_of loop_train)).
  - intros i Hi. exists (0, 2). simpl in Hi.
    destruct i as [|i]; [| simpl in Hi; lia]. split; reflexivity.
  - intros i t Hi Ht. simpl in Hi.
    destruct i as [|i]; [| simpl in Hi; lia]. injection Ht as <-. reflexivity.
Defined.

Lemma distance_map_walker_never_propagates_witness :
  _distance_map_walker 0 shuttle_obs (env_of one_train) (0, 2) 0 = Raise ValueError.
Proof.
  pose proof (distance_map_walker_never_propagates 0 shuttle_obs (env_of one_train)
                1 (0, 2) 0) as H.
  apply H.
  - intros a cell Ha Hcell. assert (a = 0) as -> by lia.
    unfold in_grid in Hcell. simpl in Hcell.
    destruct cell as [r c]. simpl in *. assert (r = 0) as -> by lia.
    assert (c = 0 \/ c = 1 \/ c = 2) as [-> | [-> | ->]] by lia;
      eexists; (split; [reflexivity | reflexivity]).
  - lia.
  - reflexivity.
Defined.

End DistanceMap.

(** ** Printing an observation tree *)

Section TreeObsPrint.
Import TreeObsForRailEnv.

Lemma util_print_obs_subtree_unfold fuel tree nf prompt current_depth :
  util_print_obs_subtree (S fuel) tree nf prompt current_depth
  = if (length tree <? nf)%nat then Printed []
    else if (nf =? 0)%nat then ZeroDivisionError
    else
      let out := [{| printed_text := indent current_depth +:+ prompt;
                     printed_features := slice tree 0 nf |}] in
      let child_size := ((length tree - nf) / 4)%nat in
      let child c p :=
        util_print_obs_subtree fuel
          (slice tree (nf + c * child_size)%nat (nf + (c + 1) * child_size)%nat)
          nf p (current_depth + 1) in
      then_print
        (then_print
           (then_print (then_print (Printed out) (child 0%nat "L:")) (child 1%nat "F:"))
           (child 2%nat "R:"))
        (child 3%nat "B:").
Proof. reflexivity. Qed.

Lemma length_slice {A} (l : list A) a b :
  (b <= length l)%nat -> length (slice l a b) = (b - a)%nat.
Proof. intros Hb. unfold slice. rewrite length_take, length_drop. lia. Qed.

Lemma length_slice_le {A} (l : list A) a b : (length (slice l a b) <= b - a)%nat.
Proof. unfold slice. rewrite length_take. lia. Qed.

(** A list of length [nf + 4 * cs] is its head of [nf] entries followed by
    the four slices of [cs] entries that the function recurses on. *)
Lemma slices_cover {A} (l : list A) nf cs :
  length l = (nf + 4 * cs)%nat ->
  l = slice l 0 nf ++ slice l (nf + 0 * cs) (nf + (0 + 1) * cs)
        ++ slice l (nf + 1 * cs) (nf + (1 + 1) * cs)
        ++ slice l (nf + 2 * cs) (nf + (2 + 1) * cs)
        ++ slice l (nf + 3 * cs) (nf + (3 + 1) * cs).
Proof.
  intros Hl. unfold slice.
  replace (nf - 0)%nat with nf by lia.
  replace (nf + (0 + 1) * cs - (nf + 0 * cs))%nat with cs by lia.
  replace (nf + (1 + 1) * cs - (nf + 1 * cs))%nat with cs by lia.
  replace (nf + (2 + 1) * cs - (nf + 2 * cs))%nat with cs by lia.
  replace (nf + (3 + 1) * cs - (nf + 3 * cs))%nat with cs by lia.
  replace (nf + 0 * cs)%nat with nf by lia.
  replace (nf + 1 * cs)%nat with (nf + cs)%nat by lia.
  replace (nf + 2 * cs)%nat with (nf + cs + cs)%nat by lia.
  replace (nf + 3 * cs)%nat with (nf + cs + cs + cs)%nat by lia.
  rewrite drop_0.
  rewrite <- !drop_drop.
  set (l1 := drop nf l). set (l2 := drop cs l1). set (l3 := drop cs l2).
  set (l4 := drop cs l3).
  assert (take cs l4 = l4) as ->.
  { apply take_ge. unfold l4, l3, l2, l1. rewrite !length_drop. lia. }
  unfold l4. rewrite take_drop. unfold l3. rewrite take_drop.
  unfold l2. rewrite take_drop. unfold l1. by rewrite take_drop.
Qed.

Lemma print_total fuel nf :
  (0 < nf)%nat ->
  forall tree prompt current_depth, (length tree < fuel)%nat ->
    exists lines,
      util_print_obs_subtree fuel tree nf prompt current_depth = Printed lines /\
      Forall (fun l => length (printed_features l) = nf) lines.
Proof.
  intros Hnf. induction fuel as [|fuel IH]; intros tree prompt current_depth Hlen; [lia|].
  rewrite util_print_obs_subtree_unfold.
  destruct (length tree <? nf)%nat eqn:Hshort; [by eexists|].
  apply Nat.ltb_ge in Hshort.
  assert ((nf =? 0)%nat = false) as -> by (apply Nat.eqb_neq; lia).
  cbv zeta. set (cs := ((length tree - nf) / 4)%nat).
  assert (cs < fuel)%nat as Hcs.
  { unfold cs.
    assert ((length tree - nf) / 4 <= length tree - nf)%nat
      by (apply Nat.Div0.div_le_upper_bound; lia).
    lia. }
  assert (forall c p, exists lines,
             util_print_obs_subtree fuel (slice tree (nf + c * cs) (nf + (c + 1) * cs))
                                    nf p (current_depth + 1) = Printed lines /\
             Forall (fun l => length (printed_features l) = nf) lines) as Hchild.
  { intros c p. apply IH.
    pose proof (length_slice_le tree (nf + c * cs) (nf + (c + 1) * cs)). lia. }
  destruct (Hchild 0%nat "L:") as (l0 & -> & Hf0).
  destruct (Hchild 1%nat "F:") as (l1 & -> & Hf1).
  destruct (Hchild 2%nat "R:") as (l2 & -> & Hf2).
  destruct (Hchild 3%nat "B:") as (l3 & -> & Hf3).
  eexists. split; [reflexivity|].
  rewrite !Forall_app. repeat split; try done.
  apply Forall_singleton. simpl. rewrite length_slice by lia. lia.
Qed.

(** X17.  [util_print_obs_subtree] on any list: with at least one feature
    per node it returns without raising, and every line it prints holds
    exactly that many features; with [num_features_per_node = 0] it raises
    ZeroDivisionError, even on the empty list. *)
Theorem print_obs_subtree_returns_unless_zero_features
  (fuel : nat) (tree : list xnum) (nf : nat) (prompt : string) (current_depth : nat) :
  (nf = 0%nat ->
   util_print_obs_subtree fuel tree nf prompt current_depth = ZeroDivisionError) /\
  ((0 < nf)%nat -> (length tree < fuel)%nat ->
   exists lines,
     util_print_obs_subtree fuel tree nf prompt current_depth = Printed lines /\
     Forall (fun l => length (printed_features l) = nf) lines).
Proof.
  split.
  - intros ->. by destruct fuel.
  - intros Hnf Hfuel. by apply print_total.
Qed.

Lemma print_full_tree nf :
  (0 < nf)%nat ->
  forall k fuel tree prompt current_depth,
    length tree = (nf * nodes_below k)%nat -> (length tree < fuel)%nat ->
    exists lines,
      util_print_obs_subtree fuel tree nf prompt current_depth = Printed lines /\
      length lines = nodes_below k /\
      mjoin (printed_features <$> lines) = tree /\
      Forall (fun l => length (printed_features l) = nf) lines.
Proof.
  intros Hnf. induction k as [|k IH]; intros fuel tree prompt current_depth Hlen Hfuel.
  - change (nodes_below 0) with 0%nat in *. rewrite Nat.mul_0_r in Hlen.
    destruct fuel as [|fuel]; [lia|].
    rewrite util_print_obs_subtree_unfold.
    assert ((length tree <? nf)%nat = true) as -> by (apply Nat.ltb_lt; lia).
    exists []. split; [done|]. split; [done|]. split; [| done].
    simpl. symmetry. by apply nil_length_inv.
  - destruct fuel as [|fuel]; [lia|].
    rewrite nodes_below_quad in Hlen |- *.
    rewrite util_print_obs_subtree_unfold.
    assert ((length tree <? nf)%nat = false) as -> by (apply Nat.ltb_ge; nia).
    assert ((nf =? 0)%nat = false) as -> by (apply Nat.eqb_neq; lia).
    cbv zeta.
    assert (((length tree - nf) / 4)%nat = (nf * nodes_below k)%nat) as ->.
    { replace (length tree - nf)%nat with ((nf * nodes_below k) * 4)%nat by lia.
      apply Nat.div_mul. lia. }
    set (cs := (nf * nodes_below k)%nat) in *.
    assert (length tree = (nf + 4 * cs)%nat) as Hsplit by lia.
    assert (forall c p, (c < 4)%nat -> exists lines,
               util_print_obs_subtree fuel (slice tree (nf + c * cs) (nf + (c + 1) * cs))
                                      nf p (current_depth + 1) = Printed lines /\
               length lines = nodes_below k /\
               mjoin (printed_features <$> lines)
               = slice tree (nf + c * cs) (nf + (c + 1) * cs) /\
               Forall (fun l => length (printed_features l) = nf) lines) as Hchild.
    { intros c p Hc. apply IH.
      - rewrite length_slice by nia. fold cs. nia.
      - rewrite length_slice by nia. nia. }
    destruct (Hchild 0%nat "L:") as (l0 & -> & Hn0 & Hj0 & Hf0); [lia|].
    destruct (Hchild 1%nat "F:") as (l1 & -> & Hn1 & Hj1 & Hf1); [lia|].
    destruct (Hchild 2%nat "R:") as (l2 & -> & Hn2 & Hj2 & Hf2); [lia|].
    destruct (Hchild 3%nat "B:") as (l3 & -> & Hn3 & Hj3 & Hf3); [lia|].
    eexists. split; [reflexivity|]. split; [| split].
    + rewrite !length_app. simpl length. lia.
    + rewrite !fmap_app, !join_app. simpl. rewrite app_nil_r.
      rewrite Hj0, Hj1, Hj2, Hj3. rewrite <- !(assoc_L (++)).
      symmetry. by apply slices_cover.
    + rewrite !Forall_app. repeat split; try done.
      apply Forall_singleton. simpl. rewrite length_slice by lia. lia.
Qed.

(** X15.  [util_print_obs_subtree] prints an observation tree node by node
    and loses nothing: for a tree of [k] full levels with [nf >= 1] features
    per node it returns without raising, prints one line per node, every
    line holds [nf] features, and the features printed, in order, are the
    tree. *)
Theorem print_obs_subtree_prints_every_node
  (nf k fuel : nat) (tree : list xnum) (prompt : string) (current_depth : nat) :
  (0 < nf)%nat ->
  length tree = (nf * nodes_below k)%nat ->
  (length tree < fuel)%nat ->
  exists lines,
    util_print_obs_subtree fuel tree nf prompt current_depth = Printed lines /\
    length lines = nodes_below k /\
    mjoin (printed_features <$> lines) = tree /\
    Forall (fun l => length (printed_features l) = nf) lines.
Proof. intros Hnf. by apply print_full_tree. Qed.

Lemma print_obs_subtree_prints_every_node_witness :
  exists lines,
    util_print_obs_subtree 6 [Fin 1; Fin 2; Fin 3; Fin 4; Fin 5] 1 "" 0 = Printed lines /\
    length lines = nodes_below 2 /\
    mjoin (printed_features <$> lines) = [Fin 1; Fin 2; Fin 3; Fin 4; Fin 5] /\
    Forall (fun l => length (printed_features l) = 1%nat) lines.
Proof.
  apply (print_obs_subtree_prints_every_node 1 2 6 [Fin 1; Fin 2; Fin 3; Fin 4; Fin 5] "" 0).
  - lia.
  - reflexivity.
  - simpl. lia.
Defined.

(** X16.  What [get] returns can be printed: on the observation of a
    builder of depth [max_depth], [util_print_obs_subtree] with 5 features
    per node prints [sum_{i=0}^{max_depth} 4^i] nodes, which together are
    the observation. *)
Theorem observation_of_get_prints_in_full
  (fuel : nat) (self : TreeObs) (env : Env) (handle : Z) (self' : TreeObs)
  (obs : list xnum) :
  get fuel self env handle = Ok (self', obs) ->
  exists lines,
    util_print_obs_subtree (S (length obs)) obs 5 "" 0 = Printed lines /\
    length lines = geometric_sum (max_depth self) /\
    mjoin (printed_features <$> lines) = obs.
Proof.
  intros Hget. apply get_length in Hget.
  destruct (print_full_tree 5 ltac:(lia) (S (max_depth self)) (S (length obs)) obs "" 0%nat)
    as (lines & Hp & Hn & Hj & _); [done | lia |].
  exists lines. done.
Qed.

Lemma observation_of_get_prints_in_full_witness :
  exists self' obs,
    get 3 shuttle_obs (env_of shuttle_train) 0 = Ok (self', obs) /\
    exists lines,
      util_print_obs_subtree (S (length obs)) obs 5 "" 0 = Printed lines /\
      length lines = geometric_sum (max_depth shuttle_obs) /\
      mjoin (printed_features <$> lines) = obs.
Proof.
  eexists. eexists. split; [vm_compute; reflexivity|].
  eapply (observation_of_get_prints_in_full 3 shuttle_obs (env_of shuttle_train) 0).
  vm_compute. reflexivity.
Defined.

End TreeObsPrint.
